(** * Duel Advocacy Platform: the ETL core

    A shallow embedding of [src/etl/transformer.ts], [src/etl/validator.ts],
    of the deduplication and the streaming loop of [src/etl/pipeline.ts],
    of [loadUserBatch] and of the extractor, with the properties of the
    specification stated over it.

    Modelling conventions.
    - A JavaScript number is an exact rational or [NaN]: the rounding of
      binary64 and the two infinities are not modelled.  The numbers stored
      in an entity are plain rationals.  The source guards each of them with
      [isNaN], which lets the infinities through (["Infinity"] is a number
      for [Number]), and the engagement of a post of [Infinity] likes and
      [-Infinity] comments is [NaN]: entities that hold such a number are
      outside the model, and a sum is the exact sum where the source rounds.
    - A JavaScript [Map] keeps its keys in insertion order and [set] on a key
      already present keeps that key's position: it is an association list.
    - An untyped value ([unknown]) is a [JsValue]; a method call on a value
      that has no such method raises [TypeError], so fallible code lives in
      a state-and-error monad.  The state is the number of synthetic
      identifiers drawn so far.
    - Strings are strings of 8-bit characters.  [trim] strips the white
      space of ASCII (characters 9 to 13 and 32) and [toLowerCase] maps the
      letters [A] to [Z]: they are [String.prototype.trim] and
      [String.prototype.toLowerCase] on ASCII strings, and leave out the
      white space and the letters of Unicode beyond; [asciiOnly] marks the
      strings on which they agree with the source. *)

From Stdlib Require Import List String Ascii Bool ZArith.
From Stdlib Require Import QArith Qround Qabs Lqa Lia.
Import ListNotations.

Set Implicit Arguments.

(* ================================================================== *)
(** ** JavaScript values *)

(** A number: [NaN] or an exact rational.  The two infinities and the
    rounding of binary64 are left out. *)
Inductive JsNumber : Type :=
| NaN : JsNumber
| Num : Q -> JsNumber.

(** A [Date] holds its time value in milliseconds; [None] is Invalid Date. *)
Record JsDate : Type := mkDate { getTime : option Z }.

#[warnings="-register-all"]
Inductive JsValue : Type :=
| JUndefined : JsValue
| JNull : JsValue
| JBool : bool -> JsValue
| JNumber : JsNumber -> JsValue
| JString : string -> JsValue
| JDateObj : JsDate -> JsValue
| JArray : list JsValue -> JsValue
| JObject : list (string * JsValue) -> JsValue.

Definition Qltb (x y : Q) : bool := negb (Qle_bool y x).

(** [ToBoolean]: what [if (v)], [v && ...], [v || ...] and [!v] test. *)
Definition truthy (v : JsValue) : bool :=
  match v with
  | JUndefined | JNull => false
  | JBool b => b
  | JNumber NaN => false
  | JNumber (Num q) => negb (Qeq_bool q 0)
  | JString s => negb (String.eqb s "")
  | JDateObj _ | JArray _ | JObject _ => true
  end.

(** [a || b] on values. *)
Definition js_or (a b : JsValue) : JsValue := if truthy a then a else b.

Definition isNaN (n : JsNumber) : bool :=
  match n with NaN => true | Num _ => false end.

(* ================================================================== *)
(** ** Strings

    [trim], [toLowerCase] and the like, on strings of ASCII characters:
    the white space stripped is the white space of ASCII, the letters
    lower-cased are [A] to [Z].  On a string that holds a character
    beyond ASCII the methods of JavaScript may strip or map more (a
    no-break space, an accented capital). *)

(** The white space of ASCII: tab, line feed, vertical tab, form feed,
    carriage return and space. *)
Definition isSpace (c : ascii) : bool :=
  let n := nat_of_ascii c in
  (Nat.eqb n 32 || (Nat.leb 9 n && Nat.leb n 13))%bool.

Fixpoint trimStart (s : string) : string :=
  match s with
  | EmptyString => EmptyString
  | String c s' => if isSpace c then trimStart s' else s
  end.

Fixpoint rev_string (s acc : string) : string :=
  match s with
  | EmptyString => acc
  | String c s' => rev_string s' (String c acc)
  end.

Definition trimEnd (s : string) : string :=
  rev_string (trimStart (rev_string s "")) "".

(** [s.trim()], for ASCII strings. *)
Definition trim (s : string) : string := trimEnd (trimStart s).

Definition lowerChar (c : ascii) : ascii :=
  let n := nat_of_ascii c in
  if (Nat.leb 65 n && Nat.leb n 90)%bool then ascii_of_nat (n + 32) else c.

(** [s.toLowerCase()], for ASCII strings. *)
Fixpoint toLowerCase (s : string) : string :=
  match s with
  | EmptyString => EmptyString
  | String c s' => String (lowerChar c) (toLowerCase s')
  end.

(** [s.replace(/^@+/, '')] *)
Fixpoint stripLeadingAt (s : string) : string :=
  match s with
  | String "@"%char s' => stripLeadingAt s'
  | _ => s
  end.

(** A string is blank when nothing is left of it after trimming. *)
Definition isBlank (s : string) : bool := String.eqb (trim s) "".

(* ================================================================== *)
(** ** The canonical entity ([types/index.ts])

    Field names are the source's; [platform] of a post and [programId] of a
    sales attribution are [post_platform] and [sale_programId] here, the
    plain names being those of [SocialHandle] and [Program].  [name],
    [email] and a post's platform hold the raw value the transformer copies
    ([JUndefined] when there is none). *)

Record SocialHandle : Type := mkSocialHandle {
  platform : string;
  handle : string
}.

Record SocialPost : Type := mkSocialPost {
  postId : string;
  post_platform : JsValue;
  url : option string;
  likes : Q;
  comments : Q;
  shares : Q;
  reach : Q;
  engagement : Q
}.

Record SalesAttribution : Type := mkSalesAttribution {
  sale_programId : string;
  amount : Q
}.

Record Program : Type := mkProgram {
  programId : string;
  programName : string
}.

Record User : Type := mkUser {
  userId : string;
  name : JsValue;
  email : JsValue;
  socialHandles : list SocialHandle;
  programs : list Program;
  posts : list SocialPost;
  salesAttributions : list SalesAttribution;
  joinDate : option JsDate;
  totalEngagement : Q;
  totalSales : Q
}.

(* ================================================================== *)
(** ** [Map<string, V>]: insertion-ordered *)

Section JsMap.
Variable V : Type.

Definition JsMap : Type := list (string * V).

Fixpoint map_get (k : string) (m : JsMap) : option V :=
  match m with
  | [] => None
  | (k', v) :: m' => if String.eqb k k' then Some v else map_get k m'
  end.

Definition map_has (k : string) (m : JsMap) : bool :=
  match map_get k m with Some _ => true | None => false end.

(** [m.set(k, v)]: overwrite in place, or append a new key at the end. *)
Fixpoint map_set (k : string) (v : V) (m : JsMap) : JsMap :=
  match m with
  | [] => [(k, v)]
  | (k', v') :: m' =>
      if String.eqb k k' then (k, v) :: m' else (k', v') :: map_set k v m'
  end.

Definition map_keys (m : JsMap) : list string := map fst m.
Definition map_values (m : JsMap) : list V := map snd m.
End JsMap.

(* ================================================================== *)
(** ** [pipeline.ts]: deduplication *)

(** [l.length] as a number *)
Definition Qlen (A : Type) (l : list A) : Q :=
  inject_Z (Z.of_nat (List.length l)).

(** [calculateCompletenessScore] *)
Definition calculateCompletenessScore (user : User) : Q :=
  let score := 0%Q in
  let score := if truthy (name user) then (score + 1)%Q else score in
  let score := if truthy (email user) then (score + 1)%Q else score in
  let score := match joinDate user with
               | Some _ => (score + 1)%Q
               | None => score
               end in
  let score := (score + Qlen (socialHandles user) * 2)%Q in
  let score := (score + Qlen (programs user) * 3)%Q in
  let score := (score + Qlen (posts user))%Q in
  let score := (score + Qlen (salesAttributions user) * 5)%Q in
  let score := (score + totalEngagement user)%Q in
  let score := (score + totalSales user)%Q in
  score.

(** [deduplicateSocialHandles]: first handle per [platform:handle] key. *)
Definition handleKey (h : SocialHandle) : string :=
  (platform h ++ ":" ++ handle h)%string.

Definition deduplicateSocialHandles (handles : list SocialHandle)
  : list SocialHandle :=
  map_values
    (fold_left
       (fun seen h =>
          if map_has (handleKey h) seen then seen
          else map_set (handleKey h) h seen)
       handles []).

(** [deduplicatePrograms]: first program per [programId]. *)
Definition deduplicatePrograms (progs : list Program) : list Program :=
  map_values
    (fold_left
       (fun seen p =>
          if map_has (programId p) seen then seen
          else map_set (programId p) p seen)
       progs []).

(** [deduplicatePosts]: per [postId], the post of higher engagement. *)
Definition postStep (seen : JsMap SocialPost) (post : SocialPost)
  : JsMap SocialPost :=
  match map_get (postId post) seen with
  | None => map_set (postId post) post seen
  | Some existing =>
      if Qltb (engagement existing) (engagement post)
      then map_set (postId post) post seen
      else seen
  end.

Definition deduplicatePosts (ps : list SocialPost) : list SocialPost :=
  map_values (fold_left postStep ps []).

(** [salesMap.get(id) || 0] *)
Definition orZero (o : option Q) : Q :=
  match o with
  | Some c => if Qeq_bool c 0 then 0%Q else c
  | None => 0%Q
  end.

Definition salesStep (salesMap : JsMap Q) (a : SalesAttribution) : JsMap Q :=
  let current := orZero (map_get (sale_programId a) salesMap) in
  map_set (sale_programId a) (current + amount a)%Q salesMap.

(** [deduplicateSalesAttributions]: amounts summed per [programId]. *)
Definition deduplicateSalesAttributions (attributions : list SalesAttribution)
  : list SalesAttribution :=
  map (fun e => mkSalesAttribution (fst e) (snd e))
      (fold_left salesStep attributions []).

(** [mergeUsers] *)
Definition mergeUsers (user1 user2 : User) : User :=
  {| userId := userId user1;
     name := js_or (name user1) (name user2);
     email := js_or (email user1) (email user2);
     joinDate := match joinDate user1 with
                 | Some d => Some d
                 | None => joinDate user2
                 end;
     socialHandles :=
       deduplicateSocialHandles (socialHandles user1 ++ socialHandles user2);
     programs := deduplicatePrograms (programs user1 ++ programs user2);
     posts := deduplicatePosts (posts user1 ++ posts user2);
     salesAttributions :=
       deduplicateSalesAttributions
         (salesAttributions user1 ++ salesAttributions user2);
     totalEngagement := 0;
     totalSales := 0 |}.

(** One iteration of the loop of [deduplicateUsers]. *)
Definition dedupStep (userMap : JsMap User) (user : User) : JsMap User :=
  match map_get (userId user) userMap with
  | None => map_set (userId user) user userMap
  | Some existing =>
      let existingScore := calculateCompletenessScore existing in
      let newScore := calculateCompletenessScore user in
      if Qltb existingScore newScore
      then map_set (userId user) user userMap
      else if Qeq_bool newScore existingScore
           then map_set (userId user) (mergeUsers existing user) userMap
           else userMap
  end.

(** [deduplicateUsers] *)
Definition deduplicateUsers (users : list User) : list User :=
  map_values (fold_left dedupStep users []).

Definition sumEngagement (ps : list SocialPost) : Q :=
  fold_left (fun sum post => (sum + engagement post)%Q) ps 0%Q.

Definition sumAmount (ss : list SalesAttribution) : Q :=
  fold_left (fun sum sale => (sum + amount sale)%Q) ss 0%Q.

(** [recalculateTotals] *)
Definition recalculateTotals (user : User) : User :=
  {| userId := userId user;
     name := name user;
     email := email user;
     socialHandles := socialHandles user;
     programs := programs user;
     posts := posts user;
     salesAttributions := salesAttributions user;
     joinDate := joinDate user;
     totalEngagement := sumEngagement (posts user);
     totalSales := sumAmount (salesAttributions user) |}.

(** What [runPipeline] hands to [loadUserBatch] for one batch: the batch
    deduplicated, the identifiers of earlier batches filtered out, totals
    recomputed. *)
Definition batchForLoader (processedUserIds : list string)
                          (currentBatch : list User) : list User :=
  let deduplicatedBatch := deduplicateUsers currentBatch in
  let newUsers :=
    filter (fun user =>
              negb (existsb (String.eqb (userId user)) processedUserIds))
           deduplicatedBatch in
  map recalculateTotals newUsers.

(* ================================================================== *)
(** ** Exceptions, synthetic identifiers and the JavaScript runtime *)

Inductive Result (A : Type) : Type :=
| Ok : A -> Result A
| Throw : string -> Result A.

Arguments Throw {A} _.

(** A computation that may throw and may draw synthetic identifiers; the
    state counts the identifiers drawn so far. *)
Definition M (A : Type) : Type := nat -> Result (A * nat).

Definition ret {A : Type} (a : A) : M A := fun n => Ok (a, n).

Definition throw {A : Type} (e : string) : M A := fun _ => Throw e.

Definition bind {A B : Type} (m : M A) (f : A -> M B) : M B :=
  fun n =>
    match m n with
    | Ok (a, n') => f a n'
    | Throw e => Throw e
    end.

Definition lift {A : Type} (r : Result A) : M A :=
  fun n => match r with Ok a => Ok (a, n) | Throw e => Throw e end.

Notation "x <- m ;; k" := (bind m (fun x => k))
  (at level 61, m at next level, right associativity).

Fixpoint mapM {A B : Type} (f : A -> M B) (l : list A) : M (list B) :=
  match l with
  | [] => ret []
  | x :: l' => y <- f x ;; ys <- mapM f l' ;; ret (y :: ys)
  end.

Fixpoint foldM {A B : Type} (f : A -> B -> M A) (l : list B) (a : A) : M A :=
  match l with
  | [] => ret a
  | x :: l' => a' <- f a x ;; foldM f l' a'
  end.

(** The built-ins of the host the code calls and this development does not
    define: conversions between strings and numbers, the conversion of an
    object to a primitive, date parsing, and the clock and random source
    behind a synthetic identifier.  Every theorem holds for any of them. *)
Record Runtime : Type := mkRuntime {
  StringToNumber : string -> JsNumber;
  NumberToString : JsNumber -> string;
  ObjectToNumber : JsValue -> Result JsNumber;
  ObjectToString : JsValue -> Result string;
  DateToString : JsDate -> string;
  DateParse : string -> option Z;
  freshSuffix : nat -> string
}.

Definition typeError : string := "TypeError".

Section Transformer.
Variable rt : Runtime.

(** [Number(v)] *)
Definition js_Number (v : JsValue) : Result JsNumber :=
  match v with
  | JUndefined => Ok NaN
  | JNull => Ok (Num 0)
  | JBool b => Ok (Num (if b then 1 else 0))
  | JNumber n => Ok n
  | JString s => Ok (StringToNumber rt s)
  | JDateObj d =>
      Ok (match getTime d with Some t => Num (inject_Z t) | None => NaN end)
  | JArray _ | JObject _ => ObjectToNumber rt v
  end.

(** [String(v)] *)
Definition js_String (v : JsValue) : Result string :=
  match v with
  | JUndefined => Ok "undefined"%string
  | JNull => Ok "null"%string
  | JBool b => Ok (if b then "true" else "false")%string
  | JNumber n => Ok (NumberToString rt n)
  | JString s => Ok s
  | JDateObj d => Ok (DateToString rt d)
  | JArray _ | JObject _ => ObjectToString rt v
  end.

(** [typeof v === 'object' && v !== null] *)
Definition isObjectLike (v : JsValue) : bool :=
  match v with
  | JDateObj _ | JArray _ | JObject _ => true
  | _ => false
  end.

(** [v.key] for a value that is not [null] or [undefined], and a key that
    is no built-in property. *)
Definition getProp (v : JsValue) (key : string) : JsValue :=
  match v with
  | JObject fields =>
      match map_get key fields with Some x => x | None => JUndefined end
  | _ => JUndefined
  end.

(** [v.key] where [v] may be [null] or [undefined]. *)
Definition getPropM (v : JsValue) (key : string) : M JsValue :=
  match v with
  | JUndefined | JNull => throw typeError
  | _ => ret (getProp v key)
  end.

(** [`${prefix}_${Date.now()}_${Math.random().toString(36).substr(2, 9)}`] *)
Definition freshId (prefix : string) : M string :=
  fun n => Ok ((prefix ++ "_" ++ freshSuffix rt n)%string, S n).

(** [v && v !== null && v.trim() !== '' ? v : fresh]: the identifier given,
    or a synthetic one.  [v.trim()] throws unless [v] is a string. *)
Definition idOrFresh (prefix : string) (v : JsValue) : M string :=
  if truthy v then
    match v with
    | JString s =>
        if negb (String.eqb (trim s) "") then ret s else freshId prefix
    | _ => throw typeError
    end
  else freshId prefix.

(** [normalizeSocialHandle]: [replace] throws unless its receiver is a
    string. *)
Definition normalizeSocialHandle (h : JsValue) : M string :=
  match h with
  | JString s => ret (trim (toLowerCase (stripLeadingAt s)))
  | _ => throw typeError
  end.

(** [new Date(t)] on a number: the time value is clipped. *)
Definition Qtrunc (q : Q) : Z :=
  if Qle_bool 0 q then Qfloor q else Qceiling q.

Definition newDate (t : JsNumber) : JsDate :=
  match t with
  | NaN => mkDate None
  | Num q =>
      if Qle_bool (Qabs q) 8640000000000000
      then mkDate (Some (Qtrunc q)) else mkDate None
  end.

(** [parseTimestamp] *)
Definition parseTimestamp (value : JsValue) : option JsDate :=
  if negb (truthy value) then None
  else match value with
       | JDateObj d => Some d
       | JNumber (Num v) =>
           let timestamp :=
             if Qltb 10000000000 v then v else (v * 1000)%Q in
           Some (newDate (Num timestamp))
       | JNumber NaN => Some (newDate NaN)
       | JString s =>
           match DateParse rt s with
           | Some t => Some (mkDate (Some t))
           | None => None
           end
       | _ => None
       end.

(** [x || 0] on a number *)
Definition numOrZero (q : Q) : Q := if Qeq_bool q 0 then 0%Q else q.

(** [calculateEngagement] *)
Definition calculateEngagement (post : SocialPost) : Q :=
  let likes := numOrZero (likes post) in
  let comments := numOrZero (comments post) in
  let shares := numOrZero (shares post) in
  (likes + comments + shares)%Q.

Definition nonEmpty (s : string) : bool := negb (String.eqb s "").

(** [transformSocialHandles], on the objects [transformUser] builds for
    it: [{ platform: <literal>, handle: <raw value> }]. *)
Definition transformSocialHandles (handles : list (string * JsValue))
  : M (list SocialHandle) :=
  hs <- mapM (fun h : string * JsValue =>
                let rawHandle := snd h in
                normalized <- (if truthy rawHandle
                               then normalizeSocialHandle rawHandle
                               else ret ""%string) ;;
                ret (mkSocialHandle (fst h) normalized))
             handles ;;
  ret (filter (fun h => (nonEmpty (handle h) && nonEmpty (platform h))%bool)
              hs).

(** [isNaN(n) ? 0 : n] *)
Definition safeNumber (n : JsNumber) : Q :=
  match n with NaN => 0%Q | Num q => q end.

(** The callback [transformSocialPosts] maps over the raw posts. *)
Definition transformPost (post : JsValue) : M SocialPost :=
  let taskId := getProp post "task_id" in
  let platform := getProp post "platform" in
  let postUrl := getProp post "post_url" in
  finalTaskId <- idOrFresh "task" taskId ;;
  safeLikes <- lift (js_Number (getProp post "likes")) ;;
  safeComments <- lift (js_Number (getProp post "comments")) ;;
  safeShares <- lift (js_Number (getProp post "shares")) ;;
  safeReach <- lift (js_Number (getProp post "reach")) ;;
  finalUrl <- (if truthy postUrl then
                 match postUrl with
                 | JString s =>
                     ret (if negb (String.eqb (trim s) "")
                          then Some s else None)
                 | _ => throw typeError
                 end
               else ret None) ;;
  let transformed :=
    {| postId := finalTaskId;
       post_platform := if truthy platform then platform else JString "other";
       url := finalUrl;
       likes := safeNumber safeLikes;
       comments := safeNumber safeComments;
       shares := safeNumber safeShares;
       reach := safeNumber safeReach;
       engagement := 0 |} in
  ret {| postId := postId transformed;
         post_platform := post_platform transformed;
         url := url transformed;
         likes := likes transformed;
         comments := comments transformed;
         shares := shares transformed;
         reach := reach transformed;
         engagement := calculateEngagement transformed |}.

(** [transformSocialPosts], on the elements of the array it is given. *)
Definition transformSocialPosts (posts : list JsValue)
  : M (list SocialPost) :=
  ps <- mapM transformPost (filter isObjectLike posts) ;;
  ret (filter (fun p => (nonEmpty (postId p) && truthy (post_platform p))%bool)
              ps).

(** [createSalesAttribution] *)
Definition createSalesAttribution (programId : string) (amount : Q)
  : SalesAttribution :=
  {| sale_programId := programId; amount := amount |}.

Definition unknownProgram : string := "Unknown Program".

(** The callback [transformPrograms] maps over the raw programs. *)
Definition transformProgram (program : JsValue) : M Program :=
  let programId := getProp program "program_id" in
  let brand := getProp program "brand" in
  finalProgramId <- idOrFresh "program" programId ;;
  finalBrand <- (if truthy brand then lift (js_String brand)
                 else ret unknownProgram) ;;
  ret {| programId := finalProgramId; programName := finalBrand |}.

Definition keepProgram (p : Program) : bool :=
  (nonEmpty (programId p) && nonEmpty (programName p)
   && negb (String.eqb (programName p) unknownProgram))%bool.

(** [transformPrograms] *)
Definition transformPrograms (programs : JsValue) : M (list Program) :=
  match programs with
  | JArray l =>
      ps <- mapM transformProgram (filter isObjectLike l) ;;
      ret (filter keepProgram ps)
  | _ => ret []
  end.

(** The body of the [forEach] over [advocacy_programs] in [transformUser]:
    nested tasks are appended to [allPosts], and a sale is recorded when
    the program has an identifier and a positive amount. *)
Definition absorbProgram (acc : list JsValue * list SalesAttribution)
                         (program : JsValue)
  : M (list JsValue * list SalesAttribution) :=
  if isObjectLike program then
    let tasksCompleted := getProp program "tasks_completed" in
    let allPosts := match tasksCompleted with
                    | JArray ts => fst acc ++ ts
                    | _ => fst acc
                    end in
    let programId := getProp program "program_id" in
    let rawSales := getProp program "total_sales_attributed" in
    salesAmount <- lift (js_Number rawSales) ;;
    if truthy programId then
      match programId with
      | JString s =>
          if (negb (String.eqb (trim s) "")
              && negb (isNaN salesAmount)
              && Qltb 0 (safeNumber salesAmount))%bool
          then ret (allPosts,
                    snd acc
                    ++ [createSalesAttribution s (safeNumber salesAmount)])
          else ret (allPosts, snd acc)
      | _ => throw typeError
      end
    else ret (allPosts, snd acc)
  else ret acc.

(** [transformUser] *)
Definition transformUser (rawData : JsValue) : M User :=
  rawUserId <- getPropM rawData "user_id" ;;
  userId <- idOrFresh "user" rawUserId ;;
  let name := js_or (getProp rawData "name") JUndefined in
  let email := js_or (getProp rawData "email") JUndefined in
  let joinedAt := getProp rawData "joined_at" in
  let joinDate :=
    parseTimestamp (match joinedAt with JNull => JUndefined | v => v end) in
  let instagramHandle := getProp rawData "instagram_handle" in
  let tiktokHandle := getProp rawData "tiktok_handle" in
  let directHandles :=
    (if truthy instagramHandle
     then [("instagram"%string, instagramHandle)] else [])
    ++ (if truthy tiktokHandle
        then [("tiktok"%string, tiktokHandle)] else []) in
  socialHandles <- transformSocialHandles directHandles ;;
  let advocacyPrograms := getProp rawData "advocacy_programs" in
  absorbed <- match advocacyPrograms with
              | JArray l => foldM absorbProgram l ([], [])
              | _ => ret ([], [])
              end ;;
  let allPosts := fst absorbed in
  let salesAttributions := snd absorbed in
  posts <- transformSocialPosts allPosts ;;
  programs <- transformPrograms advocacyPrograms ;;
  let totalEngagement := sumEngagement posts in
  let totalSales := sumAmount salesAttributions in
  ret {| userId := userId;
         name := name;
         email := email;
         socialHandles := socialHandles;
         programs := programs;
         posts := posts;
         salesAttributions := salesAttributions;
         joinDate := joinDate;
         totalEngagement := totalEngagement;
         totalSales := totalSales |}.
End Transformer.

(* ================================================================== *)
(** ** [validator.ts]: the flexible schema

    A zod schema is its [safeParse]: the parsed (and transformed) value, or
    [None] when the input is refused. *)

Definition Schema : Type := JsValue -> option JsValue.

Fixpoint mapO {A B : Type} (f : A -> option B) (l : list A) : option (list B) :=
  match l with
  | [] => Some []
  | x :: l' =>
      match f x with
      | Some y =>
          match mapO f l' with Some ys => Some (y :: ys) | None => None end
      | None => None
      end
  end.

(** [z.string()] *)
Definition zString : Schema :=
  fun v => match v with JString _ => Some v | _ => None end.

(** [z.number()]: [NaN] is refused. *)
Definition zNumber : Schema :=
  fun v => match v with JNumber (Num _) => Some v | _ => None end.

(** [z.date()]: an invalid date is refused. *)
Definition zDate : Schema :=
  fun v => match v with
           | JDateObj d =>
               match getTime d with Some _ => Some v | None => None end
           | _ => None
           end.

(** [z.union([...])]: the first member that accepts. *)
Fixpoint zUnion (members : list Schema) : Schema :=
  fun v =>
    match members with
    | [] => None
    | s :: rest => match s v with Some r => Some r | None => zUnion rest v end
    end.

(** [s.transform(f)]; a transform that throws fails the validation (the
    [catch] of [validateUser]). *)
Definition zTransform (s : Schema) (f : JsValue -> Result JsValue) : Schema :=
  fun v =>
    match s v with
    | Some r => match f r with Ok x => Some x | Throw _ => None end
    | None => None
    end.

(** [s.nullable()] *)
Definition zNullable (s : Schema) : Schema :=
  fun v => match v with JNull => Some JNull | _ => s v end.

(** [s.optional()] *)
Definition zOptional (s : Schema) : Schema :=
  fun v => match v with JUndefined => Some JUndefined | _ => s v end.

(** [z.array(s)] *)
Definition zArray (s : Schema) : Schema :=
  fun v =>
    match v with
    | JArray l =>
        match mapO s l with Some l' => Some (JArray l') | None => None end
    | _ => None
    end.

(** [s1.pipe(s2)] *)
Definition zPipe (s1 s2 : Schema) : Schema :=
  fun v => match s1 v with Some r => s2 r | None => None end.

(** [s.catch(d)] *)
Definition zCatch (s : Schema) (d : JsValue) : Schema :=
  fun v => match s v with Some r => Some r | None => Some d end.

(** [z.enum([...])] *)
Definition zEnum (members : list string) : Schema :=
  fun v =>
    match v with
    | JString s => if existsb (String.eqb s) members then Some v else None
    | _ => None
    end.

(** [z.object(shape).passthrough()]: every key of the shape is parsed from
    the input's property (or from [undefined]) and written when the input
    has the key or the result is defined; the other keys are kept, except
    the key [__proto__], which zod's object parser never writes. *)
Definition parseField (fields : list (string * JsValue))
                      (entry : string * Schema)
  : option (list (string * JsValue)) :=
  let key := fst entry in
  let value := match map_get key fields with
               | Some x => x
               | None => JUndefined
               end in
  match snd entry value with
  | Some r =>
      match r with
      | JUndefined => if map_has key fields then Some [(key, r)] else Some []
      | _ => Some [(key, r)]
      end
  | None => None
  end.

Definition passedThrough (shape : list (string * Schema))
                         (f : string * JsValue) : bool :=
  (negb (existsb (String.eqb (fst f)) (map fst shape))
   && negb (String.eqb (fst f) "__proto__"))%bool.

Definition zObjectPassthrough (shape : list (string * Schema)) : Schema :=
  fun v =>
    match v with
    | JObject fields =>
        match mapO (parseField fields) shape with
        | Some parsed =>
            Some (JObject
                    (List.concat parsed
                     ++ filter (passedThrough shape) fields))
        | None => None
        end
    | _ => None
    end.

Section Validator.
Variable rt : Runtime.

Definition toStringValue (v : JsValue) : Result JsValue :=
  match js_String rt v with Ok s => Ok (JString s) | Throw e => Throw e end.

Definition toNumberValue (v : JsValue) : Result JsValue :=
  match js_Number rt v with Ok n => Ok (JNumber n) | Throw e => Throw e end.

(** [(val) => val.toLowerCase().trim()] *)
Definition lowerTrim (v : JsValue) : Result JsValue :=
  match v with
  | JString s => Ok (JString (trim (toLowerCase s)))
  | _ => Throw typeError
  end.

(** [socialPlatformSchema] *)
Definition socialPlatformSchema : Schema :=
  zEnum ["instagram"; "facebook"; "twitter"; "tiktok"; "youtube";
         "linkedin"; "other"]%string.

(** [z.union([z.string(), z.number()]).transform(String).nullable().optional()] *)
Definition stringish : Schema :=
  zOptional (zNullable (zTransform (zUnion [zString; zNumber]) toStringValue)).

(** [z.union([z.number(), z.string()]).transform(Number).nullable().optional()] *)
Definition numberish : Schema :=
  zOptional (zNullable (zTransform (zUnion [zNumber; zString]) toNumberValue)).

(** [z.string().nullable().optional()] *)
Definition optString : Schema := zOptional (zNullable zString).

Definition flexibleSocialPostSchema : Schema :=
  zObjectPassthrough
    [ ("task_id", stringish);
      ("platform",
       zOptional (zNullable
         (zPipe (zTransform (zTransform (zUnion [zString; zNumber])
                                        toStringValue)
                            lowerTrim)
                (zCatch socialPlatformSchema (JString "other")))));
      ("post_url", optString);
      ("likes", numberish);
      ("comments", numberish);
      ("shares", numberish);
      ("reach", numberish) ]%string.

Definition flexibleProgramSchema : Schema :=
  zObjectPassthrough
    [ ("program_id", stringish);
      ("brand", stringish);
      ("tasks_completed",
       zOptional (zNullable (zArray flexibleSocialPostSchema)));
      ("total_sales_attributed", numberish) ]%string.

Definition flexibleUserSchema : Schema :=
  zObjectPassthrough
    [ ("user_id", stringish);
      ("name", optString);
      ("email", optString);
      ("instagram_handle", optString);
      ("tiktok_handle", optString);
      ("advocacy_programs",
       zOptional (zNullable (zArray flexibleProgramSchema)));
      ("joined_at",
       zOptional (zNullable (zUnion [zString; zNumber; zDate]))) ]%string.

Record ValidationResult : Type := mkValidationResult {
  success : bool;
  data : option JsValue;
  isClean : bool
}.

(** [validateUser] *)
Definition validateUser (input : JsValue) : ValidationResult :=
  match flexibleUserSchema input with
  | None => {| success := false; data := None; isClean := false |}
  | Some raw =>
      let isClean :=
        (truthy (getProp raw "user_id")
         && truthy (getProp raw "name")
         && truthy (getProp raw "email")
         && match getProp raw "advocacy_programs" with
            | JArray l => Nat.ltb 0 (List.length l)
            | _ => false
            end)%bool in
      {| success := true; data := Some raw; isClean := isClean |}
  end.
End Validator.

(* ================================================================== *)
(** ** [validator.ts] and [transformer.ts]: batches *)

Record ValidatedBatch : Type := mkValidatedBatch {
  valid : list JsValue;
  invalid : list JsValue;
  cleanCount : nat
}.

(** One iteration of the loop of [validateUserBatch]. *)
Definition validateStep (rt : Runtime) (acc : ValidatedBatch)
                        (input : JsValue) : ValidatedBatch :=
  let result := validateUser rt input in
  match data result with
  | Some d =>
      if (success result && truthy d)%bool then
        {| valid := valid acc ++ [d];
           invalid := invalid acc;
           cleanCount := if isClean result
                         then S (cleanCount acc) else cleanCount acc |}
      else
        {| valid := valid acc;
           invalid := invalid acc ++ [input];
           cleanCount := cleanCount acc |}
  | None =>
      {| valid := valid acc;
         invalid := invalid acc ++ [input];
         cleanCount := cleanCount acc |}
  end.

(** [validateUserBatch] *)
Definition validateUserBatch (rt : Runtime) (dataArray : list JsValue)
  : ValidatedBatch :=
  fold_left (validateStep rt) dataArray
            {| valid := []; invalid := []; cleanCount := 0 |}.

(** One iteration of the loop of [transformUserBatch]: a record on which
    [transformUser] throws is logged and skipped; the log entry reads
    [rawData.userId], which throws in its turn when [rawData] is [null] or
    [undefined].  A skipped record leaves the identifier source where it
    was. *)
Definition transformBatchStep (rt : Runtime) (transformed : list User)
                              (rawData : JsValue) : M (list User) :=
  fun n =>
    match transformUser rt rawData n with
    | Ok (user, n') => Ok (transformed ++ [user], n')
    | Throw _ =>
        match getPropM rawData "userId" n with
        | Ok _ => Ok (transformed, n)
        | Throw e => Throw e
        end
    end.

(** [transformUserBatch] *)
Definition transformUserBatch (rt : Runtime) (rawDataArray : list JsValue)
  : M (list User) :=
  foldM (transformBatchStep rt) rawDataArray [].

(* ================================================================== *)
(** ** [loader.ts]: [loadUserBatch]

    The database is a state [DB] with its two bulk operations; each
    resolves or rejects, and a rejection may carry [writeErrors]. *)

Record LoadError : Type := mkLoadError {
  err_userId : string;
  err_text : string
}.

Record LoadResult : Type := mkLoadResult {
  inserted : nat;
  updated : nat;
  failed : nat;
  errors : list LoadError
}.

Record LoadOptions : Type := mkLoadOptions {
  opt_batchSize : option JsNumber;
  opt_upsert : option bool
}.

(** A count as a JavaScript number. *)
Definition wholeNumber (n : nat) : JsNumber := Num (inject_Z (Z.of_nat n)).

(** [a + b] on numbers *)
Definition js_plus (a b : JsNumber) : JsNumber :=
  match a, b with
  | Num x, Num y => Num (x + y)
  | _, _ => NaN
  end.

(** [i < l.length] *)
Definition belowLength (i : JsNumber) (len : nat) : bool :=
  match i with
  | NaN => false
  | Num q => Qltb q (inject_Z (Z.of_nat len))
  end.

(** [ToIntegerOrInfinity], which [slice] applies to its bounds: the number
    truncated, and 0 for [NaN]. *)
Definition toIntegerOrInfinity (n : JsNumber) : Z :=
  match n with
  | NaN => 0%Z
  | Num q => Qtrunc q
  end.

Inductive Outcome (A : Type) : Type :=
| Resolved : A -> Outcome A
| Rejected : option (list LoadError) -> string -> Outcome A.

Arguments Rejected {A} _ _.

(** [Array.prototype.slice] on integer bounds. *)
Definition sliceIndex (len k : Z) : Z :=
  if (k <? 0)%Z then Z.max (len + k) 0 else Z.min k len.

Definition slice (A : Type) (l : list A) (start stop : Z) : list A :=
  let len := Z.of_nat (List.length l) in
  let from := sliceIndex len start in
  let to := sliceIndex len stop in
  firstn (Z.to_nat (to - from)) (skipn (Z.to_nat from) l).

Section Loader.
Variable DB : Type.
(** [UserModel.bulkWrite(ops, { ordered: false })]: the upserted and the
    modified count. *)
Variable bulkWrite : DB -> list User -> Outcome (nat * nat) * DB.
(** [UserModel.insertMany(batch, { ordered: false })]: the number of
    documents inserted. *)
Variable insertMany : DB -> list User -> Outcome nat * DB.

(** The body of the loop of [loadUserBatch], for one chunk. *)
Definition loadChunk (upsert : bool) (acc : LoadResult * DB)
                     (batch : list User) : LoadResult * DB :=
  let result := fst acc in
  let db := snd acc in
  let rejected (writeErrors : option (list LoadError)) (text : string) :=
    {| inserted := inserted result;
       updated := updated result;
       failed := failed result + List.length batch;
       errors := errors result
                 ++ match writeErrors with
                    | Some ws => ws
                    | None => map (fun user => mkLoadError (userId user) text)
                                  batch
                    end |} in
  if upsert then
    match bulkWrite db batch with
    | (Resolved (upsertedCount, modifiedCount), db') =>
        ({| inserted := inserted result + upsertedCount;
            updated := updated result + modifiedCount;
            failed := failed result;
            errors := errors result |}, db')
    | (Rejected writeErrors text, db') => (rejected writeErrors text, db')
    end
  else
    match insertMany db batch with
    | (Resolved count, db') =>
        ({| inserted := inserted result + count;
            updated := updated result;
            failed := failed result;
            errors := errors result |}, db')
    | (Rejected writeErrors text, db') => (rejected writeErrors text, db')
    end.

(** [for (let i = 0; i < users.length; i += batchSize)] with
    [users.slice(i, i + batchSize)]: the batch size is any number, and the
    loop need not end, so it runs on fuel; [None] is a loop still
    running. *)
Fixpoint loadLoop (fuel : nat) (users : list User) (batchSize : JsNumber)
                  (upsert : bool) (i : JsNumber) (acc : LoadResult * DB)
  : option (LoadResult * DB) :=
  match fuel with
  | O => None
  | S fuel' =>
      if belowLength i (List.length users) then
        let batch := slice users (toIntegerOrInfinity i)
                           (toIntegerOrInfinity (js_plus i batchSize)) in
        loadLoop fuel' users batchSize upsert (js_plus i batchSize)
                 (loadChunk upsert acc batch)
      else Some acc
  end.

Definition emptyLoadResult : LoadResult :=
  {| inserted := 0; updated := 0; failed := 0; errors := [] |}.

(** [loadUserBatch] *)
Definition loadUserBatch (fuel : nat) (users : list User)
                         (options : LoadOptions) (db : DB)
  : option (LoadResult * DB) :=
  let batchSize := match opt_batchSize options with
                   | Some b => b
                   | None => Num 1000
                   end in
  let upsert := match opt_upsert options with
                | Some u => u
                | None => true
                end in
  if Nat.eqb (List.length users) 0 then Some (emptyLoadResult, db)
  else loadLoop fuel users batchSize upsert (Num 0) (emptyLoadResult, db).
End Loader.

(* ================================================================== *)
(** ** [pipeline.ts]: the streaming loop of [runPipeline]

    What the loop does to the batch buffer, the set of processed
    identifiers and the statistics, record by record.  The loader is the
    run's [loadUserBatch] with its options fixed; [None] is a loader that
    does not return.  [loaderCalls] records the arguments of the calls to
    the loader.  The clock fields of the statistics are left out. *)

Record ETLStatistics : Type := mkETLStatistics {
  totalFiles : nat;
  processedFiles : nat;
  successfulRecords : nat;
  failedRecords : nat;
  validationErrors : nat;
  cleanRecords : nat;
  messyRecords : nat
}.

(** [options.batchSize || env.BATCH_SIZE] *)
Definition effectiveBatchSize (optionsBatchSize : option JsNumber)
                              (envBatchSize : JsNumber) : JsNumber :=
  match optionsBatchSize with
  | Some b => if truthy (JNumber b) then b else envBatchSize
  | None => envBatchSize
  end.

(** [length >= batchSize] *)
Definition reaches (len : nat) (batchSize : JsNumber) : bool :=
  match batchSize with
  | NaN => false
  | Num q => Qle_bool q (inject_Z (Z.of_nat len))
  end.

(** [set.add(x)] on a [Set<string>] *)
Definition setAdd (s : list string) (x : string) : list string :=
  if existsb (String.eqb x) s then s else s ++ [x].

Section Pipeline.
Variable rt : Runtime.
Variable DB : Type.
Variable load : DB -> list User -> option (LoadResult * DB).
Variable batchSize : JsNumber.

Record RunState : Type := mkRunState {
  currentBatch : list User;
  processedUserIds : list string;
  statistics : ETLStatistics;
  database : DB;
  idsDrawn : nat;
  loaderCalls : list (list User)
}.

(** A batch is deduplicated, filtered against the processed identifiers,
    recalculated and loaded (lines 263-297, and 321-347 for the last
    batch); [reset] tells whether the buffer is emptied. *)
Definition flushBatch (reset : bool) (st : RunState) : option RunState :=
  let deduplicatedBatch := deduplicateUsers (currentBatch st) in
  let newUsers :=
    filter (fun user =>
              negb (existsb (String.eqb (userId user)) (processedUserIds st)))
           deduplicatedBatch in
  let processed := fold_left setAdd (map userId newUsers)
                             (processedUserIds st) in
  let buffer := if reset then [] else currentBatch st in
  if Nat.ltb 0 (List.length newUsers) then
    let recalculated := map recalculateTotals newUsers in
    match load (database st) recalculated with
    | None => None
    | Some (loadResult, db') =>
        let s := statistics st in
        Some {| currentBatch := buffer;
                processedUserIds := processed;
                statistics :=
                  {| totalFiles := totalFiles s;
                     processedFiles := processedFiles s;
                     successfulRecords :=
                       successfulRecords s
                       + (inserted loadResult + updated loadResult);
                     failedRecords := failedRecords s + failed loadResult;
                     validationErrors := validationErrors s;
                     cleanRecords := cleanRecords s;
                     messyRecords := messyRecords s |};
                database := db';
                idsDrawn := idsDrawn st;
                loaderCalls := loaderCalls st ++ [recalculated] |}
    end
  else
    Some {| currentBatch := buffer;
            processedUserIds := processed;
            statistics := statistics st;
            database := database st;
            idsDrawn := idsDrawn st;
            loaderCalls := loaderCalls st |}.

Definition withStatistics (st : RunState) (s : ETLStatistics) : RunState :=
  {| currentBatch := currentBatch st;
     processedUserIds := processedUserIds st;
     statistics := s;
     database := database st;
     idsDrawn := idsDrawn st;
     loaderCalls := loaderCalls st |}.

(** The body of the [for await] loop, for one extracted record. *)
Definition processRecord (st : RunState) (extracted : JsValue)
  : option RunState :=
  let s := statistics st in
  let validationResult := validateUser rt extracted in
  if negb (success validationResult) then
    Some (withStatistics st
            {| totalFiles := S (totalFiles s);
               processedFiles := processedFiles s;
               successfulRecords := successfulRecords s;
               failedRecords := S (failedRecords s);
               validationErrors := S (validationErrors s);
               cleanRecords := cleanRecords s;
               messyRecords := messyRecords s |})
  else
    let counted :=
      {| totalFiles := S (totalFiles s);
         processedFiles := processedFiles s;
         successfulRecords := successfulRecords s;
         failedRecords := failedRecords s;
         validationErrors := validationErrors s;
         cleanRecords := if isClean validationResult
                         then S (cleanRecords s) else cleanRecords s;
         messyRecords := if isClean validationResult
                         then messyRecords s else S (messyRecords s) |} in
    let raw := match data validationResult with
               | Some d => d
               | None => JUndefined
               end in
    match transformUser rt raw (idsDrawn st) with
    | Throw _ =>
        Some (withStatistics st
                {| totalFiles := totalFiles counted;
                   processedFiles := processedFiles counted;
                   successfulRecords := successfulRecords counted;
                   failedRecords := S (failedRecords counted);
                   validationErrors := validationErrors counted;
                   cleanRecords := cleanRecords counted;
                   messyRecords := messyRecords counted |})
    | Ok (transformed, n') =>
        let pushed :=
          {| currentBatch := currentBatch st ++ [transformed];
             processedUserIds := processedUserIds st;
             statistics := counted;
             database := database st;
             idsDrawn := n';
             loaderCalls := loaderCalls st |} in
        match (if reaches (List.length (currentBatch pushed)) batchSize
               then flushBatch true pushed else Some pushed) with
        | None => None
        | Some st' =>
            let s' := statistics st' in
            Some (withStatistics st'
                    {| totalFiles := totalFiles s';
                       processedFiles := S (processedFiles s');
                       successfulRecords := successfulRecords s';
                       failedRecords := failedRecords s';
                       validationErrors := validationErrors s';
                       cleanRecords := cleanRecords s';
                       messyRecords := messyRecords s' |})
        end
    end.

Fixpoint processRecords (st : RunState) (extracted : list JsValue)
  : option RunState :=
  match extracted with
  | [] => Some st
  | x :: rest =>
      match processRecord st x with
      | Some st' => processRecords st' rest
      | None => None
      end
  end.

Definition initialRun (db : DB) : RunState :=
  {| currentBatch := [];
     processedUserIds := [];
     statistics :=
       {| totalFiles := 0; processedFiles := 0; successfulRecords := 0;
          failedRecords := 0; validationErrors := 0; cleanRecords := 0;
          messyRecords := 0 |};
     database := db;
     idsDrawn := 0;
     loaderCalls := [] |}.

(** The loop over the extracted records, then the remaining batch. *)
Definition streamAndFlush (db : DB) (extracted : list JsValue)
  : option RunState :=
  match processRecords (initialRun db) extracted with
  | None => None
  | Some st =>
      if Nat.ltb 0 (List.length (currentBatch st))
      then flushBatch false st else Some st
  end.
End Pipeline.

(* ================================================================== *)
(** ** [extractor.ts]

    The file system and [JSON.parse] are the host's. *)

Record Dirent : Type := mkDirent {
  entryName : string;
  isFile : bool
}.

Record FileSystem : Type := mkFileSystem {
  access : string -> bool;
  readdir : string -> Result (list Dirent);
  readFile : string -> Result string;
  JSONparse : string -> Result JsValue;
  pathJoin : string -> string -> string;
  pathBasename : string -> string
}.

Record ExtractedData : Type := mkExtractedData {
  fileName : string;
  filePath : string;
  fileData : JsValue
}.

Record ExtractOptions : Type := mkExtractOptions {
  dataDir : string;
  filePattern : option (string -> bool);
  maxFiles : option JsNumber
}.

(** [s.endsWith(suffix)] *)
Definition endsWith (s suffix : string) : bool :=
  String.prefix (rev_string suffix "") (rev_string s "").

(** [/\.json$/i.test(name)] *)
Definition isJsonName (entry : string) : bool :=
  endsWith (toLowerCase entry) ".json".

Definition closingBrace : string :=
  String (ascii_of_nat 10) "}".

(** [extractFile]: [null] is [None]. *)
Definition extractFile (fs : FileSystem) (path : string)
  : option ExtractedData :=
  match readFile fs path with
  | Throw _ => None
  | Ok content =>
      match JSONparse fs content with
      | Ok parsed =>
          Some {| fileName := pathBasename fs path; filePath := path;
                  fileData := parsed |}
      | Throw _ =>
          let trimmedContent := trim content in
          if (endsWith trimmedContent "]"
              && negb (endsWith trimmedContent "}"))%bool then
            let repaired := (trimEnd content ++ closingBrace)%string in
            match JSONparse fs repaired with
            | Ok parsed =>
                Some {| fileName := pathBasename fs path; filePath := path;
                        fileData := parsed |}
            | Throw _ => None
            end
          else None
      end
  end.

(** [getJsonFiles] *)
Definition getJsonFiles (fs : FileSystem) (dir : string)
                        (pattern : string -> bool) : Result (list string) :=
  match readdir fs dir with
  | Throw e => Throw e
  | Ok entries =>
      Ok (map (fun entry => pathJoin fs dir (entryName entry))
              (filter (fun entry => (isFile entry && pattern (entryName entry))%bool)
                      entries))
  end.

(** [maxFiles ? files.slice(0, maxFiles) : files] *)
Definition capFiles (maxFiles : option JsNumber) (files : list string)
  : list string :=
  match maxFiles with
  | Some (Num q) =>
      if truthy (JNumber (Num q)) then slice files 0 (Qtrunc q) else files
  | _ => files
  end.

(** [extractFiles]: the records the generator yields, or the exception it
    throws before the first. *)
Definition extractFiles (fs : FileSystem) (options : ExtractOptions)
  : Result (list ExtractedData) :=
  if negb (access fs (dataDir options)) then
    Throw ("Data directory not found: " ++ dataDir options)%string
  else
    match getJsonFiles fs (dataDir options)
                       (match filePattern options with
                        | Some p => p
                        | None => isJsonName
                        end) with
    | Throw e => Throw e
    | Ok files =>
        Ok (flat_map (fun path => match extractFile fs path with
                                  | Some extracted => [extracted]
                                  | None => []
                                  end)
                     (capFiles (maxFiles options) files))
    end.

(** [extractAllFiles] collects what [extractFiles] yields. *)
Definition extractAllFiles (fs : FileSystem) (options : ExtractOptions)
  : Result (list ExtractedData) :=
  extractFiles fs options.

(* ================================================================== *)
(** * The vocabulary of the properties *)

Unset Implicit Arguments.

(** The invariant of a map whose values carry their key: keys are
    distinct, and every value is filed under the key [kf] computes from
    it. *)
Definition keyed (V : Type) (kf : V -> string) (m : JsMap V) : Prop :=
  NoDup (map_keys m) /\ Forall (fun e => kf (snd e) = fst e) m.

(** The entry a loop files for an element it has not seen. *)
Definition entry (X V : Type) (kf : X -> string) (g : X -> V) (x : X)
  : string * V := (kf x, g x).

(** The completeness score, for short. *)
Definition score := calculateCompletenessScore.

(** [p.postId === k] *)
Definition hasPostId (k : string) (p : SocialPost) : bool :=
  String.eqb (postId p) k.

(** What one more post does to the entry of [k]. *)
Definition pick (k : string) (o : option SocialPost) (p : SocialPost)
  : option SocialPost :=
  if hasPostId k p then
    match o with
    | None => Some p
    | Some e => if Qltb (engagement e) (engagement p) then Some p else Some e
    end
  else o.

(** [w] is, in [l], the first post of the highest engagement. *)
Definition firstHighest (l : list SocialPost) (w : SocialPost) : Prop :=
  exists before after,
    l = (before ++ w :: after)%list
    /\ Forall (fun q => (engagement q < engagement w)%Q) before
    /\ Forall (fun q => (engagement q <= engagement w)%Q) after.

(** The sum of the amounts a list attributes to one program. *)
Fixpoint amountFor (pid : string) (l : list SalesAttribution) : Q :=
  match l with
  | [] => 0
  | s :: l' =>
      if String.eqb (sale_programId s) pid
      then amount s + amountFor pid l'
      else amountFor pid l'
  end.

(** The amount a sales map holds for a program, 0 when it holds none. *)
Definition getQ (k : string) (m : JsMap Q) : Q :=
  match map_get k m with Some c => c | None => 0 end.

(** The relation of a merged attribution to the one it doubles. *)
Definition doubles (e s : SalesAttribution) : Prop :=
  sale_programId e = sale_programId s /\ (amount e == 2 * amount s)%Q.

(** The sum of a list of numbers, as the specification words it. *)
Definition sumOf (l : list Q) : Q := fold_right Qplus 0%Q l.

(** The totals of an entity are the sums over its posts and attributions. *)
Definition totals_consistent (u : User) : Prop :=
  (totalEngagement u == sumOf (map engagement (posts u)))%Q
  /\ (totalSales u == sumOf (map amount (salesAttributions u)))%Q.



(** The test the code applies to the raw [brand]: it is truthy, and its
    string form is neither empty nor the placeholder. *)
Definition brandKept (rt : Runtime) (brand : JsValue) : Prop :=
  truthy brand = true
  /\ exists s, js_String rt brand = Ok s
               /\ s <> ""%string /\ s <> unknownProgram.

(** [obj[k]] on the properties of an object. *)
Definition lookup (k : string) (fields : list (string * JsValue)) : JsValue :=
  match map_get k fields with Some x => x | None => JUndefined end.

(** What [parseField] writes for one key of a shape. *)
Definition fieldParsed (fields : list (string * JsValue))
           (entry : string * Schema) (p : list (string * JsValue)) : Prop :=
  exists r, snd entry (lookup (fst entry) fields) = Some r
            /\ (p = [(fst entry, r)]
                \/ (p = [] /\ r = JUndefined
                    /\ map_get (fst entry) fields = None)).

(** The shapes of validated values: what the flexible schema lets through
    for a string field, a numeric field, an array field, a post, a program
    and a user. *)
Definition strOrNullish (v : JsValue) : Prop :=
  match v with JUndefined | JNull | JString _ => True | _ => False end.

Definition numOrNullish (v : JsValue) : Prop :=
  match v with JUndefined | JNull | JNumber _ => True | _ => False end.

Definition isObject (v : JsValue) : Prop :=
  match v with JObject _ => True | _ => False end.

Definition arrayOrNullish (P : JsValue -> Prop) (v : JsValue) : Prop :=
  match v with
  | JUndefined | JNull => True
  | JArray l => Forall P l
  | _ => False
  end.

Definition goodPost (p : JsValue) : Prop :=
  isObject p
  /\ strOrNullish (getProp p "task_id")
  /\ strOrNullish (getProp p "platform")
  /\ strOrNullish (getProp p "post_url")
  /\ numOrNullish (getProp p "likes")
  /\ numOrNullish (getProp p "comments")
  /\ numOrNullish (getProp p "shares")
  /\ numOrNullish (getProp p "reach").

Definition goodProgram (p : JsValue) : Prop :=
  isObject p
  /\ strOrNullish (getProp p "program_id")
  /\ strOrNullish (getProp p "brand")
  /\ arrayOrNullish goodPost (getProp p "tasks_completed")
  /\ numOrNullish (getProp p "total_sales_attributed").

Definition goodUser (raw : JsValue) : Prop :=
  isObject raw
  /\ strOrNullish (getProp raw "user_id")
  /\ strOrNullish (getProp raw "instagram_handle")
  /\ strOrNullish (getProp raw "tiktok_handle")
  /\ arrayOrNullish goodProgram (getProp raw "advocacy_programs").

(** A computation that returns from every state. *)
Definition returns {A : Type} (m : M A) : Prop :=
  forall n, exists a n', m n = Ok (a, n').

(** ** More vocabulary: the transformer *)

(** A sales attribution the transformer records: a positive amount under
    an identifier that is not blank. *)
Definition saleRecordable (s : SalesAttribution) : Prop :=
  (0 < amount s)%Q /\ isBlank (sale_programId s) = false.

(** A string of ASCII characters, on which [trim] and [toLowerCase] are
    the methods of JavaScript; and a value that is no string or such a
    string. *)
Fixpoint asciiOnly (s : string) : bool :=
  match s with
  | EmptyString => true
  | String c s' => (Nat.ltb (nat_of_ascii c) 128 && asciiOnly s')%bool
  end.

Definition asciiText (v : JsValue) : Prop :=
  match v with
  | JString s => asciiOnly s = true
  | _ => True
  end.

(** The identifier given, when it is a string that is not blank, and the
    synthetic identifier of the draw [n] otherwise. *)
Definition givenOrSynthetic (rt : Runtime) (prefix : string) (v : JsValue)
                            (n : nat) : string :=
  match v with
  | JString s =>
      if isBlank s then (prefix ++ "_" ++ freshSuffix rt n)%string else s
  | _ => (prefix ++ "_" ++ freshSuffix rt n)%string
  end.

(** ** More vocabulary: deduplication *)

(** The first element of a list filed under a key. *)
Definition firstWith (X : Type) (kf : X -> string) (k : string) (l : list X)
  : option X :=
  find (fun x => String.eqb (kf x) k) l.

(** One iteration of a loop that keeps the first element per key. *)
Definition firstStep (X : Type) (kf : X -> string) (seen : JsMap X) (x : X)
  : JsMap X :=
  if map_has (kf x) seen then seen else map_set (kf x) x seen.

(** The sum of the amounts a sales map holds. *)
Definition mapTotal (m : JsMap Q) : Q := sumOf (map snd m).

(** Amounts that are whole numbers whose sizes add up to [2 ^ 53] at most:
    every sum of some of them, in whatever order and grouping, is a whole
    number of that range, which binary64 adds without rounding. *)
Definition wholeAmounts (l : list SalesAttribution) : Prop :=
  exists zs : list Z,
    Forall2 (fun a z => amount a == inject_Z z) l zs
    /\ (fold_right (fun z total => Z.abs z + total) 0 zs <= 2 ^ 53)%Z.

(** ** More vocabulary: the validator *)

(** The members of [socialPlatformSchema]. *)
Definition socialPlatforms : list string :=
  ["instagram"; "facebook"; "twitter"; "tiktok"; "youtube"; "linkedin";
   "other"]%string.

(** A platform name lower-cased and trimmed, or ["other"] when that is no
    member of the enumeration. *)
Definition normalizedPlatform (s : string) : string :=
  let p := trim (toLowerCase s) in
  if existsb (String.eqb p) socialPlatforms then p else "other"%string.

(** A validated platform: absent, [null], or a member of the
    enumeration. *)
Definition platformValue (v : JsValue) : Prop :=
  match v with
  | JUndefined | JNull => True
  | JString e => In e socialPlatforms
  | _ => False
  end.

(** Raw values the schema accepts for an identifier, and for a list. *)
Definition idLike (v : JsValue) : Prop :=
  match v with
  | JUndefined | JNull | JString _ | JNumber (Num _) => True
  | _ => False
  end.

Definition arrayLike (v : JsValue) : Prop :=
  match v with
  | JUndefined | JNull | JArray _ => True
  | _ => False
  end.

(** A raw value that is [null] or [undefined]. *)
Definition nullish (v : JsValue) : bool :=
  match v with JUndefined | JNull => true | _ => false end.

(** The users of the records on which [transformUser] returns, in the
    order of the records, each transformed in the state its predecessors
    left; the records on which it throws are passed over. *)
Fixpoint transformedInOrder (rt : Runtime) (l : list JsValue) (n : nat)
  : list User * nat :=
  match l with
  | [] => ([], n)
  | rawData :: l' =>
      match transformUser rt rawData n with
      | Ok (user, n') =>
          (user :: fst (transformedInOrder rt l' n'),
           snd (transformedInOrder rt l' n'))
      | Throw _ => transformedInOrder rt l' n
      end
  end.

(** The inputs [validateUser] accepts, and those it finds clean. *)
Definition accepted (rt : Runtime) (input : JsValue) : bool :=
  success (validateUser rt input).

Definition clean (rt : Runtime) (input : JsValue) : bool :=
  isClean (validateUser rt input).

(** ** More vocabulary: the run *)

(** The identifiers handed to the loader so far, in the order of the
    calls. *)
Definition loadedIds (DB : Type) (st : RunState DB) : list string :=
  map userId (List.concat (loaderCalls st)).

(** The counters of the statistics that only count records. *)
Definition recordCounters (s : ETLStatistics) : list nat :=
  [totalFiles s; processedFiles s; validationErrors s; cleanRecords s;
   messyRecords s].

(** The record counters of a run that has seen the records [seen]. *)
Definition counted (rt : Runtime) (DB : Type) (st : RunState DB)
                   (seen : list JsValue) : Prop :=
  let s := statistics st in
  totalFiles s = List.length seen
  /\ validationErrors s
     = List.length (filter (fun x => negb (accepted rt x)) seen)
  /\ processedFiles s = List.length (filter (accepted rt) seen)
  /\ cleanRecords s = List.length (filter (clean rt) seen)
  /\ (cleanRecords s + messyRecords s)%nat = processedFiles s.

(** The run's invariant on what has been loaded. *)
Definition loadedOnce (DB : Type) (st : RunState DB) : Prop :=
  NoDup (loadedIds DB st)
  /\ (forall i, In i (processedUserIds st) <-> In i (loadedIds DB st))
  /\ Forall (fun call => call <> []) (loaderCalls st)
  /\ Forall (Forall totals_consistent) (loaderCalls st).

(** ** More vocabulary: the loader *)

(** A list cut into chunks of [size] elements, the last one shorter when
    the length is no multiple of [size]. *)
Fixpoint chunksAux (A : Type) (fuel size : nat) (l : list A)
  : list (list A) :=
  match fuel with
  | O => []
  | S fuel' =>
      match l with
      | [] => []
      | _ :: _ => firstn size l :: chunksAux A fuel' size (skipn size l)
      end
  end.

Definition chunksOf (A : Type) (size : nat) (l : list A) : list (list A) :=
  chunksAux A (List.length l) size l.

(** A database whose rejections carry no [writeErrors]. *)
Definition plainRejections (DB : Type)
           (bulkWrite : DB -> list User -> Outcome (nat * nat) * DB)
           (insertMany : DB -> list User -> Outcome nat * DB) : Prop :=
  (forall db batch ws text db',
      bulkWrite db batch <> (Rejected (Some ws) text, db'))
  /\ (forall db batch ws text db',
        insertMany db batch <> (Rejected (Some ws) text, db')).

(** ** More vocabulary: handles and files *)

(** A stored handle in normal form: one of the two platforms the raw
    record has a field for, and a handle that is not empty, has no
    upper-case letter and no white space around it. *)
Definition normalHandle (h : SocialHandle) : Prop :=
  (platform h = "instagram"%string \/ platform h = "tiktok"%string)
  /\ handle h <> ""%string
  /\ toLowerCase (handle h) = handle h
  /\ trim (handle h) = handle h.

(** The file at [path] yields a record. *)
Definition extractable (fs : FileSystem) (path : string) : bool :=
  match extractFile fs path with Some _ => true | None => false end.

(** The paths [getJsonFiles] lists for the entries of a directory. *)
Definition listed (fs : FileSystem) (dir : string)
           (pattern : string -> bool) (entries : list Dirent)
  : list string :=
  map (fun entry => pathJoin fs dir (entryName entry))
      (filter (fun entry => (isFile entry && pattern (entryName entry))%bool)
              entries).

Definition patternOf (options : ExtractOptions) : string -> bool :=
  match filePattern options with Some p => p | None => isJsonName end.

(** ** More vocabulary: a run against the loader *)

(** The loader as [runPipeline] calls it:
    [loadUserBatch(newUsers, { batchSize, upsert: true })], with the batch
    size of the run. *)
Definition pipelineLoader (DB : Type)
           (bulkWrite : DB -> list User -> Outcome (nat * nat) * DB)
           (insertMany : DB -> list User -> Outcome nat * DB)
           (fuel : nat) (batchSize : JsNumber)
  : DB -> list User -> option (LoadResult * DB) :=
  fun db users =>
    loadUserBatch bulkWrite insertMany fuel users
                  {| opt_batchSize := Some batchSize;
                     opt_upsert := Some true |} db.

(** The database after one [bulkWrite] for each of the calls. *)
Definition writtenByCalls (DB : Type)
           (bulkWrite : DB -> list User -> Outcome (nat * nat) * DB)
           (db : DB) (calls : list (list User)) : DB :=
  fold_left (fun d call => snd (bulkWrite d call)) calls db.

(** Every call of the loader so far held between one and [size] users and
    was one [bulkWrite]. *)
Definition singleWrites (DB : Type)
           (bulkWrite : DB -> list User -> Outcome (nat * nat) * DB)
           (size : nat) (db : DB) (st : RunState DB) : Prop :=
  Forall (fun call => (1 <= List.length call <= size)%nat) (loaderCalls st)
  /\ database st = writtenByCalls DB bulkWrite db (loaderCalls st).

(** ** More vocabulary: platforms from the validator to the store *)

(** A post, a program and a user whose platforms are validated. *)
Definition enumPost (p : JsValue) : Prop :=
  platformValue (getProp p "platform").

Definition enumProgram (p : JsValue) : Prop :=
  arrayOrNullish enumPost (getProp p "tasks_completed").

Definition enumUser (raw : JsValue) : Prop :=
  arrayOrNullish enumProgram (getProp raw "advocacy_programs").

(** A stored post whose platform is a member of the enumeration. *)
Definition storedPlatform (p : SocialPost) : Prop :=
  exists e, post_platform p = JString e /\ In e socialPlatforms.

(** ** Data of the closed examples *)

Open Scope string_scope.

(** A host for the closed examples.  None of them converts a number to a
    string or an object to a primitive, and none parses a date; the only
    strings they convert to numbers are no numerals, which [Number] turns
    into [NaN]. *)
Definition sampleRuntime : Runtime :=
  {| StringToNumber := fun _ => NaN;
     NumberToString := fun _ => "NaN";
     ObjectToNumber := fun _ => Ok NaN;
     ObjectToString := fun _ => Ok "[object Object]";
     DateToString := fun _ => "Invalid Date";
     DateParse := fun _ => None;
     freshSuffix := fun _ => "0_x" |}.

(** The raw record of the specification's example. *)
Definition rawU1 : JsValue :=
  JObject
    [("user_id", JString "u1");
     ("instagram_handle", JString "@Foo");
     ("advocacy_programs",
      JArray
        [JObject
           [("program_id", JString "p1");
            ("brand", JString "Acme");
            ("tasks_completed",
             JArray
               [JObject
                  [("task_id", JString "t1");
                   ("platform", JString "Instagram");
                   ("likes", JNumber (Num 10));
                   ("comments", JNumber (Num 2));
                   ("shares", JNumber (Num 1))]]);
            ("total_sales_attributed", JNumber (Num 50))]])].

Definition postT1 (platformName : string) (l c s : Q) : SocialPost :=
  {| postId := "t1"; post_platform := JString platformName; url := None;
     likes := l; comments := c; shares := s; reach := 0;
     engagement := l + c + s |}.

(** The entity [transformUser] makes of [rawU1]. *)
Definition entityU1 : User :=
  {| userId := "u1"; name := JUndefined; email := JUndefined;
     socialHandles := [{| platform := "instagram"; handle := "foo" |}];
     programs := [{| programId := "p1"; programName := "Acme" |}];
     posts := [postT1 "Instagram" 10 2 1];
     salesAttributions := [{| sale_programId := "p1"; amount := 50 |}];
     joinDate := None; totalEngagement := 13; totalSales := 50 |}.

(** An entity holding the post [t1] twice (two programs listing the same
    task). *)
Definition entityTwoT1 : User :=
  {| userId := "u3"; name := JUndefined; email := JUndefined;
     socialHandles := []; programs := [];
     posts := [postT1 "instagram" 5 0 0; postT1 "instagram" 7 0 0];
     salesAttributions := [];
     joinDate := None; totalEngagement := 12; totalSales := 0 |}.

(** Equality of two collections as sets. *)
Definition sameElements {A : Type} (l l' : list A) : Prop :=
  forall x, In x l <-> In x l'.

(** C1 as the specification states it, for one entity. *)
Definition self_merge_idempotent (A : User) : Prop :=
  let merged := recalculateTotals (mergeUsers A A) in
  sameElements (socialHandles merged) (socialHandles A)
  /\ sameElements (programs merged) (programs A)
  /\ sameElements (posts merged) (posts A)
  /\ sameElements (salesAttributions merged) (salesAttributions A)
  /\ (totalEngagement merged == totalEngagement A)%Q
  /\ (totalSales merged == totalSales A)%Q.

(** Entities of the identifier [u1]: [userA] and [userB] score 62,
    [userC] 63 and [userD], further down, 21. *)
Definition userA : User :=
  {| userId := "u1"; name := JString "Ann"; email := JUndefined;
     socialHandles := []; programs := [];
     posts := [postT1 "instagram" 5 0 0];
     salesAttributions := [{| sale_programId := "p1"; amount := 50 |}];
     joinDate := None; totalEngagement := 5; totalSales := 50 |}.

Definition userB : User :=
  {| userId := "u1"; name := JUndefined; email := JString "ann@example.com";
     socialHandles := [{| platform := "instagram"; handle := "ann" |};
                       {| platform := "tiktok"; handle := "ann" |}];
     programs := [{| programId := "p2"; programName := "Acme" |}];
     posts := [postT1 "instagram" 8 0 0];
     salesAttributions := [{| sale_programId := "p1"; amount := 25 |};
                           {| sale_programId := "p2"; amount := 10 |}];
     joinDate := None; totalEngagement := 8; totalSales := 35 |}.

Definition userC : User :=
  {| userId := "u1"; name := JString "Ann"; email := JString "ann@example.com";
     socialHandles := []; programs := [];
     posts := [postT1 "instagram" 5 0 0];
     salesAttributions := [{| sale_programId := "p1"; amount := 50 |}];
     joinDate := None; totalEngagement := 5; totalSales := 50 |}.

Definition userOther : User :=
  {| userId := "u2"; name := JUndefined; email := JUndefined;
     socialHandles := []; programs := []; posts := [];
     salesAttributions := [];
     joinDate := None; totalEngagement := 0; totalSales := 0 |}.

Definition userD : User :=
  {| userId := "u1"; name := JUndefined; email := JUndefined;
     socialHandles := []; programs := [];
     posts := [postT1 "instagram" 20 0 0];
     salesAttributions := [];
     joinDate := None; totalEngagement := 20; totalSales := 0 |}.

(** Raw records of which [transformUser] makes [userA], [userB] and
    [userD]. *)
Definition rawA : JsValue :=
  JObject
    [("user_id", JString "u1"); ("name", JString "Ann");
     ("advocacy_programs",
      JArray
        [JObject
           [("program_id", JString "p1");
            ("tasks_completed",
             JArray [JObject [("task_id", JString "t1");
                              ("platform", JString "instagram");
                              ("likes", JNumber (Num 5))]]);
            ("total_sales_attributed", JNumber (Num 50))]])].

Definition rawB : JsValue :=
  JObject
    [("user_id", JString "u1"); ("email", JString "ann@example.com");
     ("instagram_handle", JString "@ann"); ("tiktok_handle", JString "@ann");
     ("advocacy_programs",
      JArray
        [JObject
           [("program_id", JString "p1");
            ("tasks_completed",
             JArray [JObject [("task_id", JString "t1");
                              ("platform", JString "instagram");
                              ("likes", JNumber (Num 8))]]);
            ("total_sales_attributed", JNumber (Num 25))];
         JObject
           [("program_id", JString "p2"); ("brand", JString "Acme");
            ("total_sales_attributed", JNumber (Num 10))]])].

Definition rawD : JsValue :=
  JObject
    [("user_id", JString "u1");
     ("advocacy_programs",
      JArray
        [JObject
           [("tasks_completed",
             JArray [JObject [("task_id", JString "t1");
                              ("platform", JString "instagram");
                              ("likes", JNumber (Num 20))]])]])].

(** The accepted record of the validator's tests that carries no usable
    value: every field [null] or no number. *)
Definition rawMessy : JsValue :=
  JObject
    [("user_id", JString "user123");
     ("name", JNull); ("email", JNull);
     ("instagram_handle", JNull); ("tiktok_handle", JNull);
     ("advocacy_programs",
      JArray
        [JObject
           [("program_id", JNull);
            ("brand", JNull);
            ("tasks_completed",
             JArray
               [JObject
                  [("task_id", JNull);
                   ("platform", JString "Instagram");
                   ("post_url", JNull);
                   ("likes", JString "NaN");
                   ("comments", JNull);
                   ("shares", JNull);
                   ("reach", JNull)]]);
            ("total_sales_attributed", JString "no-data")]])].

Definition rawMessyPost : JsValue :=
  JObject
    [("task_id", JString "t9");
     ("platform", JString "Instagram");
     ("likes", JString "NaN");
     ("comments", JNull);
     ("shares", JNumber (Num 4))].

(** A raw record without [user_id], with both handles. *)
Definition rawHandles : JsValue :=
  JObject
    [("instagram_handle", JString "@Foo ");
     ("tiktok_handle", JString " Bar")].

(** A stub database, the number of users written so far: [bulkWrite]
    upserts every user, [insertMany] is rejected. *)
Definition sampleBulkWrite (db : nat) (batch : list User)
  : Outcome (nat * nat) * nat :=
  (Resolved (List.length batch, 0%nat), (db + List.length batch)%nat).

Definition sampleInsertMany (db : nat) (batch : list User)
  : Outcome nat * nat :=
  (Rejected None "E11000 duplicate key", db).

Definition sampleLoader (batchSize : JsNumber)
  : nat -> list User -> option (LoadResult * nat) :=
  pipelineLoader nat sampleBulkWrite sampleInsertMany 5 batchSize.

Definition sampleLoad : nat -> list User -> option (LoadResult * nat) :=
  sampleLoader (Num 2).

(** Five extracted records: one of them refused by the validator, one
    identifier twice. *)
Definition sampleExtracted : list JsValue :=
  [rawU1; JNull; rawMessy; rawU1; rawHandles].

(** A run that has two users of one identifier in its buffer. *)
Definition sampleBuffered : RunState nat :=
  {| currentBatch := [entityU1; entityU1];
     processedUserIds := [];
     statistics := statistics (initialRun 0%nat);
     database := 0%nat;
     idsDrawn := 0%nat;
     loaderCalls := [] |}.

(** A stub file system: a directory [data] of four entries, of which
    [a.json] parses, [b.JSON] cannot be read, [sub] is a directory and
    [c.txt] does not match. *)
Definition sampleFs : FileSystem :=
  {| access := fun dir => String.eqb dir "data";
     readdir := fun _ =>
       Ok [{| entryName := "a.json"; isFile := true |};
           {| entryName := "b.JSON"; isFile := true |};
           {| entryName := "sub"; isFile := false |};
           {| entryName := "c.txt"; isFile := true |}];
     readFile := fun path =>
       if String.eqb path "data/a.json" then Ok "[]" else Throw "EACCES";
     JSONparse := fun content =>
       if String.eqb content "[]" then Ok (JArray []) else Throw "SyntaxError";
     pathJoin := fun dir entry => dir ++ "/" ++ entry;
     pathBasename := fun path => path |}.

Definition sampleOptions : ExtractOptions :=
  {| dataDir := "data"; filePattern := None; maxFiles := None |}.

Close Scope string_scope.

(* ================================================================== *)
(** * Properties *)

(** ** Comparisons *)

Lemma Qltb_true (x y : Q) : Qltb x y = true <-> (x < y)%Q.
Proof.
  unfold Qltb. rewrite negb_true_iff. split; intro H.
  - destruct (Qlt_le_dec x y) as [L | L]; [exact L |].
    apply Qle_bool_iff in L. congruence.
  - destruct (Qle_bool y x) eqn:E; [| reflexivity].
    apply Qle_bool_iff in E. lra.
Qed.

Lemma Qltb_false (x y : Q) : Qltb x y = false <-> (y <= x)%Q.
Proof.
  unfold Qltb. rewrite negb_false_iff. apply Qle_bool_iff.
Qed.

(** ** Insertion-ordered maps *)

Section JsMapFacts.
Variable V : Type.
Implicit Types (m : JsMap V) (k : string) (v : V).

Lemma map_get_set_same k v m : map_get k (map_set k v m) = Some v.
Proof.
  induction m as [| [k' v'] m IH]; simpl.
  - now rewrite String.eqb_refl.
  - destruct (String.eqb k k') eqn:E; simpl.
    + now rewrite String.eqb_refl.
    + now rewrite E.
Qed.

Lemma map_get_set_other k k' v m :
  k <> k' -> map_get k' (map_set k v m) = map_get k' m.
Proof.
  intros Hne. induction m as [| [k0 v0] m IH]; simpl.
  - destruct (String.eqb k' k) eqn:E; [| reflexivity].
    apply String.eqb_eq in E. congruence.
  - destruct (String.eqb k k0) eqn:E; simpl.
    + apply String.eqb_eq in E. subst k0.
      destruct (String.eqb k' k) eqn:E'; [| reflexivity].
      apply String.eqb_eq in E'. congruence.
    + now rewrite IH.
Qed.

Lemma map_get_none_notin k m :
  map_get k m = None <-> ~ In k (map_keys m).
Proof.
  induction m as [| [k' v'] m IH]; simpl.
  - tauto.
  - destruct (String.eqb k k') eqn:E.
    + apply String.eqb_eq in E. subst. split; [discriminate | tauto].
    + apply String.eqb_neq in E. rewrite IH. split.
      * intros H [H1 | H1]; [congruence | tauto].
      * tauto.
Qed.

Lemma map_get_some_in k v m : map_get k m = Some v -> In (k, v) m.
Proof.
  induction m as [| [k' v'] m IH]; simpl; [discriminate |].
  destruct (String.eqb k k') eqn:E.
  - apply String.eqb_eq in E. intros [= ->]. left. now subst.
  - auto.
Qed.

Lemma map_set_absent k v m :
  map_get k m = None -> map_set k v m = m ++ [(k, v)].
Proof.
  induction m as [| [k' v'] m IH]; simpl; [reflexivity |].
  destruct (String.eqb k k'); [discriminate |].
  intros H. now rewrite IH.
Qed.

Lemma map_keys_set_present k v v0 m :
  map_get k m = Some v0 -> map_keys (map_set k v m) = map_keys m.
Proof.
  induction m as [| [k' v'] m IH]; simpl; [discriminate |].
  destruct (String.eqb k k') eqn:E; simpl.
  - apply String.eqb_eq in E. now subst.
  - intros H. now rewrite IH.
Qed.

Lemma map_set_set k v v' m : map_set k v (map_set k v' m) = map_set k v m.
Proof.
  induction m as [| [k0 v0] m IH]; simpl.
  - now rewrite String.eqb_refl.
  - destruct (String.eqb k k0) eqn:E; simpl.
    + now rewrite String.eqb_refl.
    + now rewrite E, IH.
Qed.

(** Writes to two different keys commute once the first key is present. *)
Lemma map_set_comm k k' v v' v0 m :
  k <> k' -> map_get k m = Some v0 ->
  map_set k v (map_set k' v' m) = map_set k' v' (map_set k v m).
Proof.
  intros Hne.
  assert (Hkk : String.eqb k k' = false) by now apply String.eqb_neq.
  assert (Hkk' : String.eqb k' k = false)
    by (apply String.eqb_neq; congruence).
  induction m as [| [k0 w] m IH]; simpl; [discriminate |].
  destruct (String.eqb k k0) eqn:E.
  - apply String.eqb_eq in E. subst k0. intros _.
    rewrite Hkk'. simpl. now rewrite String.eqb_refl, Hkk'.
  - intros H. destruct (String.eqb k' k0) eqn:E'; simpl.
    + now rewrite Hkk, E'.
    + now rewrite E, E', IH.
Qed.

(** The map's invariant: keys are distinct, and every value is filed
    under the key [kf] computes from it. *)
Variable kf : V -> string.

Lemma keyed_nil : keyed V kf [].
Proof. split; constructor. Qed.

Lemma keyed_set k v m : keyed V kf m -> kf v = k -> keyed V kf (map_set k v m).
Proof.
  intros [Hnd Hk] Hv. destruct (map_get k m) as [v0 |] eqn:G.
  - split.
    + now rewrite (map_keys_set_present k v v0 m G).
    + clear Hnd G. induction m as [| [k' v'] m IH]; simpl.
      * constructor; auto.
      * apply Forall_cons_iff in Hk as [Hkv Hk'].
        destruct (String.eqb k k'); constructor; auto.
  - rewrite (map_set_absent k v m G). split.
    + unfold map_keys. rewrite map_app. simpl.
      apply NoDup_app; auto.
      * repeat constructor. simpl. tauto.
      * intros x Hx [<- | []]. now apply map_get_none_notin in G.
    + apply Forall_app. split; auto.
Qed.

Lemma keyed_values_NoDup m : keyed V kf m -> NoDup (map kf (map_values m)).
Proof.
  intros [Hnd Hk]. unfold map_values. rewrite map_map.
  erewrite map_ext_in; [exact Hnd |].
  intros e He. rewrite Forall_forall in Hk. now apply Hk.
Qed.

Lemma filter_values_absent k m :
  keyed V kf m -> map_get k m = None ->
  filter (fun v => String.eqb (kf v) k) (map_values m) = [].
Proof.
  intros [_ Hk]. induction m as [| [k' v'] m IH]; simpl; [reflexivity |].
  apply Forall_cons_iff in Hk as [Hkv Hk']. simpl in Hkv.
  rewrite Hkv, (String.eqb_sym k' k).
  destruct (String.eqb k k'); [discriminate | auto].
Qed.

(** The values filed under [k] are exactly the one [get] returns. *)
Lemma filter_values_get k v m :
  keyed V kf m -> map_get k m = Some v ->
  filter (fun x => String.eqb (kf x) k) (map_values m) = [v].
Proof.
  intros [Hnd Hk]. induction m as [| [k' v'] m IH]; [discriminate |].
  apply Forall_cons_iff in Hk as [Hkv Hk'].
  apply NoDup_cons_iff in Hnd as [Hni Hnd'].
  cbn [map_get map_values map filter fst snd] in *.
  rewrite Hkv, (String.eqb_sym k' k).
  destruct (String.eqb k k') eqn:E.
  - apply String.eqb_eq in E. intros [= ->].
    f_equal. apply filter_values_absent; [now split |].
    apply map_get_none_notin. now rewrite E.
  - now apply IH.
Qed.
End JsMapFacts.

(* ================================================================== *)
(** ** [deduplicateUsers] *)

Lemma mergeUsers_userId (user1 user2 : User) :
  userId (mergeUsers user1 user2) = userId user1.
Proof. reflexivity. Qed.

Lemma keyed_get_key {V : Type} (kf : V -> string) (m : JsMap V) k v :
  keyed V kf m -> map_get k m = Some v -> kf v = k.
Proof.
  intros [_ Hk] G. apply map_get_some_in in G.
  rewrite Forall_forall in Hk. exact (Hk _ G).
Qed.

Lemma dedupStep_keyed (m : JsMap User) (u : User) :
  keyed User userId m -> keyed User userId (dedupStep m u).
Proof.
  intros Hm. unfold dedupStep.
  destruct (map_get (userId u) m) as [existing |] eqn:G.
  - destruct (Qltb _ _); [now apply keyed_set |].
    destruct (Qeq_bool _ _); [| exact Hm].
    apply keyed_set; [exact Hm |].
    rewrite mergeUsers_userId. exact (keyed_get_key _ _ _ _ Hm G).
  - now apply keyed_set.
Qed.

Lemma dedup_fold_keyed (l : list User) (m : JsMap User) :
  keyed User userId m -> keyed User userId (fold_left dedupStep l m).
Proof.
  revert m. induction l as [| u l IH]; intros m Hm; simpl; [exact Hm |].
  apply IH. now apply dedupStep_keyed.
Qed.

Lemma map_keys_set_in {V : Type} (k k' : string) (v : V) (m : JsMap V) :
  In k' (map_keys (map_set k v m)) <-> k' = k \/ In k' (map_keys m).
Proof.
  induction m as [| [k0 v0] m IH]; simpl.
  - intuition.
  - destruct (String.eqb k k0) eqn:E; simpl.
    + apply String.eqb_eq in E. subst. intuition.
    + rewrite IH. intuition.
Qed.

Lemma dedupStep_keys (m : JsMap User) (u : User) (i : string) :
  In i (map_keys (dedupStep m u)) <-> i = userId u \/ In i (map_keys m).
Proof.
  unfold dedupStep.
  destruct (map_get (userId u) m) as [existing |] eqn:G.
  - assert (Hin : In (userId u) (map_keys m)).
    { apply map_get_some_in in G. now apply (in_map fst) in G. }
    assert (Hset : forall v, In i (map_keys (map_set (userId u) v m))
                             <-> i = userId u \/ In i (map_keys m))
      by (intro v; apply map_keys_set_in).
    destruct (Qltb _ _); [apply Hset |].
    destruct (Qeq_bool _ _); [apply Hset |].
    split; [tauto | intros [-> | H]; assumption].
  - apply map_keys_set_in.
Qed.

Lemma dedup_fold_keys (l : list User) (m : JsMap User) (i : string) :
  In i (map_keys (fold_left dedupStep l m))
  <-> In i (map_keys m) \/ In i (map userId l).
Proof.
  revert m. induction l as [| u l IH]; intros m; simpl; [tauto |].
  rewrite IH, dedupStep_keys. intuition.
Qed.

(** C10. For every batch, the entities [deduplicateUsers] returns have
    pairwise distinct [userId]s, which are exactly the identifiers of the
    batch; and a merged entity carries the [userId] of the first operand
    of [mergeUsers]. *)
Theorem deduplicateUsers_distinct_userIds :
  forall users : list User,
    NoDup (map userId (deduplicateUsers users))
    /\ (forall i, In i (map userId (deduplicateUsers users))
                  <-> In i (map userId users))
    /\ (forall user1 user2,
          userId (mergeUsers user1 user2) = userId user1).
Proof.
  intros users.
  pose proof (dedup_fold_keyed users [] (keyed_nil User userId)) as Hk.
  split; [| split].
  - exact (keyed_values_NoDup _ _ _ Hk).
  - intros i. unfold deduplicateUsers.
    assert (Hv : map userId (map_values (fold_left dedupStep users []))
                 = map_keys (fold_left dedupStep users [])).
    { destruct Hk as [_ Hf]. unfold map_values, map_keys.
      rewrite map_map. apply map_ext_in. intros e He.
      rewrite Forall_forall in Hf. now apply Hf. }
    rewrite Hv, dedup_fold_keys. simpl. tauto.
  - intros. apply mergeUsers_userId.
Qed.

(** The equal-score branch: a record that meets a stored record of its
    identifier and of the same score is merged into it, the stored record
    being the first operand. *)
Lemma dedupStep_equal_score (userMap : JsMap User) (existing user : User) :
  map_get (userId user) userMap = Some existing ->
  (score user == score existing)%Q ->
  dedupStep userMap user
  = map_set (userId user) (mergeUsers existing user) userMap.
Proof.
  intros G Heq. unfold dedupStep. rewrite G. fold score.
  assert (L : Qltb (score existing) (score user) = false)
    by (apply Qltb_false; lra).
  assert (E : Qeq_bool (score user) (score existing) = true)
    by now apply Qeq_bool_iff.
  now rewrite L, E.
Qed.

(* ================================================================== *)
(** ** [deduplicatePosts] *)

Lemma postStep_get (k : string) (m : JsMap SocialPost) (p : SocialPost) :
  map_get k (postStep m p) = pick k (map_get k m) p.
Proof.
  unfold postStep, pick, hasPostId.
  destruct (String.eqb (postId p) k) eqn:E.
  - apply String.eqb_eq in E. subst k.
    destruct (map_get (postId p) m) as [e |] eqn:G.
    + destruct (Qltb _ _); [apply map_get_set_same | exact G].
    + apply map_get_set_same.
  - apply String.eqb_neq in E.
    destruct (map_get (postId p) m) as [e |].
    + destruct (Qltb _ _); [now apply map_get_set_other | reflexivity].
    + now apply map_get_set_other.
Qed.

Lemma posts_fold_get (k : string) (l : list SocialPost) (m : JsMap SocialPost) :
  map_get k (fold_left postStep l m) = fold_left (pick k) l (map_get k m).
Proof.
  revert m. induction l as [| p l IH]; intros m; simpl; [reflexivity |].
  now rewrite IH, postStep_get.
Qed.

Lemma pick_filter (k : string) (l : list SocialPost) (o : option SocialPost) :
  fold_left (pick k) l o = fold_left (pick k) (filter (hasPostId k) l) o.
Proof.
  revert o. induction l as [| p l IH]; intros o; simpl; [reflexivity |].
  destruct (hasPostId k p) eqn:E; simpl.
  - apply IH.
  - rewrite IH. unfold pick at 2. now rewrite E.
Qed.

Lemma postStep_keyed (m : JsMap SocialPost) (p : SocialPost) :
  keyed SocialPost postId m -> keyed SocialPost postId (postStep m p).
Proof.
  intros Hm. unfold postStep.
  destruct (map_get (postId p) m).
  - destruct (Qltb _ _); [now apply keyed_set | exact Hm].
  - now apply keyed_set.
Qed.

Lemma posts_fold_keyed (l : list SocialPost) (m : JsMap SocialPost) :
  keyed SocialPost postId m -> keyed SocialPost postId (fold_left postStep l m).
Proof.
  revert m. induction l as [| p l IH]; intros m Hm; simpl; [exact Hm |].
  apply IH. now apply postStep_keyed.
Qed.

(** The posts [deduplicatePosts] keeps under [k]: of all the posts with that
    [postId], the first of the highest engagement. *)
Lemma deduplicatePosts_best (k : string) (l : list SocialPost) (w : SocialPost) :
  fold_left (pick k) (filter (hasPostId k) l) None = Some w ->
  filter (hasPostId k) (deduplicatePosts l) = [w].
Proof.
  intros H. unfold deduplicatePosts.
  apply (filter_values_get SocialPost postId).
  - apply posts_fold_keyed, keyed_nil.
  - now rewrite posts_fold_get, pick_filter.
Qed.

Lemma filter_singleton_holds {A : Type} (f : A -> bool) (l : list A) (x : A) :
  filter f l = [x] -> f x = true.
Proof.
  intros H. assert (Hin : In x (filter f l)) by (rewrite H; now left).
  now apply filter_In in Hin.
Qed.

(** Of posts that all carry the [postId], the loop keeps the first of the
    highest engagement: the stored post stays unless a later one is
    strictly higher. *)
Lemma pick_first_highest (k : string) (l : list SocialPost) :
  Forall (fun p => hasPostId k p = true) l ->
  forall e : SocialPost,
  exists w,
    fold_left (pick k) l (Some e) = Some w
    /\ ((w = e /\ Forall (fun q => (engagement q <= engagement e)%Q) l)
        \/ exists before after,
             l = (before ++ w :: after)%list
             /\ (engagement e < engagement w)%Q
             /\ Forall (fun q => (engagement q < engagement w)%Q) before
             /\ Forall (fun q => (engagement q <= engagement w)%Q) after).
Proof.
  induction 1 as [| p l Hp _ IH]; intros e; cbn [fold_left].
  - exists e. split; [reflexivity |]. left. split; [reflexivity | constructor].
  - unfold pick at 2. rewrite Hp.
    destruct (Qltb (engagement e) (engagement p)) eqn:L.
    + apply Qltb_true in L.
      destruct (IH p) as (w & Hw & [[Ew Hall] | (b & a & El & Hlt & Hb & Ha)]);
        exists w; (split; [exact Hw |]); right.
      * subst w. exists [], l.
        repeat split; [exact L | constructor | exact Hall].
      * subst l. exists (p :: b), a. repeat split; [lra | | exact Ha].
        constructor; [exact Hlt | exact Hb].
    + apply Qltb_false in L.
      destruct (IH e) as (w & Hw & [[Ew Hall] | (b & a & El & Hlt & Hb & Ha)]);
        exists w; (split; [exact Hw |]).
      * left. split; [exact Ew |]. subst w.
        constructor; [exact L | exact Hall].
      * right. subst l. exists (p :: b), a.
        repeat split; [exact Hlt | | exact Ha].
        constructor; [lra | exact Hb].
Qed.

Lemma pick_from_none (k : string) (l : list SocialPost) :
  Forall (fun p => hasPostId k p = true) l -> l <> [] ->
  exists w, fold_left (pick k) l None = Some w /\ firstHighest l w.
Proof.
  intros Hl Hne. destruct l as [| p l]; [contradiction |].
  apply Forall_cons_iff in Hl as [Hp Hl].
  cbn [fold_left]. unfold pick at 2. rewrite Hp.
  destruct (pick_first_highest k l Hl p)
    as (w & Hw & [[Ew Hall] | (b & a & El & Hlt & Hb & Ha)]);
    exists w; (split; [exact Hw |]).
  - subst w. exists [], l. repeat split; [constructor | exact Hall].
  - subst l. exists (p :: b), a. repeat split; [| exact Ha].
    constructor; [exact Hlt | exact Hb].
Qed.

(** C6. When [deduplicateUsers] meets a record whose identifier is stored
    with a record of equal completeness score, the two are merged, and a
    [postId] that both operands hold is held once by the merged entity: by
    the instance of the highest engagement and, among instances of that
    engagement, by the first of them, the first operand's posts coming
    before the second's.  Where each operand holds the [postId] once, that
    is the instance of the higher engagement, and the first operand's when
    the engagements are equal. *)
Theorem merge_keeps_post_of_higher_engagement :
  forall (userMap : JsMap User) (existing user : User) (k : string),
    map_get (userId user) userMap = Some existing ->
    (score user == score existing)%Q ->
    In k (map postId (posts existing)) ->
    In k (map postId (posts user)) ->
    dedupStep userMap user
    = map_set (userId user) (mergeUsers existing user) userMap
    /\ exists w,
         filter (hasPostId k) (posts (mergeUsers existing user)) = [w]
         /\ firstHighest
              (filter (hasPostId k) (posts existing ++ posts user)) w
         /\ forall p1 p2,
              filter (hasPostId k) (posts existing) = [p1] ->
              filter (hasPostId k) (posts user) = [p2] ->
              w = if Qltb (engagement p1) (engagement p2) then p2 else p1.
Proof.
  intros userMap existing user k G Heq Hin1 Hin2.
  split; [now apply dedupStep_equal_score |].
  destruct (pick_from_none k
              (filter (hasPostId k) (posts existing ++ posts user)))
    as (w & Hw & Hfirst).
  - apply Forall_forall. intros p Hp. now apply filter_In in Hp.
  - apply in_map_iff in Hin1 as (p & Hk & Hp).
    assert (Hf : In p (filter (hasPostId k) (posts existing ++ posts user))).
    { apply filter_In. split; [apply in_or_app; now left |].
      unfold hasPostId. rewrite Hk. apply String.eqb_refl. }
    intros E. rewrite E in Hf. destruct Hf.
  - exists w. split; [| split; [exact Hfirst |]].
    + cbn [mergeUsers posts]. now apply deduplicatePosts_best.
    + intros p1 p2 F1 F2. rewrite filter_app, F1, F2 in Hw.
      simpl in Hw. unfold pick in Hw.
      rewrite (filter_singleton_holds _ _ _ F1),
        (filter_singleton_holds _ _ _ F2) in Hw.
      destruct (Qltb _ _); now injection Hw as <-.
Qed.

(* ================================================================== *)
(** ** [deduplicateSalesAttributions] *)

Lemma orZero_getQ (k : string) (m : JsMap Q) :
  (orZero (map_get k m) == getQ k m)%Q.
Proof.
  unfold orZero, getQ. destruct (map_get k m) as [c |]; [| reflexivity].
  destruct (Qeq_bool c 0) eqn:E; [| reflexivity].
  apply Qeq_bool_iff in E. now symmetry.
Qed.

Lemma salesStep_getQ (k : string) (m : JsMap Q) (s : SalesAttribution) :
  (getQ k (salesStep m s)
   == getQ k m + (if String.eqb (sale_programId s) k then amount s else 0))%Q.
Proof.
  unfold salesStep.
  destruct (String.eqb (sale_programId s) k) eqn:E.
  - apply String.eqb_eq in E. subst k.
    unfold getQ at 1. rewrite map_get_set_same.
    now rewrite orZero_getQ.
  - apply String.eqb_neq in E.
    unfold getQ. rewrite map_get_set_other by exact E. lra.
Qed.

Lemma sales_fold_getQ (k : string) (l : list SalesAttribution) (m : JsMap Q) :
  (getQ k (fold_left salesStep l m) == getQ k m + amountFor k l)%Q.
Proof.
  revert m. induction l as [| s l IH]; intros m; simpl; [lra |].
  rewrite IH, salesStep_getQ.
  destruct (String.eqb (sale_programId s) k); lra.
Qed.

Lemma amountFor_app (k : string) (l1 l2 : list SalesAttribution) :
  (amountFor k (l1 ++ l2) == amountFor k l1 + amountFor k l2)%Q.
Proof.
  induction l1 as [| s l1 IH]; simpl; [lra |].
  destruct (String.eqb (sale_programId s) k); lra.
Qed.

Lemma map_set_NoDup {V : Type} (k : string) (v : V) (m : JsMap V) :
  NoDup (map_keys m) -> NoDup (map_keys (map_set k v m)).
Proof.
  intros H. destruct (map_get k m) as [v0 |] eqn:G.
  - now rewrite (map_keys_set_present V k v v0 m G).
  - rewrite (map_set_absent V k v m G).
    unfold map_keys. rewrite map_app. simpl.
    apply NoDup_app; auto.
    + repeat constructor. simpl. tauto.
    + intros x Hx [<- | []]. now apply map_get_none_notin in G.
Qed.

Lemma sales_fold_NoDup (l : list SalesAttribution) (m : JsMap Q) :
  NoDup (map_keys m) -> NoDup (map_keys (fold_left salesStep l m)).
Proof.
  revert m. induction l as [| s l IH]; intros m Hm; simpl; [exact Hm |].
  apply IH. now apply map_set_NoDup.
Qed.

Lemma sales_fold_keys (l : list SalesAttribution) (m : JsMap Q) (i : string) :
  In i (map_keys (fold_left salesStep l m))
  <-> In i (map_keys m) \/ In i (map sale_programId l).
Proof.
  revert m. induction l as [| s l IH]; intros m; simpl; [tauto |].
  rewrite IH. unfold salesStep. rewrite map_keys_set_in. intuition.
Qed.

Lemma map_get_of_In {V : Type} (k : string) (v : V) (m : JsMap V) :
  NoDup (map_keys m) -> In (k, v) m -> map_get k m = Some v.
Proof.
  induction m as [| [k0 v0] m IH]; simpl; [tauto |].
  intros Hnd [H | H].
  - injection H as -> ->. now rewrite String.eqb_refl.
  - apply NoDup_cons_iff in Hnd as [Hni Hnd].
    destruct (String.eqb k k0) eqn:E; [| now apply IH].
    apply String.eqb_eq in E. subst k0.
    exfalso. apply Hni. now apply (in_map fst) in H.
Qed.

Lemma sales_keys (l : list SalesAttribution) :
  map sale_programId (deduplicateSalesAttributions l)
  = map_keys (fold_left salesStep l []).
Proof.
  unfold deduplicateSalesAttributions, map_keys. now rewrite map_map.
Qed.

(** [deduplicateSalesAttributions]: one entry per program, its amount the
    sum of the amounts the input attributes to that program. *)
Lemma deduplicateSalesAttributions_spec (l : list SalesAttribution) :
  NoDup (map sale_programId (deduplicateSalesAttributions l))
  /\ (forall pid, In pid (map sale_programId (deduplicateSalesAttributions l))
                  <-> In pid (map sale_programId l))
  /\ (forall e, In e (deduplicateSalesAttributions l) ->
                (amount e == amountFor (sale_programId e) l)%Q).
Proof.
  split; [| split].
  - rewrite sales_keys. apply sales_fold_NoDup. constructor.
  - intros pid. rewrite sales_keys, sales_fold_keys. simpl. tauto.
  - intros e He. unfold deduplicateSalesAttributions in He.
    apply in_map_iff in He. destruct He as [[k c] [<- Hin]]. simpl.
    apply map_get_of_In in Hin; [| apply sales_fold_NoDup; constructor].
    pose proof (sales_fold_getQ k l []) as H.
    unfold getQ at 1 in H. rewrite Hin in H. unfold getQ in H. simpl in H.
    lra.
Qed.

(** C5. When [deduplicateUsers] meets a record whose identifier is stored
    with a record of equal completeness score, the two are merged, and the
    merged entity has one sales attribution per [programId] of either
    operand: programs that differ keep entries of their own, and the amount
    of an entry is the sum of the amounts both operands attribute to its
    program. *)
Theorem merge_sums_sales_per_program :
  forall (userMap : JsMap User) (existing user : User),
    map_get (userId user) userMap = Some existing ->
    (score user == score existing)%Q ->
    dedupStep userMap user
    = map_set (userId user) (mergeUsers existing user) userMap
    /\ NoDup (map sale_programId
                  (salesAttributions (mergeUsers existing user)))
    /\ (forall pid,
          In pid (map sale_programId
                      (salesAttributions (mergeUsers existing user)))
          <-> In pid (map sale_programId (salesAttributions existing))
              \/ In pid (map sale_programId (salesAttributions user)))
    /\ (forall e,
          In e (salesAttributions (mergeUsers existing user)) ->
          (amount e
           == amountFor (sale_programId e) (salesAttributions existing)
              + amountFor (sale_programId e) (salesAttributions user))%Q).
Proof.
  intros userMap existing user G Heq.
  split; [now apply dedupStep_equal_score |].
  cbn [mergeUsers salesAttributions].
  destruct (deduplicateSalesAttributions_spec
              (salesAttributions existing ++ salesAttributions user))
    as [Hnd [Hkeys Hamt]].
  split; [exact Hnd | split].
  - intros pid. rewrite Hkeys, map_app, in_app_iff. tauto.
  - intros e He. rewrite (Hamt e He). apply amountFor_app.
Qed.

(* ================================================================== *)
(** ** Merging an entity with itself *)

(** A loop that files every element it has not seen under a new key. *)
Section FoldFresh.
Variables (X V : Type) (kf : X -> string) (g : X -> V).
Variable step : JsMap V -> X -> JsMap V.
Hypothesis step_fresh :
  forall m x, map_get (kf x) m = None -> step m x = map_set (kf x) (g x) m.

Lemma map_get_app_absent (k : string) (m m' : JsMap V) :
  map_get k m = None -> map_get k (m ++ m') = map_get k m'.
Proof.
  induction m as [| [k0 v0] m IH]; simpl; [reflexivity |].
  destruct (String.eqb k k0); [discriminate | exact IH].
Qed.

Lemma fold_fresh (l : list X) (m : JsMap V) :
  NoDup (map kf l) ->
  (forall x, In x l -> map_get (kf x) m = None) ->
  fold_left step l m = m ++ map (entry X V kf g) l.
Proof.
  revert m. induction l as [| x l IH]; intros m Hnd Hm; simpl.
  - now rewrite app_nil_r.
  - apply NoDup_cons_iff in Hnd as [Hni Hnd].
    rewrite step_fresh by (apply Hm; now left).
    rewrite map_set_absent by (apply Hm; now left).
    rewrite IH; [now rewrite <- app_assoc | exact Hnd |].
    intros y Hy. rewrite map_get_app_absent by (apply Hm; now right).
    simpl. destruct (String.eqb (kf y) (kf x)) eqn:E; [| reflexivity].
    apply String.eqb_eq in E. exfalso. apply Hni. rewrite <- E.
    now apply in_map.
Qed.

Lemma fold_fixed (l : list X) (m : JsMap V) :
  (forall x, In x l -> step m x = m) -> fold_left step l m = m.
Proof.
  induction l as [| x l IH]; intros H; simpl; [reflexivity |].
  rewrite H by now left. apply IH. intros y Hy. apply H. now right.
Qed.

Lemma map_get_entry (l : list X) (x : X) :
  NoDup (map kf l) -> In x l ->
  map_get (kf x) (map (entry X V kf g) l) = Some (g x).
Proof.
  intros Hnd Hin. apply map_get_of_In.
  - unfold map_keys. rewrite map_map. exact Hnd.
  - now apply (in_map (entry X V kf g)) in Hin.
Qed.

(** Run twice over a list of distinct keys, a loop that leaves the
    entries of keys it has seen alone files each element once. *)
Lemma fold_twice (l : list X) :
  NoDup (map kf l) ->
  (forall x, In x l ->
             step (map (entry X V kf g) l) x = map (entry X V kf g) l) ->
  fold_left step (l ++ l) [] = map (entry X V kf g) l.
Proof.
  intros Hnd H. rewrite fold_left_app.
  rewrite (fold_fresh l [] Hnd) by reflexivity. simpl.
  now apply fold_fixed.
Qed.
End FoldFresh.

Lemma values_of_entries {X : Type} (kf : X -> string) (l : list X) :
  map_values (map (entry X X kf (fun x => x)) l) = l.
Proof.
  unfold map_values. rewrite map_map. simpl. apply map_id.
Qed.

Lemma deduplicateSocialHandles_twice (l : list SocialHandle) :
  NoDup (map handleKey l) -> deduplicateSocialHandles (l ++ l) = l.
Proof.
  intros Hnd. unfold deduplicateSocialHandles.
  rewrite (fold_twice _ _ handleKey (fun h => h)); auto.
  - apply values_of_entries.
  - intros m x G. unfold map_has. now rewrite G.
  - intros x Hx. unfold map_has.
    now rewrite (map_get_entry _ _ handleKey (fun h => h) l x Hnd Hx).
Qed.

Lemma deduplicatePrograms_twice (l : list Program) :
  NoDup (map programId l) -> deduplicatePrograms (l ++ l) = l.
Proof.
  intros Hnd. unfold deduplicatePrograms.
  rewrite (fold_twice _ _ programId (fun p => p)); auto.
  - apply values_of_entries.
  - intros m x G. unfold map_has. now rewrite G.
  - intros x Hx. unfold map_has.
    now rewrite (map_get_entry _ _ programId (fun p => p) l x Hnd Hx).
Qed.

Lemma Qltb_irrefl (q : Q) : Qltb q q = false.
Proof. apply Qltb_false. lra. Qed.

Lemma deduplicatePosts_twice (l : list SocialPost) :
  NoDup (map postId l) -> deduplicatePosts (l ++ l) = l.
Proof.
  intros Hnd. unfold deduplicatePosts.
  rewrite (fold_twice _ _ postId (fun p => p)); auto.
  - apply values_of_entries.
  - intros m x G. unfold postStep. now rewrite G.
  - intros x Hx. unfold postStep.
    rewrite (map_get_entry _ _ postId (fun p => p) l x Hnd Hx).
    now rewrite Qltb_irrefl.
Qed.

Lemma amountFor_absent (k : string) (l : list SalesAttribution) :
  ~ In k (map sale_programId l) -> amountFor k l = 0%Q.
Proof.
  induction l as [| s l IH]; simpl; [reflexivity |].
  intros H. destruct (String.eqb (sale_programId s) k) eqn:E.
  - apply String.eqb_eq in E. tauto.
  - apply IH. tauto.
Qed.

Lemma amountFor_NoDup (s : SalesAttribution) (l : list SalesAttribution) :
  NoDup (map sale_programId l) -> In s l ->
  (amountFor (sale_programId s) l == amount s)%Q.
Proof.
  induction l as [| s0 l IH]; simpl; [tauto |].
  intros Hnd Hin. apply NoDup_cons_iff in Hnd as [Hni Hnd].
  destruct Hin as [-> | Hin].
  - rewrite String.eqb_refl, amountFor_absent by exact Hni. lra.
  - destruct (String.eqb (sale_programId s0) (sale_programId s)) eqn:E.
    + apply String.eqb_eq in E. exfalso. apply Hni. rewrite E.
      now apply in_map.
    + now apply IH.
Qed.

Lemma sales_fold_keys_present (l : list SalesAttribution) (m : JsMap Q) :
  (forall s, In s l -> In (sale_programId s) (map_keys m)) ->
  map_keys (fold_left salesStep l m) = map_keys m.
Proof.
  revert m. induction l as [| s l IH]; intros m H; simpl; [reflexivity |].
  assert (Hk : map_keys (salesStep m s) = map_keys m).
  { unfold salesStep.
    destruct (map_get (sale_programId s) m) as [c |] eqn:G.
    - now apply map_keys_set_present with (v0 := c).
    - apply map_get_none_notin in G. exfalso. apply G, H. now left. }
  rewrite IH; [exact Hk |].
  intros s' Hs'. rewrite Hk. apply H. now right.
Qed.

Lemma Forall2_doubles (m l : list SalesAttribution) :
  map sale_programId m = map sale_programId l ->
  (forall e s, In e m -> In s l -> sale_programId s = sale_programId e ->
               (amount e == 2 * amount s)%Q) ->
  Forall2 doubles m l.
Proof.
  revert l. induction m as [| e m IH]; intros [| s l] Hk H;
    try discriminate; constructor.
  - injection Hk as Hk1 Hk2. split; [exact Hk1 |].
    apply H; [now left | now left | now symmetry].
  - injection Hk as Hk1 Hk2. apply IH; [exact Hk2 |].
    intros e' s' He Hs. apply H; now right.
Qed.

Lemma deduplicateSalesAttributions_twice (l : list SalesAttribution) :
  NoDup (map sale_programId l) ->
  Forall2 doubles (deduplicateSalesAttributions (l ++ l)) l.
Proof.
  intros Hnd. apply Forall2_doubles.
  - rewrite sales_keys, fold_left_app.
    assert (Hfresh : forall m x,
               map_get (sale_programId x) m = None ->
               salesStep m x = map_set (sale_programId x) (0 + amount x)%Q m)
      by (intros m x G; unfold salesStep; now rewrite G).
    rewrite (fold_fresh _ _ sale_programId _ salesStep Hfresh l [] Hnd)
      by reflexivity.
    simpl. rewrite sales_fold_keys_present.
    + unfold map_keys. now rewrite map_map.
    + intros s Hs. unfold map_keys. rewrite map_map. simpl.
      now apply in_map.
  - intros e s He Hs Hid.
    destruct (deduplicateSalesAttributions_spec (l ++ l)) as [_ [_ Hamt]].
    rewrite (Hamt e He), amountFor_app, <- Hid.
    rewrite (amountFor_NoDup s l Hnd Hs). lra.
Qed.

Lemma sumAmount_doubles (m l : list SalesAttribution) :
  Forall2 doubles m l -> (sumAmount m == 2 * sumAmount l)%Q.
Proof.
  unfold sumAmount. intros H.
  assert (G : forall acc' acc : Q,
             (acc' == 2 * acc)%Q ->
             (fold_left (fun sum sale => sum + amount sale) m acc'
              == 2 * fold_left (fun sum sale => sum + amount sale) l acc)%Q).
  { induction H as [| e s m l [_ Hes] _ IH]; intros acc' acc Hacc; simpl.
    - exact Hacc.
    - apply IH. lra. }
  apply G. lra.
Qed.

(** C1, as amended.  For an entity whose handles, programs, posts and sales
    attributions each have pairwise distinct keys and whose totals are the
    sums over its posts and attributions, merging the entity with itself
    ([mergeUsers A A], what the equal-score branch of [deduplicateUsers]
    stores) and recomputing the totals gives back its [socialHandles],
    [programs] and [posts] and its [totalEngagement]; every sales
    attribution keeps its program and doubles its amount, and [totalSales]
    doubles.  Whether [deduplicateUsers] takes that branch on two copies of
    an entity is left out: it does whenever the score compares equal to
    itself. *)
Theorem self_merge_doubles_sales_only :
  forall A : User,
    NoDup (map handleKey (socialHandles A)) ->
    NoDup (map programId (programs A)) ->
    NoDup (map postId (posts A)) ->
    NoDup (map sale_programId (salesAttributions A)) ->
    (totalEngagement A == sumEngagement (posts A))%Q ->
    (totalSales A == sumAmount (salesAttributions A))%Q ->
    socialHandles (recalculateTotals (mergeUsers A A)) = socialHandles A
    /\ programs (recalculateTotals (mergeUsers A A)) = programs A
    /\ posts (recalculateTotals (mergeUsers A A)) = posts A
    /\ (totalEngagement (recalculateTotals (mergeUsers A A))
        == totalEngagement A)%Q
    /\ Forall2 doubles
               (salesAttributions (recalculateTotals (mergeUsers A A)))
               (salesAttributions A)
    /\ (totalSales (recalculateTotals (mergeUsers A A))
        == 2 * totalSales A)%Q.
Proof.
  intros A Hh Hp Hposts Hs Heng Hsales.
  cbn [recalculateTotals mergeUsers socialHandles programs posts
       salesAttributions totalEngagement totalSales].
  pose proof (deduplicateSalesAttributions_twice _ Hs) as Hd.
  repeat split.
  - now apply deduplicateSocialHandles_twice.
  - now apply deduplicatePrograms_twice.
  - now apply deduplicatePosts_twice.
  - rewrite deduplicatePosts_twice by exact Hposts. now symmetry.
  - exact Hd.
  - rewrite (sumAmount_doubles _ _ Hd), Hsales. reflexivity.
Qed.

(* ================================================================== *)
(** ** The monad *)

Lemma bind_Ok {A B : Type} (m : M A) (f : A -> M B) (n : nat) (r : B * nat) :
  bind m f n = Ok r -> exists a n1, m n = Ok (a, n1) /\ f a n1 = Ok r.
Proof.
  unfold bind. destruct (m n) as [[a n1] | e]; [| discriminate].
  intros H. now exists a, n1.
Qed.

Lemma ret_Ok {A : Type} (a b : A) (n n' : nat) :
  ret a n = Ok (b, n') -> b = a /\ n' = n.
Proof. unfold ret. now intros [= -> ->]. Qed.

Lemma lift_Ok {A : Type} (r : Result A) (a : A) (n n' : nat) :
  lift r n = Ok (a, n') -> r = Ok a /\ n' = n.
Proof. unfold lift. destruct r; [| discriminate]. now intros [= -> ->]. Qed.

Ltac inv_bind H a n1 Ha :=
  apply bind_Ok in H; destruct H as (a & n1 & Ha & H).

Lemma mapM_Forall2 {A B : Type} (f : A -> M B) (R : A -> B -> Prop) :
  (forall x n y n', f x n = Ok (y, n') -> R x y) ->
  forall l n ys n', mapM f l n = Ok (ys, n') -> Forall2 R l ys.
Proof.
  intros Hf. induction l as [| x l IH]; intros n ys n' H; simpl in H.
  - apply ret_Ok in H as [-> _]. constructor.
  - inv_bind H y n1 Hy. inv_bind H zs n2 Hzs.
    apply ret_Ok in H as [-> _]. constructor; eauto.
Qed.

(* ================================================================== *)
(** ** Totals *)

Lemma fold_sum {A : Type} (f : A -> Q) (l : list A) (acc : Q) :
  (fold_left (fun sum x => sum + f x) l acc == acc + sumOf (map f l))%Q.
Proof.
  revert acc. induction l as [| x l IH]; intros acc; simpl; [lra |].
  rewrite IH. lra.
Qed.

Lemma sumEngagement_sumOf (ps : list SocialPost) :
  (sumEngagement ps == sumOf (map engagement ps))%Q.
Proof. unfold sumEngagement. rewrite fold_sum. lra. Qed.

Lemma sumAmount_sumOf (ss : list SalesAttribution) :
  (sumAmount ss == sumOf (map amount ss))%Q.
Proof. unfold sumAmount. rewrite fold_sum. lra. Qed.

Lemma recalculateTotals_consistent (u : User) :
  totals_consistent (recalculateTotals u).
Proof.
  split; simpl; [apply sumEngagement_sumOf | apply sumAmount_sumOf].
Qed.

Lemma transformUser_consistent (rt : Runtime) (raw : JsValue) (n n' : nat)
      (u : User) :
  transformUser rt raw n = Ok (u, n') -> totals_consistent u.
Proof.
  unfold transformUser. intros H.
  inv_bind H rawUserId n1 H1. inv_bind H uid n2 H2.
  inv_bind H hs n3 H3. inv_bind H absorbed n4 H4.
  inv_bind H ps n5 H5. inv_bind H progs n6 H6.
  apply ret_Ok in H as [-> _].
  split; simpl; [apply sumEngagement_sumOf | apply sumAmount_sumOf].
Qed.

(** C2. Every entity [transformUser] returns, and every entity of a batch
    handed to the loader (deduplicated, filtered, totals recomputed), has
    [totalEngagement] the sum of its posts' engagement and [totalSales] the
    sum of its attributions' amounts; and [transformUser] returns the same
    whatever [totalEngagement] and [totalSales] the raw record carries. *)
Theorem totals_are_recomputed :
  forall rt : Runtime,
    (forall raw n u n',
        transformUser rt raw n = Ok (u, n') -> totals_consistent u)
    /\ (forall processedUserIds currentBatch u,
          In u (batchForLoader processedUserIds currentBatch) ->
          totals_consistent u)
    /\ (forall fields v w n,
          transformUser rt (JObject (("totalEngagement"%string, v)
                                     :: ("totalSales"%string, w) :: fields)) n
          = transformUser rt (JObject fields) n).
Proof.
  intros rt. split; [| split].
  - intros raw n u n'. apply transformUser_consistent.
  - intros processed batch u Hin. unfold batchForLoader in Hin.
    apply in_map_iff in Hin. destruct Hin as [u0 [<- _]].
    apply recalculateTotals_consistent.
  - intros fields v w n. reflexivity.
Qed.

(* ================================================================== *)
(** ** [parseTimestamp] *)

Lemma truthy_number (q : Q) :
  truthy (JNumber (Num q)) = true <-> ~ (q == 0)%Q.
Proof.
  simpl. rewrite negb_true_iff. split.
  - intros H E. apply Qeq_bool_iff in E. congruence.
  - intros H. destruct (Qeq_bool q 0) eqn:E; [| reflexivity].
    apply Qeq_bool_iff in E. contradiction.
Qed.

(** C8, as amended.  A number that is not zero and at most 10,000,000,000
    (every negative number included) is read as epoch seconds and
    multiplied by 1000; a number above 10,000,000,000 is read as epoch
    milliseconds; either way the result is the [Date] of that time value,
    whose time is the value truncated when it is in the range of [Date].
    Zero yields no date.  A string that is not empty is parsed by the
    host's date parsing and yields no date when that fails; the empty
    string yields no date.  A [Date] is returned as it is, and every other
    value yields no date. *)
Theorem parseTimestamp_cases :
  forall rt : Runtime,
    (forall q, ~ (q == 0)%Q -> (q <= 10000000000)%Q ->
               parseTimestamp rt (JNumber (Num q))
               = Some (newDate (Num (q * 1000))))
    /\ (forall q, (10000000000 < q)%Q ->
                  parseTimestamp rt (JNumber (Num q)) = Some (newDate (Num q)))
    /\ (forall t, (Qabs t <= 8640000000000000)%Q ->
                  getTime (newDate (Num t)) = Some (Qtrunc t))
    /\ (forall q, (q == 0)%Q -> parseTimestamp rt (JNumber (Num q)) = None)
    /\ (forall s, s <> ""%string ->
                  parseTimestamp rt (JString s)
                  = match DateParse rt s with
                    | Some t => Some (mkDate (Some t))
                    | None => None
                    end)
    /\ parseTimestamp rt (JString "") = None
    /\ (forall d, parseTimestamp rt (JDateObj d) = Some d)
    /\ (forall v, match v with
                  | JNumber _ | JString _ | JDateObj _ => True
                  | _ => parseTimestamp rt v = None
                  end).
Proof.
  intros rt. repeat split.
  - intros q Hq Hle. unfold parseTimestamp.
    apply truthy_number in Hq. rewrite Hq. simpl.
    assert (L : Qltb 10000000000 q = false) by now apply Qltb_false.
    now rewrite L.
  - intros q Hlt. unfold parseTimestamp.
    assert (Hq : truthy (JNumber (Num q)) = true)
      by (apply truthy_number; lra).
    rewrite Hq. simpl.
    assert (L : Qltb 10000000000 q = true) by now apply Qltb_true.
    now rewrite L.
  - intros t Ht. unfold newDate. apply Qle_bool_iff in Ht. now rewrite Ht.
  - intros q Hq. unfold parseTimestamp. simpl.
    apply Qeq_bool_iff in Hq. now rewrite Hq.
  - intros s Hs. unfold parseTimestamp. simpl.
    apply String.eqb_neq in Hs. now rewrite Hs.
  - intros v. destruct v as [| | [|] | | | | |]; try exact I; reflexivity.
Qed.

(* ================================================================== *)
(** ** [transformSocialPosts] *)



Lemma fresh_nonEmpty (prefix suffix : string) :
  nonEmpty (prefix ++ "_" ++ suffix) = true.
Proof. now destruct prefix. Qed.

(** An identifier, given or synthetic, is never empty. *)
Lemma idOrFresh_nonEmpty (rt : Runtime) (prefix : string) (v : JsValue)
      (n n' : nat) (s : string) :
  idOrFresh rt prefix v n = Ok (s, n') -> nonEmpty s = true.
Proof.
  unfold idOrFresh, freshId.
  destruct (truthy v).
  - destruct v; try discriminate.
    destruct (negb (String.eqb (trim s0) "")) eqn:E.
    + intros H. apply ret_Ok in H as [-> _].
      destruct s0; [discriminate | reflexivity].
    + intros [= <- _]. apply fresh_nonEmpty.
  - intros [= <- _]. apply fresh_nonEmpty.
Qed.






(* ================================================================== *)
(** ** [transformPrograms] *)

Lemma nonEmpty_true (s : string) : nonEmpty s = true <-> s <> ""%string.
Proof.
  unfold nonEmpty. rewrite negb_true_iff. apply String.eqb_neq.
Qed.

Lemma transformProgram_kept (rt : Runtime) (raw : JsValue) (n n' : nat)
      (p : Program) :
  transformProgram rt raw n = Ok (p, n') ->
  (keepProgram p = true <-> brandKept rt (getProp raw "brand")).
Proof.
  unfold transformProgram. intros H.
  inv_bind H pid n1 H1. inv_bind H b n2 H2.
  apply ret_Ok in H as [-> _].
  apply idOrFresh_nonEmpty in H1.
  unfold keepProgram, brandKept. cbn [programId programName].
  rewrite H1. cbn [andb].
  rewrite andb_true_iff, negb_true_iff, nonEmpty_true, String.eqb_neq.
  destruct (truthy (getProp raw "brand")) eqn:T.
  - apply lift_Ok in H2 as [H2 _]. rewrite H2. split.
    + intros [Hb1 Hb2]. split; [reflexivity |]. now exists b.
    + intros [_ (s & [= <-] & Hs1 & Hs2)]. now split.
  - apply ret_Ok in H2 as [-> _]. split.
    + intros [_ Hb]. now contradiction Hb.
    + intros [Hf _]. discriminate.
Qed.

(** C7, as amended.  [transformPrograms] maps every raw program that is an
    object to one candidate and keeps the candidate if and only if the raw
    [brand] is truthy and its string form is neither empty nor
    ["Unknown Program"]; for a [brand] that is a string this says: neither
    empty nor the placeholder (so a brand of spaces only is kept).  What
    [transformUser] absorbs of a program's tasks and sales does not depend
    on its [brand]. *)
Theorem program_kept_iff_brand :
  forall rt : Runtime,
    (forall (l : list JsValue) (n n' : nat) (ps : list Program),
        transformPrograms rt (JArray l) n = Ok (ps, n') ->
        exists qs : list Program,
          Forall2 (fun raw q =>
                     keepProgram q = true
                     <-> brandKept rt (getProp raw "brand"))
                  (filter isObjectLike l) qs
          /\ ps = filter keepProgram qs)
    /\ (forall s : string,
          brandKept rt (JString s) <-> s <> ""%string /\ s <> unknownProgram)
    /\ (forall acc fields b n,
          absorbProgram rt acc (JObject (("brand"%string, b) :: fields)) n
          = absorbProgram rt acc (JObject fields) n).
Proof.
  intros rt. split; [| split].
  - intros l n n' ps H. unfold transformPrograms in H.
    inv_bind H qs n1 Hqs. apply ret_Ok in H as [-> _].
    exists qs. split; [| reflexivity].
    eapply mapM_Forall2; [| exact Hqs].
    intros x m y m'. apply transformProgram_kept.
  - intros s. unfold brandKept. simpl.
    rewrite negb_true_iff, String.eqb_neq. split.
    + intros [Hs (s' & [= <-] & _ & Hu)]. now split.
    + intros [Hs Hu]. split; [exact Hs |]. now exists s.
  - intros acc fields b n. reflexivity.
Qed.

(* ================================================================== *)
(** ** What the flexible schema lets through *)

Lemma mapO_Forall2 {A B : Type} (f : A -> option B) (R : A -> B -> Prop) :
  (forall x y, f x = Some y -> R x y) ->
  forall l l', mapO f l = Some l' -> Forall2 R l l'.
Proof.
  intros Hf. induction l as [| x l IH]; intros l' H; simpl in H.
  - injection H as <-. constructor.
  - destruct (f x) as [y |] eqn:Fx; [| discriminate].
    destruct (mapO f l) as [ys |]; [| discriminate].
    injection H as <-. constructor; auto.
Qed.

Lemma parseField_spec (fields : list (string * JsValue))
      (entry : string * Schema) (p : list (string * JsValue)) :
  parseField fields entry = Some p -> fieldParsed fields entry p.
Proof.
  unfold parseField, fieldParsed, lookup, map_has.
  destruct (snd entry _) as [r |] eqn:S; [| discriminate].
  intros H. exists r. split; [reflexivity |].
  destruct r; try (injection H as <-; now left).
  destruct (map_get (fst entry) fields); injection H as <-; auto.
Qed.

Lemma parsed_skip (fields ex : list (string * JsValue)) (k : string)
      (shape : list (string * Schema)) (parsed : list (list (string * JsValue))) :
  Forall2 (fieldParsed fields) shape parsed ->
  ~ In k (map fst shape) ->
  map_get k (List.concat parsed ++ ex) = map_get k ex.
Proof.
  induction 1 as [| entry p shape parsed (r & _ & Hp) _ IH]; intros Hni;
    simpl; [reflexivity |].
  simpl in Hni.
  destruct Hp as [-> | (-> & _ & _)]; simpl.
  - destruct (String.eqb k (fst entry)) eqn:E.
    + apply String.eqb_eq in E. subst k. tauto.
    + apply IH. tauto.
  - apply IH. tauto.
Qed.

Lemma parsed_lookup (fields ex : list (string * JsValue)) (k : string)
      (s : Schema) (shape : list (string * Schema))
      (parsed : list (list (string * JsValue))) :
  Forall2 (fieldParsed fields) shape parsed ->
  NoDup (map fst shape) ->
  In (k, s) shape ->
  (map_get k fields = None -> map_get k ex = None) ->
  exists r, s (lookup k fields) = Some r
            /\ lookup k (List.concat parsed ++ ex) = r.
Proof.
  induction 1 as [| entry p shape parsed (r & Hr & Hp) Hrest IH];
    intros Hnd Hin Hex; [contradiction |].
  simpl in Hnd. apply NoDup_cons_iff in Hnd as [Hni Hnd].
  destruct Hin as [-> | Hin].
  - simpl in *. exists r. split; [exact Hr |].
    destruct Hp as [-> | (-> & -> & Hnone)]; unfold lookup; simpl.
    + now rewrite String.eqb_refl.
    + rewrite (parsed_skip fields ex k shape parsed Hrest Hni).
      now rewrite (Hex Hnone).
  - destruct (IH Hnd Hin Hex) as (r' & Hr' & Hl). exists r'.
    split; [exact Hr' |].
    assert (Hne : String.eqb k (fst entry) = false).
    { apply String.eqb_neq. intros ->. apply Hni.
      now apply (in_map fst) in Hin. }
    unfold lookup in *.
    destruct Hp as [-> | (-> & _ & _)]; simpl; [now rewrite Hne | exact Hl].
Qed.

Lemma filter_get_none {V : Type} (f : string * V -> bool) (k : string)
      (m : JsMap V) :
  map_get k m = None -> map_get k (filter f m) = None.
Proof.
  induction m as [| [k0 v0] m IH]; simpl; [reflexivity |].
  destruct (String.eqb k k0) eqn:E; [discriminate |].
  intros H. destruct (f (k0, v0)); simpl; [rewrite E |]; auto.
Qed.

(** A key of the shape holds, in the parsed object, what its schema made
    of the input's property. *)
Lemma zObjectPassthrough_field (shape : list (string * Schema))
      (v out : JsValue) (k : string) (s : Schema) :
  NoDup (map fst shape) ->
  zObjectPassthrough shape v = Some out ->
  In (k, s) shape ->
  exists fields fields' r,
    v = JObject fields /\ out = JObject fields'
    /\ s (lookup k fields) = Some r /\ lookup k fields' = r.
Proof.
  intros Hnd H Hin. unfold zObjectPassthrough in H.
  destruct v as [| | | | | | | fields]; try discriminate.
  destruct (mapO (parseField fields) shape) as [parsed |] eqn:P;
    [| discriminate].
  injection H as <-.
  apply (mapO_Forall2 _ (fieldParsed fields)) in P;
    [| apply parseField_spec].
  destruct (parsed_lookup fields (filter (passedThrough shape) fields)
              k s shape parsed P Hnd Hin) as (r & Hr & Hl).
  - apply filter_get_none.
  - now exists fields,
      (List.concat parsed ++ filter (passedThrough shape) fields), r.
Qed.

Lemma getProp_lookup (fields : list (string * JsValue)) (k : string) :
  getProp (JObject fields) k = lookup k fields.
Proof. reflexivity. Qed.

Section SchemaFacts.
Variable rt : Runtime.

Lemma stringish_shape (v r : JsValue) :
  stringish rt v = Some r -> strOrNullish r.
Proof.
  unfold stringish, zOptional, zNullable, zTransform, zUnion, zString,
    zNumber, toStringValue.
  destruct v as [| | | [| q] | | | |]; simpl; intros H;
    try discriminate; try (injection H as <-; exact I).
Qed.

Lemma optString_shape (v r : JsValue) :
  optString v = Some r -> strOrNullish r.
Proof.
  unfold optString, zOptional, zNullable, zString.
  destruct v; simpl; intros H;
    try discriminate; try (injection H as <-; exact I).
Qed.

Lemma numberish_shape (v r : JsValue) :
  numberish rt v = Some r -> numOrNullish r.
Proof.
  unfold numberish, zOptional, zNullable, zTransform, zUnion, zString,
    zNumber, toNumberValue.
  destruct v as [| | | [| q] | | | |]; simpl; intros H;
    try discriminate; try (injection H as <-; exact I).
Qed.

Lemma zArray_shape (s : Schema) (P : JsValue -> Prop) (v r : JsValue) :
  (forall x y, s x = Some y -> P y) ->
  zOptional (zNullable (zArray s)) v = Some r -> arrayOrNullish P r.
Proof.
  intros Hs. unfold zOptional, zNullable, zArray.
  destruct v as [| | | | | | l |]; simpl; intros H;
    try discriminate; try (injection H as <-; exact I).
  destruct (mapO s l) as [l' |] eqn:E; [| discriminate].
  injection H as <-. simpl.
  apply (mapO_Forall2 _ (fun _ y => P y)) in E; [| exact Hs].
  clear -E. induction E; constructor; auto.
Qed.

Lemma platform_shape (v r : JsValue) :
  zOptional (zNullable
    (zPipe (zTransform (zTransform (zUnion [zString; zNumber])
                                   (toStringValue rt))
                       lowerTrim)
           (zCatch socialPlatformSchema (JString "other")))) v = Some r ->
  strOrNullish r.
Proof.
  unfold zOptional, zNullable, zPipe, zTransform, zUnion, zString, zNumber,
    zCatch, socialPlatformSchema, zEnum, toStringValue, lowerTrim.
  destruct v as [| | | [| q] | | | |]; simpl; intros H;
    try discriminate; try (injection H as <-; exact I).
  all: match type of H with
       | context [if ?c then _ else _] => destruct c
       end; injection H as <-; exact I.
Qed.

Ltac shape_nodup :=
  simpl; repeat (constructor; [simpl; intuition discriminate |]);
  constructor.

(** For a goal about a key of the parsed object: what the key's schema
    returned, handed to [fin]. *)
Ltac field_shape H fin :=
  match goal with
  | |- _ (lookup ?k _) =>
      match type of H with
      | zObjectPassthrough ?shape _ = _ =>
          match shape with
          | context [(k, ?s)] =>
              let fields := fresh "fields" in
              let fs' := fresh "fs" in
              let r := fresh "r" in
              let Hv := fresh "Hv" in
              let Ho := fresh "Ho" in
              let Hr := fresh "Hr" in
              let Hl := fresh "Hl" in
              destruct (zObjectPassthrough_field shape _ _ k s
                          ltac:(shape_nodup) H ltac:(simpl; tauto))
                as (fields & fs' & r & Hv & Ho & Hr & Hl);
              injection Ho as <-; rewrite Hl; fin Hr
          end
      end
  end.

Lemma zObjectPassthrough_object (shape : list (string * Schema))
      (v out : JsValue) :
  zObjectPassthrough shape v = Some out -> isObject out.
Proof.
  unfold zObjectPassthrough. destruct v; try discriminate.
  destruct (mapO _ _); [| discriminate]. now intros [= <-].
Qed.

Ltac primitive_shape Hr :=
  first [ exact (stringish_shape _ _ Hr)
        | exact (optString_shape _ _ Hr)
        | exact (platform_shape _ _ Hr)
        | exact (numberish_shape _ _ Hr) ].

Lemma flexibleSocialPostSchema_good (v out : JsValue) :
  flexibleSocialPostSchema rt v = Some out -> goodPost out.
Proof.
  intros H. unfold flexibleSocialPostSchema in H.
  pose proof (zObjectPassthrough_object _ _ _ H) as Hobj.
  destruct out as [| | | | | | | fs]; try contradiction.
  unfold goodPost. rewrite !getProp_lookup.
  split; [exact I |].
  repeat split; field_shape H ltac:(fun Hr => primitive_shape Hr).
Qed.

Lemma flexibleProgramSchema_good (v out : JsValue) :
  flexibleProgramSchema rt v = Some out -> goodProgram out.
Proof.
  intros H. unfold flexibleProgramSchema in H.
  pose proof (zObjectPassthrough_object _ _ _ H) as Hobj.
  destruct out as [| | | | | | | fs]; try contradiction.
  unfold goodProgram. rewrite !getProp_lookup.
  split; [exact I |].
  repeat split;
    field_shape H
      ltac:(fun Hr =>
              first [ primitive_shape Hr
                    | exact (zArray_shape _ goodPost _ _
                               flexibleSocialPostSchema_good Hr) ]).
Qed.

Lemma flexibleUserSchema_good (v out : JsValue) :
  flexibleUserSchema rt v = Some out -> goodUser out.
Proof.
  intros H. unfold flexibleUserSchema in H.
  pose proof (zObjectPassthrough_object _ _ _ H) as Hobj.
  destruct out as [| | | | | | | fs]; try contradiction.
  unfold goodUser. rewrite !getProp_lookup.
  split; [exact I |].
  repeat split;
    field_shape H
      ltac:(fun Hr =>
              first [ primitive_shape Hr
                    | exact (zArray_shape _ goodProgram _ _
                               flexibleProgramSchema_good Hr) ]).
Qed.
End SchemaFacts.

(* ================================================================== *)
(** ** [transformUser] does not throw on validated input *)

Lemma bind_run {A B : Type} (m : M A) (f : A -> M B) (n n1 : nat) (a : A) :
  m n = Ok (a, n1) -> bind m f n = f a n1.
Proof. unfold bind. now intros ->. Qed.

Ltac run H := rewrite (bind_run _ _ _ _ _ H); cbv beta.

Lemma mapM_returns {A B : Type} (f : A -> M B) (l : list A) :
  Forall (fun x => returns (f x)) l -> returns (mapM f l).
Proof.
  induction 1 as [| x l Hx _ IH]; intros n; simpl.
  - now exists [], n.
  - destruct (Hx n) as (y & n1 & Hy). run Hy.
    destruct (IH n1) as (ys & n2 & Hys). run Hys.
    now exists (y :: ys), n2.
Qed.

Section Totality.
Variable rt : Runtime.

Lemma idOrFresh_returns (prefix : string) (v : JsValue) :
  strOrNullish v -> returns (idOrFresh rt prefix v).
Proof.
  intros Hv n. unfold idOrFresh, freshId, ret.
  destruct v; try contradiction; simpl; eauto.
  destruct (negb (String.eqb s "")); eauto.
  destruct (negb (String.eqb (trim s) "")); eauto.
Qed.

Lemma js_Number_returns (v : JsValue) :
  numOrNullish v -> exists x, js_Number rt v = Ok x.
Proof. destruct v; try contradiction; simpl; eauto. Qed.

Lemma lift_Number_run (v : JsValue) (n : nat) :
  numOrNullish v ->
  exists x, lift (js_Number rt v) n = Ok (x, n).
Proof.
  intros Hv. destruct (js_Number_returns v Hv) as (x & ->). now exists x.
Qed.

Lemma transformPost_returns (post : JsValue) :
  goodPost post -> returns (transformPost rt post).
Proof.
  intros (_ & Hid & _ & Hurl & Hl & Hc & Hs & Hr) n.
  unfold transformPost.
  destruct (idOrFresh_returns "task" _ Hid n) as (tid & n1 & H1). run H1.
  destruct (lift_Number_run _ n1 Hl) as (xl & Hxl). run Hxl.
  destruct (lift_Number_run _ n1 Hc) as (xc & Hxc). run Hxc.
  destruct (lift_Number_run _ n1 Hs) as (xs & Hxs). run Hxs.
  destruct (lift_Number_run _ n1 Hr) as (xr & Hxr). run Hxr.
  destruct (getProp post "post_url") as [| | | | s | | |];
    try contradiction; simpl; unfold bind, ret; simpl; eauto.
  destruct (negb (String.eqb s "")); simpl; eauto.
Qed.

Lemma Forall_filter {A : Type} (P : A -> Prop) (f : A -> bool) (l : list A) :
  Forall P l -> Forall P (filter f l).
Proof.
  induction 1 as [| x l Hx _ IH]; simpl; [constructor |].
  destruct (f x); [constructor |]; auto.
Qed.

Lemma transformSocialPosts_returns (posts : list JsValue) :
  Forall goodPost posts -> returns (transformSocialPosts rt posts).
Proof.
  intros H n. unfold transformSocialPosts.
  destruct (mapM_returns (transformPost rt) (filter isObjectLike posts))
    with (n := n) as (ps & n1 & Hps).
  - apply Forall_filter. revert H. apply Forall_impl.
    intros p. apply transformPost_returns.
  - run Hps. unfold ret. eauto.
Qed.

Lemma transformProgram_returns (program : JsValue) :
  goodProgram program -> returns (transformProgram rt program).
Proof.
  intros (_ & Hid & Hbrand & _) n. unfold transformProgram.
  destruct (idOrFresh_returns "program" _ Hid n) as (pid & n1 & H1). run H1.
  destruct (getProp program "brand") as [| | | | s | | |];
    try contradiction; simpl; unfold bind, ret; simpl; eauto.
  destruct (negb (String.eqb s "")); simpl; eauto.
Qed.

Lemma transformPrograms_returns (programs : JsValue) :
  arrayOrNullish goodProgram programs ->
  returns (transformPrograms rt programs).
Proof.
  intros H n. unfold transformPrograms.
  destruct programs as [| | | | | | l |]; try contradiction;
    try (unfold ret; now eauto).
  destruct (mapM_returns (transformProgram rt) (filter isObjectLike l))
    with (n := n) as (ps & n1 & Hps).
  - apply Forall_filter. simpl in H. revert H. apply Forall_impl.
    intros p. apply transformProgram_returns.
  - run Hps. unfold ret. eauto.
Qed.

(** One program absorbed: no exception, and the tasks collected so far
    are still validated posts. *)
Lemma absorbProgram_returns (program : JsValue)
      (acc : list JsValue * list SalesAttribution) (n : nat) :
  goodProgram program -> Forall goodPost (fst acc) ->
  exists acc', absorbProgram rt acc program n = Ok (acc', n)
               /\ Forall goodPost (fst acc').
Proof.
  intros (Hobj & Hid & _ & Htasks & Hsales) Hacc.
  unfold absorbProgram.
  destruct program as [| | | | | | | fs]; try contradiction.
  cbn [isObjectLike].
  destruct (lift_Number_run _ n Hsales) as (x & Hx). run Hx.
  set (allPosts := match getProp (JObject fs) "tasks_completed" with
                   | JArray ts => fst acc ++ ts
                   | _ => fst acc
                   end).
  assert (Hall : Forall goodPost allPosts).
  { unfold allPosts.
    destruct (getProp (JObject fs) "tasks_completed"); try exact Hacc.
    apply Forall_app. split; [exact Hacc | exact Htasks]. }
  destruct (getProp (JObject fs) "program_id") as [| | | | s | | |];
    try contradiction; simpl; unfold ret; eauto.
  destruct (negb (String.eqb s "")); simpl; eauto.
  match goal with
  | |- context [if ?c then _ else _] => destruct c
  end; eauto.
Qed.

Lemma absorb_all_returns (l : list JsValue)
      (acc : list JsValue * list SalesAttribution) (n : nat) :
  Forall goodProgram l -> Forall goodPost (fst acc) ->
  exists acc', foldM (absorbProgram rt) l acc n = Ok (acc', n)
               /\ Forall goodPost (fst acc').
Proof.
  intros Hl. revert acc. induction Hl as [| p l Hp _ IH]; intros acc Hacc;
    simpl.
  - exists acc. now split.
  - destruct (absorbProgram_returns p acc n Hp Hacc) as (acc1 & H1 & Hg).
    run H1. now apply IH.
Qed.

Lemma transformSocialHandles_returns (handles : list (string * JsValue)) :
  Forall (fun h => strOrNullish (snd h)) handles ->
  returns (transformSocialHandles handles).
Proof.
  intros H n. unfold transformSocialHandles.
  match goal with
  | |- context [mapM ?f handles] =>
      destruct (mapM_returns f handles) with (n := n) as (hs & n1 & Hhs)
  end.
  - revert H. apply Forall_impl. intros [p v] Hv m. simpl in *.
    destruct v; try contradiction; simpl; unfold bind, ret; simpl; eauto.
    destruct (negb (String.eqb s "")); simpl; eauto.
  - run Hhs. unfold ret. eauto.
Qed.

Lemma transformUser_returns (rawData : JsValue) :
  goodUser rawData ->
  forall n, exists u n',
      transformUser rt rawData n = Ok (u, n')
      /\ nonEmpty (userId u) = true.
Proof.
  intros (Hobj & Hid & Hig & Htt & Hprogs) n.
  destruct rawData as [| | | | | | | fs]; try contradiction.
  unfold transformUser.
  assert (H0 : getPropM (JObject fs) "user_id" n
               = Ok (getProp (JObject fs) "user_id", n)) by reflexivity.
  run H0.
  destruct (idOrFresh_returns "user" _ Hid n) as (uid & n1 & H1).
  pose proof (idOrFresh_nonEmpty _ _ _ _ _ _ H1) as Hne.
  run H1. cbv zeta.
  match goal with
  | |- context [transformSocialHandles ?hs] =>
      destruct (transformSocialHandles_returns hs) with (n := n1)
        as (handles & n2 & H2)
  end.
  { apply Forall_app. split.
    - destruct (truthy _); repeat constructor. exact Hig.
    - destruct (truthy _); repeat constructor. exact Htt. }
  run H2.
  assert (H3 : exists acc',
             match getProp (JObject fs) "advocacy_programs" with
             | JArray l => foldM (absorbProgram rt) l ([], [])
             | _ => ret ([], [])
             end n2 = Ok (acc', n2)
             /\ Forall goodPost (fst acc')).
  { destruct (getProp (JObject fs) "advocacy_programs");
      try contradiction;
      try (exists ([], []); split; [reflexivity | constructor]).
    apply absorb_all_returns; [exact Hprogs | constructor]. }
  destruct H3 as (acc' & H3 & Hposts). run H3.
  destruct (transformSocialPosts_returns _ Hposts n2) as (ps & n3 & H4).
  run H4.
  destruct (transformPrograms_returns _ Hprogs n3) as (progs & n4 & H5).
  run H5.
  unfold ret. eexists. eexists. split; [reflexivity | exact Hne].
Qed.
End Totality.

(** C3. For every input [validateUser] accepts, [transformUser] applied to
    the validator's normalized data returns an entity, from every state of
    the identifier source, without throwing; the entity's identifier is
    not empty. *)
Theorem transformUser_total_on_validated :
  forall (rt : Runtime) (input : JsValue),
    success (validateUser rt input) = true ->
    exists raw : JsValue,
      data (validateUser rt input) = Some raw
      /\ forall n, exists u n',
           transformUser rt raw n = Ok (u, n')
           /\ nonEmpty (userId u) = true.
Proof.
  intros rt input. unfold validateUser.
  destruct (flexibleUserSchema rt input) as [raw |] eqn:E;
    [| discriminate].
  intros _. exists raw. split; [reflexivity |].
  apply transformUser_returns.
  exact (flexibleUserSchema_good rt _ _ E).
Qed.

(* ================================================================== *)
(** * Closed examples *)

Open Scope string_scope.

Example transformUser_rawU1 :
  transformUser sampleRuntime rawU1 0%nat = Ok (entityU1, 0%nat).
Proof. reflexivity. Qed.

(** C1 fails.  The entity of the specification's example, merged with
    itself, has its one sales attribution doubled (100 for 50) and
    [totalSales] 100 for 50; an entity that holds one [postId] twice keeps
    one of the two posts, and its [totalEngagement] drops from 12 to 7. *)
Lemma self_merge_not_idempotent :
  map recalculateTotals (deduplicateUsers [entityU1; entityU1])
  = [recalculateTotals (mergeUsers entityU1 entityU1)]
  /\ salesAttributions (recalculateTotals (mergeUsers entityU1 entityU1))
     = [{| sale_programId := "p1"; amount := 100 |}]
  /\ totalSales (recalculateTotals (mergeUsers entityU1 entityU1)) = 100%Q
  /\ ~ self_merge_idempotent entityU1
  /\ posts (recalculateTotals (mergeUsers entityTwoT1 entityTwoT1))
     = [postT1 "instagram" 7 0 0]
  /\ totalEngagement (recalculateTotals (mergeUsers entityTwoT1 entityTwoT1))
     = 7%Q
  /\ ~ self_merge_idempotent entityTwoT1.
Proof.
  repeat split; try reflexivity.
  - intros (_ & _ & _ & _ & _ & H). vm_compute in H. discriminate.
  - intros (_ & _ & _ & _ & H & _). vm_compute in H. discriminate.
Qed.

Lemma self_merge_doubles_sales_only_witness :
  NoDup (map handleKey (socialHandles entityU1))
  /\ NoDup (map programId (programs entityU1))
  /\ NoDup (map postId (posts entityU1))
  /\ NoDup (map sale_programId (salesAttributions entityU1))
  /\ (totalEngagement entityU1 == sumEngagement (posts entityU1))%Q
  /\ (totalSales entityU1 == sumAmount (salesAttributions entityU1))%Q
  /\ Forall2 doubles
       (salesAttributions (recalculateTotals (mergeUsers entityU1 entityU1)))
       (salesAttributions entityU1).
Proof.
  assert (H1 : NoDup (map handleKey (socialHandles entityU1)))
    by (simpl; repeat constructor; simpl; tauto).
  assert (H2 : NoDup (map programId (programs entityU1)))
    by (simpl; repeat constructor; simpl; tauto).
  assert (H3 : NoDup (map postId (posts entityU1)))
    by (simpl; repeat constructor; simpl; tauto).
  assert (H4 : NoDup (map sale_programId (salesAttributions entityU1)))
    by (simpl; repeat constructor; simpl; tauto).
  assert (H5 : (totalEngagement entityU1 == sumEngagement (posts entityU1))%Q)
    by reflexivity.
  assert (H6 : (totalSales entityU1
                == sumAmount (salesAttributions entityU1))%Q)
    by reflexivity.
  repeat (split; [assumption |]).
  exact (proj1 (proj2 (proj2 (proj2 (proj2
           (self_merge_doubles_sales_only entityU1 H1 H2 H3 H4 H5 H6)))))).
Defined.

Lemma merge_keeps_post_of_higher_engagement_witness :
  map_get (userId entityTwoT1) [("u2", userOther); ("u3", entityTwoT1)]
  = Some entityTwoT1
  /\ (score entityTwoT1 == score entityTwoT1)%Q
  /\ In "t1" (map postId (posts entityTwoT1))
  /\ dedupStep [("u2", userOther); ("u3", entityTwoT1)] entityTwoT1
     = map_set (userId entityTwoT1) (mergeUsers entityTwoT1 entityTwoT1)
               [("u2", userOther); ("u3", entityTwoT1)]
  /\ exists w,
       filter (hasPostId "t1") (posts (mergeUsers entityTwoT1 entityTwoT1))
       = [w]
       /\ firstHighest
            (filter (hasPostId "t1")
                    (posts entityTwoT1 ++ posts entityTwoT1)) w
       /\ forall p1 p2,
            filter (hasPostId "t1") (posts entityTwoT1) = [p1] ->
            filter (hasPostId "t1") (posts entityTwoT1) = [p2] ->
            w = if Qltb (engagement p1) (engagement p2) then p2 else p1.
Proof.
  assert (H1 : map_get (userId entityTwoT1)
                       [("u2", userOther); ("u3", entityTwoT1)]
               = Some entityTwoT1) by reflexivity.
  assert (H2 : (score entityTwoT1 == score entityTwoT1)%Q) by reflexivity.
  assert (H3 : In "t1" (map postId (posts entityTwoT1)))
    by (simpl; tauto).
  repeat (split; [assumption |]).
  exact (merge_keeps_post_of_higher_engagement
           [("u2", userOther); ("u3", entityTwoT1)] entityTwoT1 entityTwoT1
           "t1" H1 H2 H3 H3).
Defined.

Lemma merge_sums_sales_per_program_witness :
  map_get (userId userB) [("u2", userOther); ("u1", userA)] = Some userA
  /\ (score userB == score userA)%Q
  /\ salesAttributions (mergeUsers userA userB)
     = [{| sale_programId := "p1"; amount := 75 |};
        {| sale_programId := "p2"; amount := 10 |}]
  /\ (forall e,
        In e (salesAttributions (mergeUsers userA userB)) ->
        (amount e
         == amountFor (sale_programId e) (salesAttributions userA)
            + amountFor (sale_programId e) (salesAttributions userB))%Q).
Proof.
  assert (H1 : map_get (userId userB) [("u2", userOther); ("u1", userA)]
               = Some userA) by reflexivity.
  assert (H2 : (score userB == score userA)%Q) by reflexivity.
  repeat (split; [assumption |]).
  split; [reflexivity |].
  exact (proj2 (proj2 (proj2
           (merge_sums_sales_per_program
              [("u2", userOther); ("u1", userA)] userA userB H1 H2)))).
Defined.

(** The same merge, reached through a batch. *)
Example deduplicateUsers_merges_userA_userB :
  deduplicateUsers [userOther; userA; userB]
  = [userOther; mergeUsers userA userB].
Proof. reflexivity. Qed.

(** C4: the record kept is not always the most complete one.  [userA],
    [userB] and [userD] are what [transformUser] makes of three raw
    records of one [user_id].  [userA] scores higher than [userD] (62
    against 21): alone, the two are deduplicated to [userA].  With
    [userB], which ties with [userA], in between, the entry stored when
    [userD] comes is [mergeUsers userA userB], whose totals are 0 until
    they are recalculated and whose score is 20 for that reason (113 once
    recalculated); [userD] replaces it, nothing of [userA] or [userB] is
    left in the result, and a run over the three records loads [userD]
    alone. *)
Theorem merged_record_loses_to_less_complete :
  transformUser sampleRuntime rawA 0%nat = Ok (userA, 0%nat)
  /\ transformUser sampleRuntime rawB 0%nat = Ok (userB, 0%nat)
  /\ transformUser sampleRuntime rawD 0%nat = Ok (userD, 1%nat)
  /\ userId userD = userId userA
  /\ (score userD < score userA)%Q
  /\ deduplicateUsers [userA; userD] = [userA]
  /\ (score userB == score userA)%Q
  /\ deduplicateUsers [userA; userB] = [mergeUsers userA userB]
  /\ (score (mergeUsers userA userB) == 20)%Q
  /\ (score (recalculateTotals (mergeUsers userA userB)) == 113)%Q
  /\ (score userD == 21)%Q
  /\ deduplicateUsers [userA; userB; userD] = [userD]
  /\ option_map (fun st => loaderCalls st)
                (streamAndFlush sampleRuntime (sampleLoader (Num 10))
                                (Num 10) 0%nat [rawA; rawB; rawD])
     = Some [[recalculateTotals userD]].
Proof. repeat split; reflexivity. Qed.

Lemma totals_are_recomputed_witness :
  transformUser sampleRuntime rawU1 0%nat = Ok (entityU1, 0%nat)
  /\ totals_consistent entityU1.
Proof.
  assert (H : transformUser sampleRuntime rawU1 0%nat = Ok (entityU1, 0%nat))
    by reflexivity.
  split; [exact H |].
  exact (proj1 (totals_are_recomputed sampleRuntime) rawU1 0%nat entityU1
               0%nat H).
Defined.

Example transformUser_rawMessy :
  transformUser sampleRuntime rawMessy 0%nat
  = Ok ({| userId := "user123"; name := JUndefined; email := JUndefined;
           socialHandles := []; programs := [];
           posts := [{| postId := "task_0_x";
                        post_platform := JString "Instagram";
                        url := None; likes := 0; comments := 0; shares := 0;
                        reach := 0; engagement := 0 |}];
           salesAttributions := []; joinDate := None;
           totalEngagement := 0; totalSales := 0 |}, 2%nat).
Proof. reflexivity. Qed.

Lemma transformUser_total_on_validated_witness :
  success (validateUser sampleRuntime rawMessy) = true
  /\ exists raw : JsValue,
       data (validateUser sampleRuntime rawMessy) = Some raw
       /\ forall n, exists u n',
            transformUser sampleRuntime raw n = Ok (u, n')
            /\ nonEmpty (userId u) = true.
Proof.
  assert (H : success (validateUser sampleRuntime rawMessy) = true)
    by reflexivity.
  split; [exact H |].
  exact (transformUser_total_on_validated sampleRuntime rawMessy H).
Defined.


(** C7 fails for a brand of spaces only: it is blank, and the program is
    kept. *)
Lemma blank_brand_is_kept :
  isBlank "   " = true
  /\ transformPrograms sampleRuntime
       (JArray [JObject [("program_id", JString "p1");
                         ("brand", JString "   ")]]) 0%nat
     = Ok ([{| programId := "p1"; programName := "   " |}], 0%nat).
Proof. split; reflexivity. Qed.

Lemma program_kept_iff_brand_witness :
  transformPrograms sampleRuntime
    (JArray [JObject [("program_id", JString "p1");
                      ("brand", JString "Acme")]]) 0%nat
  = Ok ([{| programId := "p1"; programName := "Acme" |}], 0%nat)
  /\ exists qs : list Program,
       Forall2 (fun raw q =>
                  keepProgram q = true
                  <-> brandKept sampleRuntime (getProp raw "brand"))
               (filter isObjectLike
                       [JObject [("program_id", JString "p1");
                                 ("brand", JString "Acme")]]) qs
       /\ [{| programId := "p1"; programName := "Acme" |}]
          = filter keepProgram qs.
Proof.
  assert (H : transformPrograms sampleRuntime
                (JArray [JObject [("program_id", JString "p1");
                                  ("brand", JString "Acme")]]) 0%nat
              = Ok ([{| programId := "p1"; programName := "Acme" |}], 0%nat))
    by reflexivity.
  split; [exact H |].
  exact (proj1 (program_kept_iff_brand sampleRuntime) _ _ _ _ H).
Defined.

(** C8 fails at zero: a number of magnitude at most 10,000,000,000, which
    read as epoch seconds is the date of time value 0, yields no date. *)
Lemma zero_timestamp_is_no_date :
  parseTimestamp sampleRuntime (JNumber (Num 0)) = None
  /\ newDate (Num (0 * 1000)) = mkDate (Some 0%Z).
Proof. split; reflexivity. Qed.

Lemma parseTimestamp_cases_witness :
  ~ (1700000000 == 0)%Q
  /\ (1700000000 <= 10000000000)%Q
  /\ parseTimestamp sampleRuntime (JNumber (Num 1700000000))
     = Some (newDate (Num (1700000000 * 1000))).
Proof.
  assert (H1 : ~ (1700000000 == 0)%Q) by (intro H; vm_compute in H; discriminate).
  assert (H2 : (1700000000 <= 10000000000)%Q)
    by (intro H; vm_compute in H; discriminate).
  repeat (split; [assumption |]).
  exact (proj1 (parseTimestamp_cases sampleRuntime) 1700000000 H1 H2).
Defined.

(* ================================================================== *)
(** * Further properties of the code *)

Close Scope string_scope.

(** ** [transformUser]: what it records *)

Lemma foldM_invariant {A B : Type} (f : A -> B -> M A) (P : A -> Prop) :
  (forall a x n a' n', f a x n = Ok (a', n') -> P a -> P a') ->
  forall l a n a' n', foldM f l a n = Ok (a', n') -> P a -> P a'.
Proof.
  intros Hf. induction l as [| x l IH]; intros a n a' n' H Ha; simpl in H.
  - apply ret_Ok in H as [-> _]. exact Ha.
  - inv_bind H a1 n1 H1. eapply IH; [exact H |]. eapply Hf; eassumption.
Qed.

Lemma absorbProgram_sales (rt : Runtime)
      (acc acc' : list JsValue * list SalesAttribution) (program : JsValue)
      (n n' : nat) :
  absorbProgram rt acc program n = Ok (acc', n') ->
  Forall saleRecordable (snd acc) -> Forall saleRecordable (snd acc').
Proof.
  unfold absorbProgram. intros H Hacc.
  destruct (isObjectLike program);
    [| apply ret_Ok in H as [-> _]; exact Hacc].
  inv_bind H x n1 Hx.
  destruct (truthy (getProp program "program_id"));
    [| apply ret_Ok in H as [-> _]; exact Hacc].
  destruct (getProp program "program_id") as [| | | | s | | |];
    try discriminate.
  match type of H with
  | (if ?c then _ else _) _ = _ => destruct c eqn:C
  end; apply ret_Ok in H as [-> _]; [| exact Hacc].
  simpl. apply Forall_app. split; [exact Hacc |].
  apply andb_true_iff in C as [C Hpos].
  apply andb_true_iff in C as [Hblank _].
  constructor; [| constructor].
  split; simpl.
  - now apply Qltb_true.
  - unfold isBlank. now apply negb_true_iff.
Qed.

(** X1. Sales are recorded only for a positive amount under an identifier that
    is not blank: [transformUser] never returns a sales attribution whose
    amount is zero or negative, or whose [programId] is blank. *)
Theorem transformUser_sales_positive :
  forall (rt : Runtime) (rawData : JsValue) (n n' : nat) (u : User),
    transformUser rt rawData n = Ok (u, n') ->
    Forall saleRecordable (salesAttributions u).
Proof.
  intros rt raw n n' u H. unfold transformUser in H.
  inv_bind H rawUserId n1 H1. inv_bind H uid n2 H2.
  inv_bind H hs n3 H3. inv_bind H absorbed n4 H4.
  inv_bind H ps n5 H5. inv_bind H progs n6 H6.
  apply ret_Ok in H as [-> _]. simpl.
  destruct (getProp raw "advocacy_programs");
    try (apply ret_Ok in H4 as [-> _]; constructor).
  eapply (foldM_invariant (absorbProgram rt)
            (fun acc => Forall saleRecordable (snd acc)));
    [| exact H4 | constructor].
  intros a x m a' m'. apply absorbProgram_sales.
Qed.

Lemma idOrFresh_value (rt : Runtime) (prefix : string) (v : JsValue)
      (n n' : nat) (s : string) :
  idOrFresh rt prefix v n = Ok (s, n') ->
  s = givenOrSynthetic rt prefix v n.
Proof.
  unfold idOrFresh, freshId, givenOrSynthetic, isBlank.
  destruct v as [| | b | [| q] | t | | |]; simpl;
    try (intros [= <- _]; reflexivity);
    try (destruct b; [discriminate | intros [= <- _]; reflexivity]);
    try (destruct (negb (Qeq_bool q 0));
         [discriminate | intros [= <- _]; reflexivity]);
    try discriminate.
  destruct (String.eqb t "") eqn:E; simpl.
  - apply String.eqb_eq in E. subst t. now intros [= <- _].
  - destruct (String.eqb (trim t) ""); simpl.
    + now intros [= <- _].
    + intros H. now apply ret_Ok in H as [-> _].
Qed.

(** X2. For a raw [user_id] that is no string or a string of ASCII
    characters, the identifier of the transformed record is the raw
    [user_id] when that is a string that is not blank, and otherwise the
    synthetic identifier [user_<clock>_<random>] drawn first. *)
Theorem transformUser_userId :
  forall (rt : Runtime) (rawData : JsValue) (n n' : nat) (u : User),
    asciiText (getProp rawData "user_id") ->
    transformUser rt rawData n = Ok (u, n') ->
    userId u = givenOrSynthetic rt "user" (getProp rawData "user_id") n.
Proof.
  intros rt raw n n' u _ H. unfold transformUser in H.
  inv_bind H rawUserId n1 H1. inv_bind H uid n2 H2.
  inv_bind H hs n3 H3. inv_bind H absorbed n4 H4.
  inv_bind H ps n5 H5. inv_bind H progs n6 H6.
  apply ret_Ok in H as [-> _]. simpl.
  assert (Hr : rawUserId = getProp raw "user_id" /\ n1 = n).
  { unfold getPropM in H1. destruct raw; try discriminate;
      now apply ret_Ok in H1. }
  destruct Hr as [-> ->].
  exact (idOrFresh_value _ _ _ _ _ _ H2).
Qed.

(* ================================================================== *)
(** ** [deduplicateUsers], [deduplicatePrograms], [deduplicateSocialHandles] *)

Lemma dedupStep_fresh (m : JsMap User) (x : User) :
  map_get (userId x) m = None -> dedupStep m x = map_set (userId x) x m.
Proof. intros G. unfold dedupStep. now rewrite G. Qed.

Lemma deduplicateUsers_distinct (users : list User) :
  NoDup (map userId users) -> deduplicateUsers users = users.
Proof.
  intros Hnd. unfold deduplicateUsers.
  rewrite (fold_fresh User User userId (fun u => u) dedupStep
                      dedupStep_fresh users [] Hnd) by reflexivity.
  apply values_of_entries.
Qed.

(** X5. A batch whose identifiers are pairwise distinct comes back as it is,
    in the same order; so [deduplicateUsers] applied to its own result
    changes nothing. *)
Theorem deduplicateUsers_idempotent :
  forall users : list User,
    (NoDup (map userId users) -> deduplicateUsers users = users)
    /\ deduplicateUsers (deduplicateUsers users) = deduplicateUsers users.
Proof.
  intros users. split; [apply deduplicateUsers_distinct |].
  apply deduplicateUsers_distinct.
  exact (keyed_values_NoDup _ _ _
           (dedup_fold_keyed users [] (keyed_nil User userId))).
Qed.

Section FirstWins.
Variables (X : Type) (kf : X -> string).

Lemma firstStep_get (k : string) (m : JsMap X) (x : X) :
  map_get k (firstStep X kf m x)
  = match map_get k m with
    | Some v => Some v
    | None => if String.eqb (kf x) k then Some x else None
    end.
Proof.
  unfold firstStep, map_has.
  destruct (String.eqb (kf x) k) eqn:E.
  - apply String.eqb_eq in E. subst k.
    destruct (map_get (kf x) m) eqn:G; [now rewrite G |].
    now rewrite map_get_set_same.
  - apply String.eqb_neq in E.
    destruct (map_get (kf x) m).
    + now destruct (map_get k m).
    + rewrite map_get_set_other by exact E. now destruct (map_get k m).
Qed.

Lemma firstStep_fold_get (k : string) (l : list X) (m : JsMap X) :
  map_get k (fold_left (firstStep X kf) l m)
  = match map_get k m with
    | Some v => Some v
    | None => firstWith X kf k l
    end.
Proof.
  revert m. induction l as [| x l IH]; intros m; simpl.
  - now destruct (map_get k m).
  - rewrite IH, firstStep_get. destruct (map_get k m); [reflexivity |].
    now destruct (String.eqb (kf x) k).
Qed.

Lemma firstStep_keyed (m : JsMap X) (x : X) :
  keyed X kf m -> keyed X kf (firstStep X kf m x).
Proof.
  intros Hm. unfold firstStep. destruct (map_has (kf x) m); [exact Hm |].
  now apply keyed_set.
Qed.

Lemma firstStep_fold_keyed (l : list X) (m : JsMap X) :
  keyed X kf m -> keyed X kf (fold_left (firstStep X kf) l m).
Proof.
  revert m. induction l as [| x l IH]; intros m Hm; simpl; [exact Hm |].
  apply IH. now apply firstStep_keyed.
Qed.

Lemma keyed_value_get (m : JsMap X) (x : X) :
  keyed X kf m -> (In x (map_values m) <-> map_get (kf x) m = Some x).
Proof.
  intros Hm. split.
  - intros Hin. apply in_map_iff in Hin. destruct Hin as [[k v] [Hv He]].
    simpl in Hv. subst v.
    assert (Hk : kf x = k).
    { destruct Hm as [_ Hf]. rewrite Forall_forall in Hf.
      exact (Hf _ He). }
    rewrite Hk. apply map_get_of_In; [apply Hm | exact He].
  - intros G. apply map_get_some_in in G.
    now apply (in_map snd) in G.
Qed.

(** What a first-wins loop returns: distinct keys, and exactly the
    elements that are the first of the input under their key. *)
Lemma firstWins_spec (l : list X) :
  NoDup (map kf (map_values (fold_left (firstStep X kf) l [])))
  /\ forall x, In x (map_values (fold_left (firstStep X kf) l []))
               <-> firstWith X kf (kf x) l = Some x.
Proof.
  pose proof (firstStep_fold_keyed l [] (keyed_nil X kf)) as Hk.
  split; [exact (keyed_values_NoDup _ _ _ Hk) |].
  intros x. rewrite (keyed_value_get _ x Hk), firstStep_fold_get.
  reflexivity.
Qed.
End FirstWins.

(** X6. [deduplicatePrograms] and [deduplicateSocialHandles] keep, of the
    elements that share a key ([programId]; [platform:handle]), the first
    one of the input and no other: the result has distinct keys and holds
    exactly the elements that come first under their key. *)
Theorem first_occurrence_wins :
  forall (progs : list Program) (handles : list SocialHandle),
    (NoDup (map programId (deduplicatePrograms progs))
     /\ forall p, In p (deduplicatePrograms progs)
                  <-> firstWith Program programId (programId p) progs
                      = Some p)
    /\ (NoDup (map handleKey (deduplicateSocialHandles handles))
        /\ forall h, In h (deduplicateSocialHandles handles)
                     <-> firstWith SocialHandle handleKey (handleKey h)
                                   handles = Some h).
Proof.
  intros progs handles. split.
  - exact (firstWins_spec Program programId progs).
  - exact (firstWins_spec SocialHandle handleKey handles).
Qed.

(* ================================================================== *)
(** ** [deduplicatePosts]: the highest engagement per [postId] *)

Lemma pick_fold_spec (k : string) (l : list SocialPost)
      (o : option SocialPost) :
  (forall e, o = Some e -> postId e = k) ->
  match fold_left (pick k) l o with
  | None => o = None /\ forall q, In q l -> postId q <> k
  | Some w =>
      postId w = k
      /\ (o = Some w \/ In w l)
      /\ (forall q, In q l -> postId q = k -> engagement q <= engagement w)
      /\ (forall e, o = Some e -> engagement e <= engagement w)
  end.
Proof.
  revert o. induction l as [| p l IH]; intros o Ho; simpl.
  - destruct o as [e |].
    + repeat split; auto.
      * intros q [].
      * intros e' [= ->]. lra.
    + split; [reflexivity | intros q []].
  - assert (Ho' : forall e, pick k o p = Some e -> postId e = k).
    { unfold pick, hasPostId. destruct (String.eqb (postId p) k) eqn:E.
      - apply String.eqb_eq in E.
        destruct o as [e0 |].
        + destruct (Qltb _ _); intros e [= <-]; auto.
        + now intros e [= <-].
      - exact Ho. }
    specialize (IH (pick k o p) Ho').
    unfold pick, hasPostId in *.
    destruct (String.eqb (postId p) k) eqn:E.
    + apply String.eqb_eq in E.
      destruct o as [e0 |].
      * destruct (Qltb (engagement e0) (engagement p)) eqn:L.
        -- apply Qltb_true in L.
           destruct (fold_left _ l (Some p)) as [w |];
             [| destruct IH; discriminate].
           destruct IH as (Hw & Hin & Hl & Hb).
           pose proof (Hb p eq_refl) as Hpw.
           split; [exact Hw | split; [| split]].
           ++ right. destruct Hin as [[= ->] | Hin]; [now left | now right].
           ++ intros q [<- | Hq] Hqk; [exact Hpw | now apply Hl].
           ++ intros e [= <-]. lra.
        -- apply Qltb_false in L.
           destruct (fold_left _ l (Some e0)) as [w |];
             [| destruct IH; discriminate].
           destruct IH as (Hw & Hin & Hl & Hb).
           pose proof (Hb e0 eq_refl) as Hew.
           split; [exact Hw | split; [| split]].
           ++ destruct Hin as [Hin | Hin]; [now left | right; now right].
           ++ intros q [<- | Hq] Hqk; [lra | now apply Hl].
           ++ intros e [= <-]. exact Hew.
      * destruct (fold_left _ l (Some p)) as [w |];
          [| destruct IH; discriminate].
        destruct IH as (Hw & Hin & Hl & Hb).
        pose proof (Hb p eq_refl) as Hpw.
        split; [exact Hw | split; [| split]].
        -- right. destruct Hin as [[= ->] | Hin]; [now left | now right].
        -- intros q [<- | Hq] Hqk; [exact Hpw | now apply Hl].
        -- intros e [=].
    + apply String.eqb_neq in E.
      destruct (fold_left _ l o) as [w |].
      * destruct IH as (Hw & Hin & Hl & Hb).
        split; [exact Hw | split; [| split]]; auto.
        -- destruct Hin as [Hin | Hin]; [now left | right; now right].
        -- intros q [<- | Hq] Hqk; [contradiction | now apply Hl].
      * destruct IH as [-> Hl]. split; [reflexivity |].
        intros q [<- | Hq]; [exact E | now apply Hl].
Qed.

(** X7. [deduplicatePosts] returns posts of the input with pairwise distinct
    [postId]s, one for every [postId] of the input, and the one it returns
    has an engagement no lower than any input post of that [postId]. *)
Theorem deduplicatePosts_keeps_maximum :
  forall ps : list SocialPost,
    NoDup (map postId (deduplicatePosts ps))
    /\ (forall p, In p (deduplicatePosts ps) -> In p ps)
    /\ (forall q, In q ps ->
          exists p, In p (deduplicatePosts ps)
                    /\ postId p = postId q
                    /\ engagement q <= engagement p).
Proof.
  intros ps.
  pose proof (posts_fold_keyed ps [] (keyed_nil SocialPost postId)) as Hk.
  unfold deduplicatePosts. split; [| split].
  - exact (keyed_values_NoDup _ _ _ Hk).
  - intros p Hp. apply (keyed_value_get SocialPost postId _ p Hk) in Hp.
    rewrite posts_fold_get in Hp. simpl in Hp.
    pose proof (pick_fold_spec (postId p) ps None) as S.
    rewrite Hp in S. destruct S as (_ & [H | H] & _);
      [discriminate | discriminate | exact H].
  - intros q Hq.
    pose proof (pick_fold_spec (postId q) ps None) as S.
    destruct (fold_left (pick (postId q)) ps None) as [w |] eqn:F.
    + destruct S as (Hw & _ & Hl & _); [discriminate |].
      exists w. split; [| split; [exact Hw | now apply Hl]].
      apply (keyed_value_get SocialPost postId _ w Hk).
      now rewrite posts_fold_get, Hw.
    + destruct S as [_ Hl]; [discriminate |].
      exfalso. exact (Hl q Hq eq_refl).
Qed.

(* ================================================================== *)
(** ** [deduplicateSalesAttributions]: the total is kept *)

Lemma mapTotal_set (k : string) (v : Q) (m : JsMap Q) :
  mapTotal (map_set k v m) == mapTotal m - getQ k m + v.
Proof.
  unfold mapTotal, getQ.
  induction m as [| [k0 c] m IH]; simpl.
  - lra.
  - destruct (String.eqb k k0); simpl; lra.
Qed.

Lemma salesStep_total (m : JsMap Q) (s : SalesAttribution) :
  mapTotal (salesStep m s) == mapTotal m + amount s.
Proof.
  unfold salesStep. rewrite mapTotal_set, orZero_getQ. lra.
Qed.

Lemma sales_fold_total (l : list SalesAttribution) (m : JsMap Q) :
  mapTotal (fold_left salesStep l m) == mapTotal m + sumAmount l.
Proof.
  unfold sumAmount. rewrite fold_sum.
  revert m. induction l as [| s l IH]; intros m; simpl; [lra |].
  rewrite IH, salesStep_total. lra.
Qed.

Lemma sumAmount_app (l1 l2 : list SalesAttribution) :
  sumAmount (l1 ++ l2)%list == sumAmount l1 + sumAmount l2.
Proof.
  rewrite !sumAmount_sumOf, map_app. unfold sumOf.
  induction (map amount l1) as [| x xs IH]; simpl; lra.
Qed.

(** X8. Summing per program keeps the total, for amounts that are whole
    numbers within the range binary64 adds exactly: the amounts
    [deduplicateSalesAttributions] returns add up to the amounts it was
    given.  So the recalculated [totalSales] of a merged entity is the sum
    of the amounts of both operands. *)
Theorem merged_sales_total :
  forall attributions : list SalesAttribution,
    wholeAmounts attributions ->
    sumAmount (deduplicateSalesAttributions attributions)
    == sumAmount attributions
    /\ forall user1 user2 : User,
         (salesAttributions user1 ++ salesAttributions user2)%list
         = attributions ->
         totalSales (recalculateTotals (mergeUsers user1 user2))
         == sumAmount (salesAttributions user1)
            + sumAmount (salesAttributions user2).
Proof.
  assert (H : forall l, sumAmount (deduplicateSalesAttributions l)
                        == sumAmount l).
  { intros l. rewrite sumAmount_sumOf. unfold deduplicateSalesAttributions.
    rewrite map_map. simpl.
    pose proof (sales_fold_total l []) as T. unfold mapTotal in T.
    simpl in T. rewrite T. lra. }
  intros l _. split; [apply H |].
  intros user1 user2 _. simpl. rewrite H. apply sumAmount_app.
Qed.

(* ================================================================== *)
(** ** The flexible schema: platforms, refusals *)

Ltac distinct_keys :=
  simpl; repeat (constructor; [simpl; intuition discriminate |]);
  constructor.

Lemma existsb_eqb_absent (k : string) (keys : list string) :
  ~ In k keys -> existsb (String.eqb k) keys = false.
Proof.
  intros H. destruct (existsb (String.eqb k) keys) eqn:E; [| reflexivity].
  apply existsb_exists in E. destruct E as (x & Hx & Hk).
  apply String.eqb_eq in Hk. now subst x.
Qed.

Lemma platform_field_validated (rt : Runtime) (v r : JsValue) :
  zOptional (zNullable
    (zPipe (zTransform (zTransform (zUnion [zString; zNumber])
                                   (toStringValue rt))
                       lowerTrim)
           (zCatch socialPlatformSchema (JString "other")))) v = Some r ->
  platformValue r
  /\ forall s, v = JString s -> r = JString (normalizedPlatform s).
Proof.
  intros Hr.
  unfold zOptional, zNullable, zPipe, zTransform, zUnion, zString, zNumber,
    zCatch, socialPlatformSchema, zEnum, toStringValue, lowerTrim,
    js_String in Hr.
  destruct v as [| | | [| q] | t | | |];
    cbv beta iota in Hr; try discriminate;
    try (injection Hr as <-; split; [exact I | intros ? [=]]).
  - (* a number *)
    split; [| intros ? [=]].
    match type of Hr with
    | context [if ?c then _ else _] => destruct c eqn:C
    end; injection Hr as <-; simpl.
    + apply existsb_exists in C. destruct C as (x & Hx & E).
      apply String.eqb_eq in E. now subst x.
    + tauto.
  - (* a string *)
    assert (E : r = JString (normalizedPlatform t)).
    { unfold normalizedPlatform, socialPlatforms.
      match type of Hr with
      | context [if ?c then _ else _] => destruct c
      end; now injection Hr as <-. }
    subst r. split; [| now intros s [= ->]].
    unfold normalizedPlatform. cbv zeta.
    destruct (existsb (String.eqb (trim (toLowerCase t))) socialPlatforms)
      eqn:C; [| simpl; tauto].
    apply existsb_exists in C. destruct C as (x & Hx & E).
    apply String.eqb_eq in E. now subst x.
Qed.

(** X10. A validated post's platform is absent, [null] or a member of the
    enumeration; a platform given as a string of ASCII characters is
    lower-cased and trimmed and, when the result is no member, replaced by
    ["other"]. *)
Theorem validated_platform_in_enumeration :
  forall (rt : Runtime) (post out : JsValue),
    flexibleSocialPostSchema rt post = Some out ->
    platformValue (getProp out "platform")
    /\ forall s, getProp post "platform" = JString s ->
                 asciiOnly s = true ->
                 getProp out "platform" = JString (normalizedPlatform s).
Proof.
  intros rt post out H. unfold flexibleSocialPostSchema in H.
  match type of H with
  | zObjectPassthrough ?shape _ = _ =>
      match shape with
      | context [("platform"%string, ?s)] =>
          destruct (zObjectPassthrough_field shape _ _ "platform" s
                      ltac:(distinct_keys) H ltac:(simpl; tauto))
            as (fields & fs & r & -> & -> & Hr & Hl)
      end
  end.
  rewrite !getProp_lookup, Hl. clear H Hl.
  destruct (platform_field_validated rt _ r Hr) as [Hv Hs].
  split; [exact Hv |]. intros t Ht _. exact (Hs t Ht).
Qed.

Lemma optString_input (v r : JsValue) :
  optString v = Some r -> strOrNullish v.
Proof.
  unfold optString, zOptional, zNullable, zString.
  destruct v; simpl; intros H; try discriminate; exact I.
Qed.

Lemma stringish_input (rt : Runtime) (v r : JsValue) :
  stringish rt v = Some r -> idLike v.
Proof.
  unfold stringish, zOptional, zNullable, zTransform, zUnion, zString,
    zNumber.
  destruct v as [| | | [| q] | | | |]; simpl; intros H;
    try discriminate; exact I.
Qed.

Lemma array_input (s : Schema) (v r : JsValue) :
  zOptional (zNullable (zArray s)) v = Some r -> arrayLike v.
Proof.
  unfold zOptional, zNullable, zArray.
  destruct v; simpl; intros H; try discriminate; exact I.
Qed.

(** X11. What [validateUser] accepts is an object whose [user_id] is a string, a
    number, [null] or absent, whose [name], [email] and handles are strings,
    [null] or absent, and whose [advocacy_programs] is an array, [null] or
    absent: anything else (a record that is no object, a name that is a
    number, programs that are no array) is refused. *)
Theorem validateUser_accepts_only_shaped :
  forall (rt : Runtime) (input : JsValue),
    success (validateUser rt input) = true ->
    isObject input
    /\ idLike (getProp input "user_id")
    /\ strOrNullish (getProp input "name")
    /\ strOrNullish (getProp input "email")
    /\ strOrNullish (getProp input "instagram_handle")
    /\ strOrNullish (getProp input "tiktok_handle")
    /\ arrayLike (getProp input "advocacy_programs").
Proof.
  intros rt input. unfold validateUser.
  destruct (flexibleUserSchema rt input) as [raw |] eqn:H;
    [intros _ | discriminate].
  unfold flexibleUserSchema in H.
  assert (Hobj : isObject input).
  { unfold zObjectPassthrough in H. now destruct input. }
  destruct input as [| | | | | | | fields]; try contradiction.
  rewrite !getProp_lookup. split; [exact I |].
  repeat split;
    match goal with
    | |- _ (lookup ?k _) =>
        match type of H with
        | zObjectPassthrough ?shape _ = _ =>
            match shape with
            | context [(k, ?s)] =>
                let f := fresh "f" in
                let fs' := fresh "fs" in
                let r := fresh "r" in
                let Hv := fresh "Hv" in
                let Ho := fresh "Ho" in
                let Hr := fresh "Hr" in
                let Hl := fresh "Hl" in
                destruct (zObjectPassthrough_field shape _ _ k s
                            ltac:(distinct_keys) H ltac:(simpl; tauto))
                  as (f & fs' & r & Hv & Ho & Hr & Hl);
                injection Hv as <-;
                first [ exact (optString_input _ _ Hr)
                      | exact (stringish_input _ _ _ Hr)
                      | exact (array_input _ _ _ Hr) ]
            end
        end
    end.
Qed.

(* ================================================================== *)
(** ** [validateUserBatch] and [transformUserBatch] *)

Lemma validateUser_cases (rt : Runtime) (x : JsValue) :
  (accepted rt x = true
   /\ exists d, data (validateUser rt x) = Some d /\ truthy d = true)
  \/ (accepted rt x = false /\ data (validateUser rt x) = None
      /\ clean rt x = false).
Proof.
  unfold accepted, clean, validateUser.
  destruct (flexibleUserSchema rt x) as [raw |] eqn:E; simpl.
  - left. split; [reflexivity |]. exists raw. split; [reflexivity |].
    apply zObjectPassthrough_object in E. now destruct raw.
  - right. auto.
Qed.

Lemma validate_fold (rt : Runtime) (l : list JsValue) (acc : ValidatedBatch) :
  invalid (fold_left (validateStep rt) l acc)
  = (invalid acc ++ filter (fun x => negb (accepted rt x)) l)%list
  /\ map Some (valid (fold_left (validateStep rt) l acc))
     = (map Some (valid acc)
        ++ map (fun x => data (validateUser rt x))
               (filter (accepted rt) l))%list
  /\ cleanCount (fold_left (validateStep rt) l acc)
     = (cleanCount acc + List.length (filter (clean rt) l))%nat.
Proof.
  revert acc. induction l as [| x l IH]; intros acc; simpl.
  - rewrite !app_nil_r. auto.
  - destruct (IH (validateStep rt acc x)) as (Hi & Hv & Hc).
    rewrite Hi, Hv, Hc. clear IH Hi Hv Hc.
    unfold validateStep.
    destruct (validateUser_cases rt x) as [(Ha & d & Hd & Ht)
                                          | (Ha & Hd & Hcl)].
    + rewrite Hd. unfold accepted, clean in *. rewrite Ha, Ht. simpl.
      rewrite map_app, <- !app_assoc, Hd. simpl.
      repeat split.
      destruct (isClean (validateUser rt x)); simpl; lia.
    + rewrite Hd. unfold accepted, clean in *. rewrite Ha, Hcl. simpl.
      rewrite <- !app_assoc. simpl. repeat split.
Qed.

Lemma filter_split_length {A : Type} (f : A -> bool) (l : list A) :
  (List.length (filter f l)
   + List.length (filter (fun x => negb (f x)) l))%nat = List.length l.
Proof.
  induction l as [| x l IH]; simpl; [reflexivity |].
  destruct (f x); simpl; lia.
Qed.

Lemma filter_length_le {A : Type} (f g : A -> bool) (l : list A) :
  (forall x, f x = true -> g x = true) ->
  (List.length (filter f l) <= List.length (filter g l))%nat.
Proof.
  intros H. induction l as [| x l IH]; simpl; [lia |].
  destruct (f x) eqn:F.
  - rewrite (H x F). simpl. lia.
  - destruct (g x); simpl; lia.
Qed.

(** X12. [validateUserBatch] splits its input without losing a record:
    [invalid] holds, in order and untouched, the inputs the schema refuses,
    [valid] the normalized data of the others, and [cleanCount] counts the
    clean ones, which are never more than the valid ones. *)
Theorem validateUserBatch_partitions :
  forall (rt : Runtime) (dataArray : list JsValue),
    invalid (validateUserBatch rt dataArray)
    = filter (fun x => negb (accepted rt x)) dataArray
    /\ map Some (valid (validateUserBatch rt dataArray))
       = map (fun x => data (validateUser rt x))
             (filter (accepted rt) dataArray)
    /\ cleanCount (validateUserBatch rt dataArray)
       = List.length (filter (clean rt) dataArray)
    /\ (List.length (valid (validateUserBatch rt dataArray))
        + List.length (invalid (validateUserBatch rt dataArray)))%nat
       = List.length dataArray
    /\ (cleanCount (validateUserBatch rt dataArray)
        <= List.length (valid (validateUserBatch rt dataArray)))%nat.
Proof.
  intros rt l. unfold validateUserBatch.
  destruct (validate_fold rt l
              {| valid := []; invalid := []; cleanCount := 0 |})
    as (Hi & Hv & Hc).
  simpl in Hi, Hv, Hc.
  assert (Hlen : List.length (valid (fold_left (validateStep rt) l
                   {| valid := []; invalid := []; cleanCount := 0 |}))
                 = List.length (filter (accepted rt) l)).
  { apply (f_equal (@List.length _)) in Hv.
    now rewrite !length_map in Hv. }
  split; [exact Hi | split; [exact Hv | split; [exact Hc | split]]].
  - rewrite Hlen, Hi. apply filter_split_length.
  - rewrite Hc, Hlen. apply filter_length_le.
    intros x Hx.
    destruct (validateUser_cases rt x) as [(Ha & _) | (_ & _ & Hcl)];
      [exact Ha | congruence].
Qed.

Lemma transformBatchStep_nullish (rt : Runtime) (acc : list User)
      (x : JsValue) (n : nat) :
  nullish x = true -> transformBatchStep rt acc x n = Throw typeError.
Proof. destruct x; try discriminate; reflexivity. Qed.

Lemma transformBatch_fold (rt : Runtime) (l : list JsValue) :
  forall (acc : list User) (n : nat),
    (existsb nullish l = true ->
     exists e, foldM (transformBatchStep rt) l acc n = Throw e)
    /\ (existsb nullish l = false ->
        foldM (transformBatchStep rt) l acc n
        = Ok ((acc ++ fst (transformedInOrder rt l n))%list,
              snd (transformedInOrder rt l n))).
Proof.
  induction l as [| x l IH]; intros acc n; cbn [existsb foldM].
  - split; [discriminate |]. intros _. cbn [transformedInOrder fst snd].
    now rewrite app_nil_r.
  - unfold bind. destruct (nullish x) eqn:Hx; cbn [orb].
    + split; [| discriminate]. intros _.
      rewrite transformBatchStep_nullish by exact Hx. now exists typeError.
    + unfold transformBatchStep at 1 3. cbn [transformedInOrder].
      destruct (transformUser rt x n) as [[u n'] | e].
      * destruct (IH (acc ++ [u])%list n') as [IHt IHo].
        split; [exact IHt |]. intros Hl. rewrite (IHo Hl).
        cbn [fst snd]. now rewrite <- app_assoc.
      * assert (Hlog : exists v, getPropM x "userId" n = Ok (v, n)).
        { destruct x; try discriminate; eexists; reflexivity. }
        destruct Hlog as [v ->]. exact (IH acc n).
Qed.

Lemma transformedInOrder_length (rt : Runtime) (l : list JsValue) :
  forall n : nat,
    (List.length (fst (transformedInOrder rt l n)) <= List.length l)%nat
    /\ (Forall goodUser l ->
        List.length (fst (transformedInOrder rt l n)) = List.length l).
Proof.
  induction l as [| x l IH]; intros n; cbn [transformedInOrder].
  - split; [apply Nat.le_refl | reflexivity].
  - split.
    + destruct (transformUser rt x n) as [[u n'] | e]; cbn [fst List.length].
      * pose proof (proj1 (IH n')). lia.
      * pose proof (proj1 (IH n)). lia.
    + intros Hg. apply Forall_cons_iff in Hg as [Hx Hg].
      destruct (transformUser_returns rt x Hx n) as (u & n1 & -> & _).
      cbn [fst List.length]. now rewrite (proj2 (IH n1) Hg).
Qed.

(** X4. [transformUserBatch] returns the users of the records on which
    [transformUser] returns, in the order of the records, and passes over
    the records on which it throws, so that it never returns more users
    than it was given records; but writing the log entry of a record
    passed over that is [null] or [undefined] throws in its turn, so the
    whole batch fails exactly when it holds such a record.  On validated
    records nothing is passed over. *)
Theorem transformUserBatch_skips_or_fails :
  forall (rt : Runtime) (rawDataArray : list JsValue) (n : nat),
    (existsb nullish rawDataArray = true ->
     exists e, transformUserBatch rt rawDataArray n = Throw e)
    /\ (existsb nullish rawDataArray = false ->
        transformUserBatch rt rawDataArray n
        = Ok (transformedInOrder rt rawDataArray n))
    /\ (List.length (fst (transformedInOrder rt rawDataArray n))
        <= List.length rawDataArray)%nat
    /\ (Forall goodUser rawDataArray ->
        existsb nullish rawDataArray = false
        /\ List.length (fst (transformedInOrder rt rawDataArray n))
           = List.length rawDataArray).
Proof.
  intros rt l n. unfold transformUserBatch.
  destruct (transformBatch_fold rt l [] n) as [Ht Ho].
  destruct (transformedInOrder_length rt l n) as [Hle Heq].
  split; [exact Ht |]. split; [| split; [exact Hle |]].
  - intros Hn. rewrite (Ho Hn). cbn [app].
    now destruct (transformedInOrder rt l n).
  - intros Hg. split; [| exact (Heq Hg)].
    clear -Hg. induction Hg as [| x l Hx _ IH]; [reflexivity |].
    cbn [existsb]. rewrite IH.
    destruct Hx as (Hobj & _). now destruct x.
Qed.

(* ================================================================== *)
(** ** The streaming loop of [runPipeline] *)

Section PipelineFacts.
Variable rt : Runtime.
Variable DB : Type.
Variable load : DB -> list User -> option (LoadResult * DB).
Variable batchSize : JsNumber.

Lemma processRecords_invariant (P : RunState DB -> Prop) :
  (forall st x st',
      processRecord rt load batchSize st x = Some st' -> P st -> P st') ->
  forall xs st st',
    processRecords rt load batchSize st xs = Some st' -> P st -> P st'.
Proof.
  intros Hstep. induction xs as [| x xs IH]; intros st st' H Hst; simpl in H.
  - now injection H as <-.
  - destruct (processRecord rt load batchSize st x) as [st1 |] eqn:E;
      [| discriminate].
    eapply IH; [exact H |]. eapply Hstep; eassumption.
Qed.

(** What a flush leaves alone, and what it may change. *)
Lemma flushBatch_frame (reset : bool) (st st' : RunState DB) :
  flushBatch load reset st = Some st' ->
  recordCounters (statistics st') = recordCounters (statistics st)
  /\ idsDrawn st' = idsDrawn st
  /\ currentBatch st' = (if reset then [] else currentBatch st).
Proof.
  unfold flushBatch. intros H.
  destruct (Nat.ltb 0 _).
  - destruct (load _ _) as [[r db'] |]; [| discriminate].
    injection H as <-. simpl. auto.
  - injection H as <-. simpl. auto.
Qed.

(** An accepted record is transformed without an exception. *)
Lemma accepted_transforms (x : JsValue) (n : nat) :
  accepted rt x = true ->
  exists d u n',
    data (validateUser rt x) = Some d
    /\ transformUser rt d n = Ok (u, n').
Proof.
  unfold accepted, validateUser.
  destruct (flexibleUserSchema rt x) as [raw |] eqn:E; [| discriminate].
  intros _. simpl.
  destruct (transformUser_returns rt raw (flexibleUserSchema_good rt _ _ E) n)
    as (u & n' & Hu & _).
  now exists raw, u, n'.
Qed.

Lemma processRecord_counted (st st' : RunState DB) (x : JsValue)
      (seen : list JsValue) :
  processRecord rt load batchSize st x = Some st' ->
  counted rt DB st seen -> counted rt DB st' (seen ++ [x])%list.
Proof.
  unfold processRecord, counted. intros H (Ht & Hv & Hp & Hc & Hm).
  rewrite !filter_app, !length_app. simpl.
  destruct (validateUser_cases rt x) as [(Ha & d & Hd & _)
                                        | (Ha & Hd & Hcl)].
  - destruct (accepted_transforms x (idsDrawn st) Ha)
      as (d' & u & n' & Hd' & Hu).
    unfold accepted, clean in *. rewrite Ha in *. simpl in H.
    rewrite Hd' in H. rewrite Hu in H.
    match type of H with
    | match ?c with _ => _ end = _ => destruct c as [st1 |] eqn:F
    end; [| discriminate].
    injection H as <-. simpl.
    assert (Hfr : recordCounters (statistics st1)
                  = [S (totalFiles (statistics st));
                     processedFiles (statistics st);
                     validationErrors (statistics st);
                     if isClean (validateUser rt x)
                     then S (cleanRecords (statistics st))
                     else cleanRecords (statistics st);
                     if isClean (validateUser rt x)
                     then messyRecords (statistics st)
                     else S (messyRecords (statistics st))]).
    { destruct (reaches _ _).
      - apply flushBatch_frame in F as [F _]. exact F.
      - now injection F as <-. }
    unfold recordCounters in Hfr.
    injection Hfr as -> -> -> -> ->.
    destruct (isClean (validateUser rt x)); simpl; repeat split; lia.
  - unfold accepted, clean in *. rewrite Ha in *. simpl in H.
    injection H as <-. simpl. rewrite Hcl. simpl. repeat split; lia.
Qed.

Lemma processRecords_counted (xs seen : list JsValue) (st st' : RunState DB) :
  processRecords rt load batchSize st xs = Some st' ->
  counted rt DB st seen -> counted rt DB st' (seen ++ xs)%list.
Proof.
  revert seen st. induction xs as [| x xs IH]; intros seen st H Hc;
    simpl in H.
  - injection H as <-. now rewrite app_nil_r.
  - destruct (processRecord rt load batchSize st x) as [st1 |] eqn:E;
      [| discriminate].
    replace (seen ++ x :: xs)%list with ((seen ++ [x]) ++ xs)%list
      by now rewrite <- app_assoc.
    eapply IH; [exact H |]. eapply processRecord_counted; eassumption.
Qed.

(** X13. The statistics of a finished run account for every extracted record:
    [totalFiles] counts the records, [validationErrors] those the validator
    refuses, [processedFiles] those it accepts (none of which is lost to an
    exception of the transformer), [cleanRecords] the clean ones, and clean
    and messy records add up to the processed ones. *)
Theorem run_statistics_account_for_every_record :
  forall (db : DB) (extracted : list JsValue) (st : RunState DB),
    streamAndFlush rt load batchSize db extracted = Some st ->
    totalFiles (statistics st) = List.length extracted
    /\ validationErrors (statistics st)
       = List.length (filter (fun x => negb (accepted rt x)) extracted)
    /\ processedFiles (statistics st)
       = List.length (filter (accepted rt) extracted)
    /\ cleanRecords (statistics st)
       = List.length (filter (clean rt) extracted)
    /\ (cleanRecords (statistics st) + messyRecords (statistics st))%nat
       = processedFiles (statistics st)
    /\ (processedFiles (statistics st) + validationErrors (statistics st))%nat
       = totalFiles (statistics st).
Proof.
  intros db xs st H. unfold streamAndFlush in H.
  destruct (processRecords rt load batchSize (initialRun db) xs)
    as [st1 |] eqn:E; [| discriminate].
  assert (Hc : counted rt DB st1 xs).
  { apply (processRecords_counted xs [] (initialRun db) st1 E).
    unfold counted. simpl. auto. }
  assert (Hfr : recordCounters (statistics st)
                = recordCounters (statistics st1)).
  { destruct (Nat.ltb 0 _).
    - now apply flushBatch_frame in H as [H _].
    - now injection H as <-. }
  unfold recordCounters in Hfr. injection Hfr as -> -> -> -> ->.
  destruct Hc as (Ht & Hv & Hp & Hcl & Hm).
  repeat split; try assumption.
  rewrite Hp, Hv, Ht. apply filter_split_length.
Qed.

(** *** Each identifier is loaded once *)

Lemma fold_setAdd_In (xs s : list string) (i : string) :
  In i (fold_left setAdd xs s) <-> In i s \/ In i xs.
Proof.
  revert s. induction xs as [| x xs IH]; intros s; simpl; [tauto |].
  rewrite IH. unfold setAdd.
  destruct (existsb (String.eqb x) s) eqn:E.
  - apply existsb_exists in E. destruct E as (y & Hy & Hxy).
    apply String.eqb_eq in Hxy. subst y.
    split; [tauto | intros [H | [<- | H]]; tauto].
  - rewrite in_app_iff. simpl. tauto.
Qed.

Lemma NoDup_map_filter (A B : Type) (key : A -> B) (keep : A -> bool) :
  forall xs : list A,
    NoDup (map key xs) -> NoDup (map key (filter keep xs)).
Proof.
  intros xs. induction xs as [| x xs IH]; simpl; [auto |].
  intros H. apply NoDup_cons_iff in H as [Hni Hnd].
  destruct (keep x); simpl; [| auto].
  constructor; [| auto].
  intros Hin. apply Hni. apply in_map_iff in Hin.
  destruct Hin as (y & Hy & Hin). apply filter_In in Hin as [Hin _].
  rewrite <- Hy. now apply in_map.
Qed.

Lemma recalculated_ids (l : list User) :
  map userId (map recalculateTotals l) = map userId l.
Proof. rewrite map_map. reflexivity. Qed.

Lemma deduplicated_ids (l : list User) (i : string) :
  In i (map userId (deduplicateUsers l)) <-> In i (map userId l).
Proof.
  pose proof (dedup_fold_keyed l [] (keyed_nil User userId)) as [_ Hf].
  unfold deduplicateUsers.
  assert (Hv : map userId (map_values (fold_left dedupStep l []))
               = map_keys (fold_left dedupStep l [])).
  { unfold map_values, map_keys. rewrite map_map. apply map_ext_in.
    intros e He. rewrite Forall_forall in Hf. now apply Hf. }
  rewrite Hv, dedup_fold_keys. simpl. tauto.
Qed.

Lemma unprocessed_spec (processed : list string) (u : User) :
  negb (existsb (String.eqb (userId u)) processed) = true
  <-> ~ In (userId u) processed.
Proof.
  rewrite negb_true_iff. split.
  - intros E Hin.
    assert (T : existsb (String.eqb (userId u)) processed = true).
    { apply existsb_exists. exists (userId u). split; [exact Hin |].
      apply String.eqb_refl. }
    congruence.
  - apply existsb_eqb_absent.
Qed.

Lemma flushBatch_loadedOnce (reset : bool) (st st' : RunState DB) :
  flushBatch load reset st = Some st' -> loadedOnce DB st -> loadedOnce DB st'.
Proof.
  unfold flushBatch. intros H (Hnd & Hp & Hne & Htot).
  set (newUsers :=
         filter (fun user =>
                   negb (existsb (String.eqb (userId user))
                                 (processedUserIds st)))
                (deduplicateUsers (currentBatch st))) in *.
  destruct (Nat.ltb 0 (List.length newUsers)) eqn:L.
  - destruct (load _ _) as [[r db'] |]; [| discriminate].
    injection H as <-. unfold loadedOnce, loadedIds in *. simpl.
    rewrite concat_app, map_app. simpl. rewrite app_nil_r.
    rewrite recalculated_ids.
    split; [| split; [| split]].
    + apply NoDup_app; [exact Hnd | |].
      * apply NoDup_map_filter.
        exact (keyed_values_NoDup _ _ _
                 (dedup_fold_keyed (currentBatch st) []
                                   (keyed_nil User userId))).
      * intros i Hi Hnew. apply in_map_iff in Hnew.
        destruct Hnew as (u & <- & Hu).
        apply filter_In in Hu as [_ Hu].
        apply unprocessed_spec in Hu. apply Hu. now apply Hp.
    + intros i. rewrite fold_setAdd_In, in_app_iff, Hp. tauto.
    + apply Forall_app. split; [exact Hne |].
      constructor; [| constructor].
      destruct newUsers; [discriminate | discriminate].
    + apply Forall_app. split; [exact Htot |].
      constructor; [| constructor].
      apply Forall_forall. intros u Hu. apply in_map_iff in Hu.
      destruct Hu as (u0 & <- & _). apply recalculateTotals_consistent.
  - injection H as <-. unfold loadedOnce, loadedIds in *. simpl.
    destruct newUsers; [| discriminate]. simpl.
    auto.
Qed.

Lemma processRecord_loadedOnce (st st' : RunState DB) (x : JsValue) :
  processRecord rt load batchSize st x = Some st' ->
  loadedOnce DB st -> loadedOnce DB st'.
Proof.
  unfold processRecord. intros H Hst.
  destruct (negb (success (validateUser rt x)));
    [now injection H as <- |].
  destruct (transformUser rt _ (idsDrawn st)) as [[u n'] | e];
    [| now injection H as <-].
  match type of H with
  | match ?c with _ => _ end = _ => destruct c as [st1 |] eqn:F
  end; [| discriminate].
  injection H as <-.
  assert (H1 : loadedOnce DB st1).
  { destruct (reaches _ _).
    - eapply flushBatch_loadedOnce; [exact F | exact Hst].
    - injection F as <-. exact Hst. }
  exact H1.
Qed.

(** X14. In a run, no identifier is handed to the loader twice, whatever the
    batches: the identifiers of all the loader's calls are pairwise
    distinct and are exactly the processed identifiers; no call is empty,
    and every entity handed over has its totals recomputed. *)
Theorem run_loads_each_identifier_once :
  forall (db : DB) (extracted : list JsValue) (st : RunState DB),
    streamAndFlush rt load batchSize db extracted = Some st ->
    NoDup (loadedIds DB st)
    /\ (forall i, In i (processedUserIds st) <-> In i (loadedIds DB st))
    /\ Forall (fun call => call <> []) (loaderCalls st)
    /\ Forall (Forall totals_consistent) (loaderCalls st).
Proof.
  intros db xs st H. unfold streamAndFlush in H.
  destruct (processRecords rt load batchSize (initialRun db) xs)
    as [st1 |] eqn:E; [| discriminate].
  assert (H1 : loadedOnce DB st1).
  { apply (processRecords_invariant (loadedOnce DB)
             (fun st x st' => processRecord_loadedOnce st st' x)
             xs (initialRun db) st1 E).
    unfold loadedOnce, loadedIds. simpl.
    repeat split; try constructor; tauto. }
  destruct (Nat.ltb 0 _).
  - exact (flushBatch_loadedOnce false st1 st H H1).
  - injection H as <-. exact H1.
Qed.

(** X15. A flush leaves no identifier of the buffer behind: after it, every
    identifier of the batch is a processed one (loaded now, or in an
    earlier batch), and the buffer of a flush in mid-stream is empty. *)
Theorem flush_processes_every_identifier :
  forall (reset : bool) (st st' : RunState DB),
    flushBatch load reset st = Some st' ->
    (forall u, In u (currentBatch st) ->
               In (userId u) (processedUserIds st'))
    /\ (forall i, In i (processedUserIds st) ->
                  In i (processedUserIds st'))
    /\ (reset = true -> currentBatch st' = []).
Proof.
  intros reset st st' H.
  assert (Hp : forall i,
             In i (processedUserIds st')
             <-> In i (processedUserIds st)
                 \/ In i (map userId
                            (filter (fun user =>
                               negb (existsb (String.eqb (userId user))
                                             (processedUserIds st)))
                               (deduplicateUsers (currentBatch st))))).
  { intros i. unfold flushBatch in H.
    destruct (Nat.ltb 0 _).
    - destruct (load _ _) as [[r db'] |]; [| discriminate].
      injection H as <-. simpl. apply fold_setAdd_In.
    - injection H as <-. simpl. apply fold_setAdd_In. }
  split; [| split].
  - intros u Hu. apply Hp.
    assert (Hid : In (userId u) (map userId (deduplicateUsers (currentBatch st))))
      by (apply deduplicated_ids; now apply in_map).
    apply in_map_iff in Hid. destruct Hid as (d & Hd & Hin).
    destruct (existsb (String.eqb (userId d)) (processedUserIds st)) eqn:E.
    + left. apply existsb_exists in E. destruct E as (y & Hy & Hxy).
      apply String.eqb_eq in Hxy. subst y. now rewrite <- Hd.
    + right. rewrite <- Hd. apply in_map. apply filter_In.
      split; [exact Hin | now rewrite E].
  - intros i Hi. apply Hp. now left.
  - intros ->. now apply flushBatch_frame in H as (_ & _ & H).
Qed.

(** *** The size of the buffer *)

Lemma of_nat_nonneg (n : nat) : 0 <= inject_Z (Z.of_nat n).
Proof. unfold Qle. simpl. lia. Qed.

(** X16. Between two records the buffer holds fewer users than a positive batch
    size, whole or not; and with a batch size that is no number ([NaN])
    nothing is loaded before the stream ends. *)
Theorem buffer_stays_below_batch_size :
  forall (db : DB) (extracted : list JsValue) (st : RunState DB),
    processRecords rt load batchSize (initialRun db) extracted = Some st ->
    match batchSize with
    | NaN => loaderCalls st = []
    | Num q =>
        0 < q -> inject_Z (Z.of_nat (List.length (currentBatch st))) < q
    end.
Proof.
  intros db xs st H.
  apply (processRecords_invariant
           (fun st => match batchSize with
                      | NaN => loaderCalls st = []
                      | Num q =>
                          0 < q ->
                          inject_Z (Z.of_nat (List.length (currentBatch st)))
                          < q
                      end)) with (xs := xs) (st := initialRun db);
    [| exact H |].
  - clear. intros st x st' H Hst. unfold processRecord in H.
    destruct (negb (success (validateUser rt x)));
      [now injection H as <- |].
    destruct (transformUser rt _ (idsDrawn st)) as [[u n'] | e];
      [| now injection H as <-].
    match type of H with
    | match ?c with _ => _ end = _ => destruct c as [st1 |] eqn:F
    end; [| discriminate].
    injection H as <-. simpl.
    destruct batchSize as [| q]; simpl in F.
    + injection F as <-. exact Hst.
    + destruct (Qle_bool q _) eqn:R.
      * apply flushBatch_frame in F as (_ & _ & ->). simpl. tauto.
      * injection F as <-. cbn [currentBatch]. intros _.
        destruct (Qlt_le_dec
                    (inject_Z (Z.of_nat
                       (List.length (currentBatch st ++ [u])%list))) q)
          as [L | L]; [exact L |].
        apply Qle_bool_iff in L. congruence.
  - destruct batchSize as [| q]; simpl; [reflexivity |].
    intros Hq; exact Hq.
Qed.
End PipelineFacts.

(* ================================================================== *)
(** ** [loadUserBatch] *)

Lemma firstn_min_length {A : Type} (n : nat) (l : list A) :
  firstn (Nat.min n (List.length l)) l = firstn n l.
Proof.
  destruct (Nat.le_gt_cases n (List.length l)) as [H | H].
  - now rewrite Nat.min_l.
  - rewrite Nat.min_r by lia. rewrite firstn_all.
    symmetry. apply firstn_all2. lia.
Qed.

Lemma slice_chunk {A : Type} (l : list A) (k size : nat) :
  slice l (Z.of_nat k) (Z.of_nat k + Z.of_nat size)
  = firstn size (skipn k l).
Proof.
  unfold slice, sliceIndex.
  assert (H1 : (Z.of_nat k <? 0)%Z = false) by (apply Z.ltb_ge; lia).
  assert (H2 : (Z.of_nat k + Z.of_nat size <? 0)%Z = false)
    by (apply Z.ltb_ge; lia).
  rewrite H1, H2.
  destruct (Nat.le_gt_cases k (List.length l)) as [Hk | Hk].
  - rewrite (Z.min_l (Z.of_nat k)) by lia. rewrite Nat2Z.id.
    replace (Z.to_nat (Z.min (Z.of_nat k + Z.of_nat size)
                             (Z.of_nat (List.length l)) - Z.of_nat k))
      with (Nat.min size (List.length (skipn k l)))
      by (rewrite length_skipn; lia).
    apply firstn_min_length.
  - rewrite (skipn_all2 l (n := k)) by lia.
    rewrite skipn_all2 by lia. now rewrite !firstn_nil.
Qed.

Lemma chunksAux_concat {A : Type} (fuel size : nat) (l : list A) :
  (1 <= size)%nat -> (List.length l <= fuel)%nat ->
  List.concat (chunksAux A fuel size l) = l
  /\ Forall (fun c => (1 <= List.length c <= size)%nat)
            (chunksAux A fuel size l).
Proof.
  intros Hs. revert l. induction fuel as [| fuel IH]; intros l Hl.
  - destruct l; [split; [reflexivity | constructor] | simpl in Hl; lia].
  - destruct l as [| x l]; [split; [reflexivity | constructor] |].
    cbn [chunksAux].
    destruct (IH (skipn size (x :: l))) as [Hc Hf].
    { rewrite length_skipn. cbn [List.length] in *; lia. }
    split.
    + cbn [List.concat]. rewrite Hc. apply firstn_skipn.
    + constructor; [| exact Hf].
      rewrite length_firstn. cbn [List.length]. lia.
Qed.

Lemma chunksAux_fuel {A : Type} (size : nat) :
  (1 <= size)%nat ->
  forall (f1 f2 : nat) (l : list A),
    (List.length l <= f1)%nat -> (List.length l <= f2)%nat ->
    chunksAux A f1 size l = chunksAux A f2 size l.
Proof.
  intros Hs. induction f1 as [| f1 IH]; intros f2 l H1 H2.
  - destruct l; [now destruct f2 | cbn [List.length] in H1; lia].
  - destruct l as [| x l]; [now destruct f2 |].
    destruct f2 as [| f2]; [cbn [List.length] in H2; lia |].
    cbn [chunksAux]. f_equal.
    apply IH; rewrite length_skipn; cbn [List.length] in *; lia.
Qed.

Lemma chunksAux_enough {A : Type} (fuel size : nat) (l : list A) :
  (1 <= size)%nat -> (List.length l <= fuel)%nat ->
  chunksAux A fuel size l = chunksOf A size l.
Proof.
  intros Hs Hl. unfold chunksOf. apply chunksAux_fuel; [exact Hs | exact Hl | lia].
Qed.

(** A number that is whole truncates to itself. *)
Lemma Qtrunc_whole (q : Q) (z : Z) : q == inject_Z z -> Qtrunc q = z.
Proof.
  intros H. unfold Qtrunc. destruct (Qle_bool 0 q).
  - rewrite (Qfloor_comp _ _ H). apply Qfloor_Z.
  - rewrite (Qceiling_comp _ _ H). apply Qceiling_Z.
Qed.

Section LoaderFacts.
Variable DB : Type.
Variable bulkWrite : DB -> list User -> Outcome (nat * nat) * DB.
Variable insertMany : DB -> list User -> Outcome nat * DB.

Lemma loadLoop_chunks (size : nat) (users : list User) (upsert : bool) :
  (1 <= size)%nat ->
  forall (fuel k : nat) (q : Q) (acc : LoadResult * DB),
    q == inject_Z (Z.of_nat k) ->
    (List.length (skipn k users) < fuel)%nat ->
    loadLoop bulkWrite insertMany fuel users (wholeNumber size) upsert
             (Num q) acc
    = Some (fold_left (loadChunk bulkWrite insertMany upsert)
                      (chunksOf User size (skipn k users)) acc).
Proof.
  intros Hs. induction fuel as [| fuel IH]; intros k q acc Hq Hf; [lia |].
  cbn [loadLoop belowLength js_plus wholeNumber toIntegerOrInfinity].
  assert (Hnext : q + inject_Z (Z.of_nat size)
                  == inject_Z (Z.of_nat (k + size))).
  { rewrite Hq, Nat2Z.inj_add, inject_Z_plus. reflexivity. }
  destruct (Qltb q (inject_Z (Z.of_nat (List.length users)))) eqn:L.
  - apply Qltb_true in L. rewrite Hq, <- Zlt_Qlt in L.
    rewrite (Qtrunc_whole _ _ Hq), (Qtrunc_whole _ _ Hnext).
    replace (Z.of_nat (k + size)) with (Z.of_nat k + Z.of_nat size)%Z
      by lia.
    rewrite slice_chunk.
    assert (Hrest : (List.length (skipn (k + size) users)
                     < List.length (skipn k users))%nat)
      by (rewrite !length_skipn; lia).
    rewrite (IH (k + size)%nat _ _ Hnext) by lia.
    rewrite <- (chunksAux_enough (List.length (skipn k users)) size
                                 (skipn k users)) by lia.
    destruct (skipn k users) as [| x rest] eqn:R.
    { rewrite length_skipn in Hrest. simpl in Hrest. lia. }
    cbn [List.length chunksAux fold_left].
    rewrite <- R.
    replace (skipn size (skipn k users)) with (skipn (k + size) users)
      by (rewrite skipn_skipn; f_equal; lia).
    rewrite chunksAux_enough; [reflexivity | lia |].
    cbn [List.length] in Hrest. lia.
  - apply Qltb_false in L. rewrite Hq, <- Zle_Qle in L.
    rewrite skipn_all2 by lia. reflexivity.
Qed.

Lemma loadUserBatch_writes_chunks_aux (size fuel : nat) (users : list User)
      (upsert : bool) (db : DB) :
  (1 <= size)%nat ->
  (List.length users < fuel)%nat ->
  loadUserBatch bulkWrite insertMany fuel users
                {| opt_batchSize := Some (wholeNumber size);
                   opt_upsert := Some upsert |} db
  = Some (fold_left (loadChunk bulkWrite insertMany upsert)
                    (chunksOf User size users) (emptyLoadResult, db))
  /\ List.concat (chunksOf User size users) = users.
Proof.
  intros Hs Hf.
  split; [| apply chunksAux_concat; [exact Hs | lia]].
  unfold loadUserBatch. cbn [opt_batchSize opt_upsert].
  destruct users as [| u users]; [reflexivity |].
  cbn [List.length Nat.eqb].
  exact (loadLoop_chunks size (u :: users) upsert Hs fuel 0 0 
                         (emptyLoadResult, db) (Qeq_refl 0) Hf).
Qed.

(** X17. With a batch size that is a whole number of at least 1,
    [loadUserBatch] ends, having written the users chunk by chunk, every
    chunk whatever became of the chunks before it: the chunks are the
    users in order, none of them is empty and none holds more than
    [batchSize] users.  (A batch size that is no whole number is outside
    this statement: the bounds of [slice] are truncated, and a chunk can
    hold one user more.) *)
Theorem loadUserBatch_writes_chunks :
  forall (size fuel : nat) (users : list User) (upsert : bool) (db : DB),
    (1 <= size)%nat ->
    (List.length users < fuel)%nat ->
    loadUserBatch bulkWrite insertMany fuel users
                  {| opt_batchSize := Some (wholeNumber size);
                     opt_upsert := Some upsert |} db
    = Some (fold_left (loadChunk bulkWrite insertMany upsert)
                      (chunksOf User size users) (emptyLoadResult, db))
    /\ List.concat (chunksOf User size users) = users
    /\ Forall (fun c => (1 <= List.length c <= size)%nat)
              (chunksOf User size users).
Proof.
  intros size fuel users upsert db Hs Hf.
  destruct (loadUserBatch_writes_chunks_aux size fuel users upsert db Hs Hf)
    as (E & Hc).
  split; [exact E | split; [exact Hc |]].
  apply chunksAux_concat; [exact Hs | lia].
Qed.

Lemma loadChunk_failed (upsert : bool) (acc : LoadResult * DB)
      (batch : list User) :
  let acc' := loadChunk bulkWrite insertMany upsert acc batch in
  (failed (fst acc) <= failed (fst acc')
   <= failed (fst acc) + List.length batch)%nat
  /\ (plainRejections DB bulkWrite insertMany ->
      exists new,
        errors (fst acc') = (errors (fst acc) ++ new)%list
        /\ List.length new
           = (failed (fst acc') - failed (fst acc))%nat
        /\ incl (map err_userId new) (map userId batch)).
Proof.
  unfold loadChunk. destruct acc as [r db]. cbn [fst snd].
  destruct upsert.
  - destruct (bulkWrite db batch) as [[[a b] | ws text] db'] eqn:W;
      cbn [fst failed errors].
    + split; [lia |]. intros _. exists []. rewrite app_nil_r.
      repeat split; [simpl; lia | intros x []].
    + split; [lia |]. intros [Hb _].
      destruct ws as [ws |]; [exfalso; exact (Hb _ _ _ _ _ W) |].
      eexists. split; [reflexivity |]. rewrite length_map, map_map.
      split; [lia | apply incl_refl].
  - destruct (insertMany db batch) as [[a | ws text] db'] eqn:W;
      cbn [fst failed errors].
    + split; [lia |]. intros _. exists []. rewrite app_nil_r.
      repeat split; [simpl; lia | intros x []].
    + split; [lia |]. intros [_ Hi].
      destruct ws as [ws |]; [exfalso; exact (Hi _ _ _ _ _ W) |].
      eexists. split; [reflexivity |]. rewrite length_map, map_map.
      split; [lia | apply incl_refl].
Qed.

Lemma loadChunks_failed (upsert : bool) (chunks : list (list User)) :
  forall acc : LoadResult * DB,
    let acc' := fold_left (loadChunk bulkWrite insertMany upsert)
                          chunks acc in
    (failed (fst acc) <= failed (fst acc')
     <= failed (fst acc) + List.length (List.concat chunks))%nat
    /\ (plainRejections DB bulkWrite insertMany ->
        exists new,
          errors (fst acc') = (errors (fst acc) ++ new)%list
          /\ List.length new = (failed (fst acc') - failed (fst acc))%nat
          /\ incl (map err_userId new)
                  (map userId (List.concat chunks))).
Proof.
  induction chunks as [| c chunks IH]; intros acc; cbn [fold_left].
  - cbn zeta. split; [simpl; lia |]. intros _. exists [].
    rewrite app_nil_r. repeat split; [simpl; lia | intros x []].
  - destruct (loadChunk_failed upsert acc c) as [Hc1 Hc2].
    destruct (IH (loadChunk bulkWrite insertMany upsert acc c))
      as [H1 H2].
    cbn zeta in *. cbn [List.concat]. rewrite length_app. split; [lia |].
    intros Hp. destruct (Hc2 Hp) as (n1 & E1 & L1 & I1).
    destruct (H2 Hp) as (n2 & E2 & L2 & I2).
    exists (n1 ++ n2)%list. rewrite E2, E1, <- app_assoc.
    split; [reflexivity |]. rewrite length_app, !map_app.
    split; [lia |].
    apply incl_app; [apply incl_appl | apply incl_appr]; assumption.
Qed.

(** X18. A rejected chunk fails as a whole and only itself: [failed] never
    exceeds the number of users, and when the rejections carry no
    [writeErrors] there is one error entry per failed user, under the
    [userId] of a user of the batch. *)
Theorem loadUserBatch_failures_are_bounded :
  forall (size fuel : nat) (users : list User) (upsert : bool) (db : DB),
    (1 <= size)%nat ->
    (List.length users < fuel)%nat ->
    exists (result : LoadResult) (db' : DB),
      loadUserBatch bulkWrite insertMany fuel users
                    {| opt_batchSize := Some (wholeNumber size);
                       opt_upsert := Some upsert |} db
      = Some (result, db')
      /\ (failed result <= List.length users)%nat
      /\ (plainRejections DB bulkWrite insertMany ->
          List.length (errors result) = failed result
          /\ incl (map err_userId (errors result)) (map userId users)).
Proof.
  intros size fuel users upsert db Hs Hf.
  destruct (loadUserBatch_writes_chunks_aux size fuel users upsert db Hs Hf)
    as (E & Hc).
  rewrite E.
  destruct (loadChunks_failed upsert (chunksOf User size users)
                              (emptyLoadResult, db)) as [H1 H2].
  cbn zeta in *. rewrite Hc in *.
  destruct (fold_left (loadChunk bulkWrite insertMany upsert)
                      (chunksOf User size users) (emptyLoadResult, db))
    as [r db'].
  cbn [fst emptyLoadResult failed errors] in *.
  exists r, db'. split; [reflexivity |].
  split; [lia |].
  intros Hp. destruct (H2 Hp) as (new & E2 & L2 & I2).
  cbn [app] in E2. rewrite E2. split; [lia | exact I2].
Qed.

Lemma loadLoop_never_ends (users : list User) (batchSize : Q)
      (upsert : bool) :
  users <> [] -> batchSize <= 0 ->
  forall (fuel : nat) (i : Q) (acc : LoadResult * DB),
    i <= 0 ->
    loadLoop bulkWrite insertMany fuel users (Num batchSize) upsert (Num i)
             acc
    = None.
Proof.
  intros Hu Hb. induction fuel as [| fuel IH]; intros i acc Hi;
    [reflexivity |].
  cbn [loadLoop belowLength js_plus].
  assert (L : Qltb i (inject_Z (Z.of_nat (List.length users))) = true).
  { apply Qltb_true. apply Qle_lt_trans with (y := 0); [exact Hi |].
    replace 0 with (inject_Z 0) by reflexivity. rewrite <- Zlt_Qlt.
    destruct users; [contradiction | simpl; lia]. }
  rewrite L. apply IH. lra.
Qed.

(** X19. With a batch size of zero or less, whole or not, the loop of
    [loadUserBatch] never ends on a list that is not empty: the index does
    not advance. *)
Theorem loadUserBatch_diverges_without_positive_batch_size :
  forall (users : list User) (batchSize : Q) (upsert : option bool)
         (db : DB) (fuel : nat),
    users <> [] -> batchSize <= 0 ->
    loadUserBatch bulkWrite insertMany fuel users
                  {| opt_batchSize := Some (Num batchSize);
                     opt_upsert := upsert |} db
    = None.
Proof.
  intros users batchSize upsert db fuel Hu Hb.
  unfold loadUserBatch. cbn [opt_batchSize opt_upsert].
  destruct users as [| u users]; [contradiction |].
  cbn [List.length Nat.eqb].
  apply loadLoop_never_ends; [exact Hu | exact Hb | lra].
Qed.
End LoaderFacts.

(* ================================================================== *)
(** ** Handles *)

Lemma lowerChar_idem (c : ascii) : lowerChar (lowerChar c) = lowerChar c.
Proof. destruct c as [[] [] [] [] [] [] [] []]; reflexivity. Qed.

Lemma isSpace_lowerChar (c : ascii) : isSpace (lowerChar c) = isSpace c.
Proof. destruct c as [[] [] [] [] [] [] [] []]; reflexivity. Qed.

Lemma toLowerCase_idem (s : string) :
  toLowerCase (toLowerCase s) = toLowerCase s.
Proof.
  induction s as [| c s IH]; simpl; [reflexivity |].
  now rewrite lowerChar_idem, IH.
Qed.

Lemma toLowerCase_trimStart (s : string) :
  toLowerCase (trimStart s) = trimStart (toLowerCase s).
Proof.
  induction s as [| c s IH]; simpl; [reflexivity |].
  rewrite isSpace_lowerChar. destruct (isSpace c); [exact IH | reflexivity].
Qed.

Lemma toLowerCase_rev (s acc : string) :
  toLowerCase (rev_string s acc)
  = rev_string (toLowerCase s) (toLowerCase acc).
Proof.
  revert acc. induction s as [| c s IH]; intros acc; simpl; [reflexivity |].
  now rewrite IH.
Qed.

Lemma toLowerCase_trim (s : string) :
  toLowerCase (trim s) = trim (toLowerCase s).
Proof.
  unfold trim, trimEnd.
  now rewrite toLowerCase_rev, toLowerCase_trimStart, toLowerCase_rev,
    toLowerCase_trimStart.
Qed.

Lemma append_empty (s : string) : (s ++ "")%string = s.
Proof. induction s as [| c s IH]; simpl; [reflexivity | now rewrite IH]. Qed.

Lemma rev_string_rev (s a b : string) :
  rev_string (rev_string s a) b = rev_string a (s ++ b)%string.
Proof.
  revert a b. induction s as [| c s IH]; intros a b; simpl; [reflexivity |].
  now rewrite IH.
Qed.

Lemma rev_string_invol (s : string) :
  rev_string (rev_string s "") "" = s.
Proof. rewrite rev_string_rev. simpl. apply append_empty. Qed.

Lemma rev_string_acc (s acc : string) :
  rev_string s acc = (rev_string s "" ++ acc)%string.
Proof.
  revert acc. induction s as [| c s IH]; intros acc; simpl; [reflexivity |].
  rewrite IH, (IH (String c "")).
  generalize (rev_string s ""). intros r.
  induction r as [| d r IHr]; simpl; [reflexivity | now rewrite IHr].
Qed.

Lemma rev_string_append (u v acc : string) :
  rev_string (u ++ v)%string acc = rev_string v (rev_string u acc).
Proof.
  revert acc. induction u as [| c u IH]; intros acc; simpl; [reflexivity |].
  apply IH.
Qed.

Lemma trimStart_idem (s : string) : trimStart (trimStart s) = trimStart s.
Proof.
  induction s as [| c s IH]; simpl; [reflexivity |].
  destruct (isSpace c) eqn:E; [exact IH |]. simpl. now rewrite E.
Qed.

Lemma trimStart_head (s : string) (c : ascii) (t : string) :
  trimStart s = String c t -> isSpace c = false.
Proof.
  induction s as [| d s IH]; simpl; [discriminate |].
  destruct (isSpace d) eqn:E; [exact IH |]. now intros [= <- _].
Qed.

Lemma trimStart_app (r x : string) :
  trimStart (r ++ x)%string
  = match trimStart r with
    | EmptyString => trimStart x
    | String _ _ => (trimStart r ++ x)%string
    end.
Proof.
  induction r as [| c r IH]; simpl; [reflexivity |].
  destruct (isSpace c); [exact IH | reflexivity].
Qed.

Lemma trimEnd_idem (s : string) : trimEnd (trimEnd s) = trimEnd s.
Proof.
  unfold trimEnd. now rewrite rev_string_invol, trimStart_idem.
Qed.

Lemma trimEnd_cons (c : ascii) (t : string) :
  isSpace c = false -> exists r, trimEnd (String c t) = String c r.
Proof.
  intros H. unfold trimEnd. simpl rev_string.
  rewrite (rev_string_acc t (String c "")), trimStart_app.
  destruct (trimStart (rev_string t "")) as [| d u].
  - simpl. rewrite H. simpl. now exists ""%string.
  - rewrite rev_string_append. simpl. eauto.
Qed.

Lemma trim_idem (s : string) : trim (trim s) = trim s.
Proof.
  unfold trim. destruct (trimStart s) as [| c t] eqn:E; [reflexivity |].
  apply trimStart_head in E.
  destruct (trimEnd_cons c t E) as [r Hr].
  rewrite Hr at 1. simpl. rewrite E. rewrite <- Hr. apply trimEnd_idem.
Qed.

Lemma normalized_handle (platformName : string) (raw : JsValue)
      (n n' : nat) (s : string) :
  (if truthy raw then normalizeSocialHandle raw else ret ""%string) n
  = Ok (s, n') ->
  toLowerCase s = s /\ trim s = s.
Proof.
  destruct (truthy raw).
  - destruct raw; simpl; try discriminate.
    intros H. apply ret_Ok in H as [-> _].
    split.
    + now rewrite toLowerCase_trim, toLowerCase_idem.
    + apply trim_idem.
  - intros H. apply ret_Ok in H as [-> _]. split; reflexivity.
Qed.

Lemma transformSocialHandles_spec (handles : list (string * JsValue))
      (n n' : nat) (out : list SocialHandle) :
  transformSocialHandles handles n = Ok (out, n') ->
  exists hs,
    Forall2 (fun h y => platform y = fst h
                        /\ toLowerCase (handle y) = handle y
                        /\ trim (handle y) = handle y) handles hs
    /\ out = filter (fun h => (nonEmpty (handle h)
                               && nonEmpty (platform h))%bool) hs.
Proof.
  unfold transformSocialHandles. intros H.
  inv_bind H hs n1 Hm. apply ret_Ok in H as [-> _].
  exists hs. split; [| reflexivity].
  eapply mapM_Forall2; [| exact Hm].
  intros [p raw] m y m' Hy. cbn [fst snd] in *.
  inv_bind Hy s m1 Hs. apply ret_Ok in Hy as [-> _]. simpl.
  split; [reflexivity |].
  exact (normalized_handle p raw m m1 s Hs).
Qed.

Lemma Forall2_map_eq {A B C : Type} (f : A -> C) (g : B -> C)
      (R : A -> B -> Prop) (l : list A) (l' : list B) :
  (forall a b, R a b -> g b = f a) ->
  Forall2 R l l' -> map g l' = map f l.
Proof.
  intros HR H. induction H as [| a b l l' Hab _ IH]; simpl;
    [reflexivity |].
  now rewrite (HR a b Hab), IH.
Qed.

Lemma Forall2_In_r {A B : Type} (R : A -> B -> Prop) (l : list A)
      (l' : list B) :
  Forall2 R l l' -> forall y, In y l' -> exists x, In x l /\ R x y.
Proof.
  induction 1 as [| a b l l' Hab _ IH]; intros y Hy; [destruct Hy |].
  destruct Hy as [<- | Hy]; [exists a; split; [now left | exact Hab] |].
  destruct (IH y Hy) as (x & Hx & HR). exists x. split; [now right | exact HR].
Qed.

(** X3. The handles [transformUser] stores are in normal form: platform
    [instagram] or [tiktok], each at most once, with a handle that is not
    empty, is lower-case and has no white space around it. *)
Theorem transformUser_handles_normal :
  forall (rt : Runtime) (rawData : JsValue) (n n' : nat) (u : User),
    transformUser rt rawData n = Ok (u, n') ->
    Forall normalHandle (socialHandles u)
    /\ NoDup (map platform (socialHandles u)).
Proof.
  intros rt raw n n' u H. unfold transformUser in H.
  inv_bind H rawUserId n1 H1. inv_bind H uid n2 H2.
  inv_bind H hs n3 H3. inv_bind H absorbed n4 H4.
  inv_bind H ps n5 H5. inv_bind H progs n6 H6.
  apply ret_Ok in H as [-> _]. cbn [socialHandles].
  apply transformSocialHandles_spec in H3 as (ys & HF & ->).
  set (direct := ((if truthy (getProp raw "instagram_handle")
                   then [("instagram"%string,
                          getProp raw "instagram_handle")] else [])
                  ++ (if truthy (getProp raw "tiktok_handle")
                      then [("tiktok"%string,
                             getProp raw "tiktok_handle")] else []))%list)
    in *.
  assert (Hp : Forall (fun h : string * JsValue =>
                         fst h = "instagram"%string
                         \/ fst h = "tiktok"%string) direct
               /\ NoDup (map fst direct)).
  { unfold direct.
    destruct (truthy (getProp raw "instagram_handle"));
      destruct (truthy (getProp raw "tiktok_handle")); simpl;
      (split;
       [repeat (apply Forall_cons; [simpl; tauto |]); apply Forall_nil
       | repeat (apply NoDup_cons; [simpl; intuition discriminate |]);
         apply NoDup_nil]). }
  destruct Hp as [Hp Hnd].
  split.
  - apply Forall_forall. intros h Hin.
    apply filter_In in Hin as [Hin Hne].
    apply andb_true_iff in Hne as [Hne _].
    destruct (Forall2_In_r _ direct ys HF h Hin)
      as (x & Hx & Hpl & Hlow & Htr).
    rewrite Forall_forall in Hp. specialize (Hp x Hx).
    unfold normalHandle. rewrite Hpl.
    split; [exact Hp |]. split; [| split; assumption].
    unfold nonEmpty in Hne. intros E. rewrite E in Hne. discriminate.
  - apply NoDup_map_filter.
    rewrite (Forall2_map_eq fst platform _ direct ys
               (fun a b Hab => proj1 Hab) HF).
    exact Hnd.
Qed.

(* ================================================================== *)
(** ** The extractor *)

Lemma Qtrunc_nat (k : nat) : Qtrunc (inject_Z (Z.of_nat k)) = Z.of_nat k.
Proof.
  unfold Qtrunc.
  assert (H : Qle_bool 0 (inject_Z (Z.of_nat k)) = true).
  { apply Qle_bool_iff. unfold Qle. simpl. lia. }
  rewrite H. apply Qfloor_Z.
Qed.

Lemma Qtrunc_neg (k : nat) :
  Qtrunc (inject_Z (- Z.of_nat (S k))) = (- Z.of_nat (S k))%Z.
Proof.
  unfold Qtrunc.
  destruct (Qle_bool 0 (inject_Z (- Z.of_nat (S k)))) eqn:H.
  - apply Qfloor_Z.
  - apply Qceiling_Z.
Qed.

(** X22. [maxFiles] caps the listing only when it is a number other than zero:
    a positive count keeps that many leading files, zero (like a missing
    value) keeps them all, and a negative count drops that many trailing
    files. *)
Theorem capFiles_cases :
  forall (files : list string) (k : nat),
    capFiles None files = files
    /\ capFiles (Some NaN) files = files
    /\ capFiles (Some (Num 0)) files = files
    /\ capFiles (Some (Num (inject_Z (Z.of_nat (S k))))) files
       = firstn (S k) files
    /\ capFiles (Some (Num (inject_Z (- Z.of_nat (S k))))) files
       = firstn (List.length files - S k) files.
Proof.
  intros files k. split; [reflexivity |]. split; [reflexivity |].
  split; [reflexivity |]. split.
  - unfold capFiles.
    assert (T : truthy (JNumber (Num (inject_Z (Z.of_nat (S k))))) = true)
      by reflexivity.
    rewrite T, Qtrunc_nat.
    exact (slice_chunk files 0 (S k)).
  - unfold capFiles.
    assert (T : truthy (JNumber (Num (inject_Z (- Z.of_nat (S k))))) = true)
      by reflexivity.
    rewrite T, Qtrunc_neg.
    unfold slice, sliceIndex.
    assert (L : (- Z.of_nat (S k) <? 0)%Z = true) by (apply Z.ltb_lt; lia).
    rewrite L. cbn [Z.ltb Z.compare]. rewrite Z.min_l by lia.
    cbn [Z.to_nat skipn]. f_equal. lia.
Qed.

(** X23. [extractFiles] does not fail on account of a file: once the directory
    is listed, it yields the records of the listed files that extract, in
    the order of the listing, and skips the others.  The cap is applied to
    the listing, so that a skipped file counts towards [maxFiles]. *)
Theorem extractFiles_yields_extractable :
  forall (fs : FileSystem) (options : ExtractOptions)
         (entries : list Dirent),
    access fs (dataDir options) = true ->
    readdir fs (dataDir options) = Ok entries ->
    exists out,
      extractAllFiles fs options = Ok out
      /\ map filePath out
         = filter (extractable fs)
                  (capFiles (maxFiles options)
                            (listed fs (dataDir options) (patternOf options)
                                    entries))
      /\ Forall (fun x => extractFile fs (filePath x) = Some x) out.
Proof.
  intros fs options entries Ha Hr.
  unfold extractAllFiles, extractFiles, getJsonFiles.
  rewrite Ha, Hr. cbn [negb]. eexists. split; [reflexivity |].
  fold (patternOf options).
  fold (listed fs (dataDir options) (patternOf options) entries).
  generalize (capFiles (maxFiles options)
                (listed fs (dataDir options) (patternOf options) entries)).
  intros files. induction files as [| p files [IH1 IH2]];
    [split; [reflexivity | constructor] |].
  cbn [flat_map filter]. unfold extractable at 1.
  destruct (extractFile fs p) as [x |] eqn:E; cbn [app map].
  - assert (Hp : filePath x = p).
    { unfold extractFile in E.
      destruct (readFile fs p); [| discriminate].
      destruct (JSONparse fs s); [now injection E as <- |].
      destruct (endsWith (trim s) "]" && negb (endsWith (trim s) "}"))%bool;
        [| discriminate].
      destruct (JSONparse fs (trimEnd s ++ closingBrace)%string);
        [now injection E as <- | discriminate]. }
    split; [now rewrite Hp, IH1 |].
    constructor; [now rewrite Hp | exact IH2].
  - split; assumption.
Qed.

(* ================================================================== *)
(** ** A run against the loader *)

Lemma map_set_length {V : Type} (k : string) (v : V) (m : JsMap V) :
  (List.length (map_set k v m) <= S (List.length m))%nat.
Proof.
  induction m as [| [k' v'] m IH]; simpl; [lia |].
  destruct (String.eqb k k'); simpl; lia.
Qed.

Lemma dedupStep_length (m : JsMap User) (u : User) :
  (List.length (dedupStep m u) <= S (List.length m))%nat.
Proof.
  unfold dedupStep.
  destruct (map_get (userId u) m);
    [destruct (Qltb _ _); [| destruct (Qeq_bool _ _)] |];
    try apply map_set_length; lia.
Qed.

Lemma deduplicateUsers_length (users : list User) :
  (List.length (deduplicateUsers users) <= List.length users)%nat.
Proof.
  unfold deduplicateUsers, map_values. rewrite length_map.
  assert (H : forall m : JsMap User,
             (List.length (fold_left dedupStep users m)
              <= List.length m + List.length users)%nat).
  { induction users as [| u users IH]; intros m; simpl; [lia |].
    specialize (IH (dedupStep m u)).
    pose proof (dedupStep_length m u). lia. }
  exact (H []).
Qed.

Lemma chunksOf_single {A : Type} (size : nat) (l : list A) :
  (1 <= List.length l <= size)%nat -> chunksOf A size l = [l].
Proof.
  intros H. unfold chunksOf. destruct l as [| x l]; [simpl in H; lia |].
  cbn [List.length chunksAux].
  rewrite firstn_all2 by lia. rewrite skipn_all2 by lia.
  now destruct (List.length l).
Qed.

Section RunFacts.
Variable rt : Runtime.
Variable DB : Type.
Variable bulkWrite : DB -> list User -> Outcome (nat * nat) * DB.
Variable insertMany : DB -> list User -> Outcome nat * DB.
Variables size fuel : nat.
Hypothesis size_positive : (1 <= size)%nat.
Hypothesis fuel_enough : (size < fuel)%nat.

Lemma pipelineLoader_single (db : DB) (users : list User) :
  (1 <= List.length users <= size)%nat ->
  exists result,
    pipelineLoader DB bulkWrite insertMany fuel (wholeNumber size) db users
    = Some (result, snd (bulkWrite db users)).
Proof.
  intros H. unfold pipelineLoader.
  destruct (loadUserBatch_writes_chunks_aux DB bulkWrite insertMany
              size fuel users true db size_positive) as [E _]; [lia |].
  rewrite E, (chunksOf_single size users H). cbn [fold_left].
  unfold loadChunk. cbn [fst snd].
  destruct (bulkWrite db users) as [[[a b] | ws text] db'];
    eexists; reflexivity.
Qed.

Lemma flushBatch_single (reset : bool) (db : DB) (st : RunState DB) :
  (List.length (currentBatch st) <= size)%nat ->
  singleWrites DB bulkWrite size db st ->
  exists st',
    flushBatch (pipelineLoader DB bulkWrite insertMany fuel (wholeNumber size)) reset st
    = Some st'
    /\ singleWrites DB bulkWrite size db st'.
Proof.
  intros Hlen [Hcalls Hdb]. unfold flushBatch.
  set (newUsers := filter _ (deduplicateUsers (currentBatch st))).
  assert (Hn : (List.length newUsers <= size)%nat).
  { pose proof (List.filter_length_le
                  (fun user => negb (existsb (String.eqb (userId user))
                                             (processedUserIds st)))
                  (deduplicateUsers (currentBatch st))).
    pose proof (deduplicateUsers_length (currentBatch st)).
    unfold newUsers. lia. }
  destruct (Nat.ltb 0 (List.length newUsers)) eqn:L.
  - apply Nat.ltb_lt in L.
    destruct (pipelineLoader_single (database st)
                (map recalculateTotals newUsers)) as [r Hr];
      [rewrite length_map; lia |].
    rewrite Hr. eexists. split; [reflexivity |].
    unfold singleWrites. cbn [loaderCalls database]. split.
    + apply Forall_app. split; [exact Hcalls |].
      constructor; [rewrite length_map; lia | constructor].
    + unfold writtenByCalls. rewrite fold_left_app. cbn [fold_left].
      unfold writtenByCalls in Hdb. now rewrite <- Hdb.
  - eexists. split; [reflexivity |]. split; assumption.
Qed.

Lemma reaches_whole (len n : nat) :
  reaches len (wholeNumber n)
  = Qle_bool (inject_Z (Z.of_nat n)) (inject_Z (Z.of_nat len)).
Proof. reflexivity. Qed.

Lemma processRecord_single (db : DB) (st : RunState DB) (x : JsValue) :
  (List.length (currentBatch st) < size)%nat ->
  singleWrites DB bulkWrite size db st ->
  exists st',
    processRecord rt
                  (pipelineLoader DB bulkWrite insertMany fuel
                                  (wholeNumber size))
                  (wholeNumber size) st x = Some st'
    /\ (List.length (currentBatch st') < size)%nat
    /\ singleWrites DB bulkWrite size db st'.
Proof.
  intros Hlen Hs. unfold processRecord.
  destruct (negb (success (validateUser rt x)));
    [eexists; split; [reflexivity | split; assumption] |].
  destruct (transformUser rt _ (idsDrawn st)) as [[u n'] | e];
    [| eexists; split; [reflexivity | split; assumption]].
  cbn [currentBatch]. rewrite reaches_whole.
  destruct (Qle_bool (inject_Z (Z.of_nat size))
                     (inject_Z (Z.of_nat
                        (List.length (currentBatch st ++ [u])%list))))
    eqn:R.
  - match goal with
    | |- context [flushBatch ?l true ?p] =>
        destruct (flushBatch_single true db p) as (st1 & F & Hs1);
          [cbn [currentBatch]; rewrite length_app; simpl; lia
          | exact Hs |]
    end.
    rewrite F. eexists. split; [reflexivity |].
    apply flushBatch_frame in F as (_ & _ & Hb).
    cbn [withStatistics currentBatch]. rewrite Hb. cbn [List.length].
    split; [lia | exact Hs1].
  - eexists. split; [reflexivity |].
    cbn [withStatistics currentBatch]. split; [| exact Hs].
    destruct (Nat.lt_ge_cases
                (List.length (currentBatch st ++ [u])%list) size)
      as [L | L]; [exact L |].
    assert (T : Qle_bool (inject_Z (Z.of_nat size))
                  (inject_Z (Z.of_nat
                     (List.length (currentBatch st ++ [u])%list))) = true).
    { apply Qle_bool_iff. rewrite <- Zle_Qle. lia. }
    congruence.
Qed.

Lemma processRecords_single (db : DB) (xs : list JsValue) :
  forall st : RunState DB,
    (List.length (currentBatch st) < size)%nat ->
    singleWrites DB bulkWrite size db st ->
    exists st',
      processRecords rt (pipelineLoader DB bulkWrite insertMany fuel (wholeNumber size))
                     (wholeNumber size) st xs = Some st'
      /\ (List.length (currentBatch st') < size)%nat
      /\ singleWrites DB bulkWrite size db st'.
Proof.
  induction xs as [| x xs IH]; intros st Hlen Hs; cbn [processRecords].
  - exists st. auto.
  - destruct (processRecord_single db st x Hlen Hs) as (st1 & E & Hl1 & Hs1).
    rewrite E. exact (IH st1 Hl1 Hs1).
Qed.
End RunFacts.

(** X20. With a batch size that is a whole number of at least 1, a run against
    [loadUserBatch] ends, and every call of the loader is written by one
    [bulkWrite]: the loader is never handed more than [batchSize] users,
    so that its loop has one round. *)
Theorem run_writes_each_batch_once :
  forall (rt : Runtime) (DB : Type)
         (bulkWrite : DB -> list User -> Outcome (nat * nat) * DB)
         (insertMany : DB -> list User -> Outcome nat * DB)
         (size fuel : nat) (db : DB) (extracted : list JsValue),
    (1 <= size)%nat -> (size < fuel)%nat ->
    exists st,
      streamAndFlush rt (pipelineLoader DB bulkWrite insertMany fuel (wholeNumber size))
                     (wholeNumber size) db extracted
      = Some st
      /\ Forall (fun call => (1 <= List.length call <= size)%nat)
                (loaderCalls st)
      /\ database st = writtenByCalls DB bulkWrite db (loaderCalls st).
Proof.
  intros rt DB bulkWrite insertMany size fuel db extracted Hs Hf.
  unfold streamAndFlush.
  destruct (processRecords_single rt DB bulkWrite insertMany size fuel
              Hs Hf db extracted (initialRun db)) as (st1 & E & Hl & Hw).
  { cbn [initialRun currentBatch List.length]. lia. }
  { split; [constructor | reflexivity]. }
  rewrite E.
  destruct (Nat.ltb 0 (List.length (currentBatch st1))).
  - destruct (flushBatch_single DB bulkWrite insertMany size fuel Hs Hf
                false db st1) as (st2 & F & Hw2); [lia | exact Hw |].
    exists st2. split; [exact F | exact Hw2].
  - exists st1. split; [reflexivity | exact Hw].
Qed.

Lemma deduplicateUsers_single (u : User) : deduplicateUsers [u] = [u].
Proof.
  unfold deduplicateUsers. cbn [fold_left]. unfold dedupStep.
  cbn [map_get]. reflexivity.
Qed.

Lemma pipelineLoader_never_ends (DB : Type)
      (bulkWrite : DB -> list User -> Outcome (nat * nat) * DB)
      (insertMany : DB -> list User -> Outcome nat * DB)
      (fuel : nat) (q : Q) (db : DB) (users : list User) :
  q <= 0 -> users <> [] ->
  pipelineLoader DB bulkWrite insertMany fuel (Num q) db users = None.
Proof.
  intros Hq Hu. unfold pipelineLoader, loadUserBatch.
  cbn [opt_batchSize opt_upsert].
  destruct users as [| u users]; [contradiction |].
  cbn [List.length Nat.eqb].
  apply loadLoop_never_ends; [exact Hu | exact Hq | lra].
Qed.

(** X25. With a batch size of zero or less, a run against [loadUserBatch]
    does not get past the first record the validator accepts: the buffer
    is flushed as soon as it holds a user, and the loop of the loader
    never ends. *)
Theorem run_never_ends_without_positive_batch_size :
  forall (rt : Runtime) (DB : Type)
         (bulkWrite : DB -> list User -> Outcome (nat * nat) * DB)
         (insertMany : DB -> list User -> Outcome nat * DB)
         (fuel : nat) (q : Q) (db : DB) (extracted : list JsValue),
    q <= 0 ->
    existsb (accepted rt) extracted = true ->
    streamAndFlush rt (pipelineLoader DB bulkWrite insertMany fuel (Num q))
                   (Num q) db extracted
    = None.
Proof.
  intros rt DB bulkWrite insertMany fuel q db extracted Hq Hx.
  unfold streamAndFlush.
  assert (H : forall st : RunState DB,
             currentBatch st = [] -> processedUserIds st = [] ->
             processRecords rt
               (pipelineLoader DB bulkWrite insertMany fuel (Num q))
               (Num q) st extracted = None).
  { clear db. induction extracted as [| x xs IH]; intros st Hb Hp;
      [discriminate |].
    cbn [existsb] in Hx. cbn [processRecords]. unfold processRecord.
    destruct (accepted rt x) eqn:A.
    - destruct (accepted_transforms rt x (idsDrawn st) A)
        as (d & u & n' & Hd & Hu).
      unfold accepted in A. rewrite A, Hd, Hu. cbn [negb].
      cbn [currentBatch reaches]. rewrite Hb. cbn [app List.length].
      assert (R : Qle_bool q (inject_Z (Z.of_nat 1)) = true).
      { apply Qle_bool_iff.
        pose proof (of_nat_nonneg 1). lra. }
      rewrite R. unfold flushBatch.
      cbn [currentBatch processedUserIds database].
      rewrite deduplicateUsers_single, Hp. cbn [filter existsb negb].
      cbn [List.length Nat.ltb Nat.leb map].
      rewrite pipelineLoader_never_ends; [reflexivity | exact Hq |].
      discriminate.
    - unfold accepted in A. rewrite A. cbn [negb].
      apply IH; [exact Hx | exact Hb | exact Hp]. }
  now rewrite (H (initialRun db) eq_refl eq_refl).
Qed.

(* ================================================================== *)
(** ** From the validator to the stored posts *)

Lemma flexibleSocialPostSchema_enum (rt : Runtime) (v out : JsValue) :
  flexibleSocialPostSchema rt v = Some out -> enumPost out.
Proof.
  intros H. unfold flexibleSocialPostSchema in H.
  match type of H with
  | zObjectPassthrough ?shape _ = _ =>
      match shape with
      | context [("platform"%string, ?s)] =>
          destruct (zObjectPassthrough_field shape _ _ "platform" s
                      ltac:(distinct_keys) H ltac:(simpl; tauto))
            as (fields & fs & r & -> & -> & Hr & Hl)
      end
  end.
  unfold enumPost. rewrite getProp_lookup, Hl.
  exact (proj1 (platform_field_validated rt _ r Hr)).
Qed.

Lemma flexibleProgramSchema_enum (rt : Runtime) (v out : JsValue) :
  flexibleProgramSchema rt v = Some out -> enumProgram out.
Proof.
  intros H. unfold flexibleProgramSchema in H.
  match type of H with
  | zObjectPassthrough ?shape _ = _ =>
      match shape with
      | context [("tasks_completed"%string, ?s)] =>
          destruct (zObjectPassthrough_field shape _ _ "tasks_completed" s
                      ltac:(distinct_keys) H ltac:(simpl; tauto))
            as (fields & fs & r & -> & -> & Hr & Hl)
      end
  end.
  unfold enumProgram. rewrite getProp_lookup, Hl.
  exact (zArray_shape (flexibleSocialPostSchema rt) enumPost _ r
                      (flexibleSocialPostSchema_enum rt) Hr).
Qed.

Lemma flexibleUserSchema_enum (rt : Runtime) (v out : JsValue) :
  flexibleUserSchema rt v = Some out -> enumUser out.
Proof.
  intros H. unfold flexibleUserSchema in H.
  match type of H with
  | zObjectPassthrough ?shape _ = _ =>
      match shape with
      | context [("advocacy_programs"%string, ?s)] =>
          destruct (zObjectPassthrough_field shape _ _ "advocacy_programs" s
                      ltac:(distinct_keys) H ltac:(simpl; tauto))
            as (fields & fs & r & -> & -> & Hr & Hl)
      end
  end.
  unfold enumUser. rewrite getProp_lookup, Hl.
  exact (zArray_shape (flexibleProgramSchema rt) enumProgram _ r
                      (flexibleProgramSchema_enum rt) Hr).
Qed.

Lemma absorbProgram_enum (rt : Runtime)
      (acc acc' : list JsValue * list SalesAttribution) (program : JsValue)
      (n n' : nat) :
  enumProgram program ->
  absorbProgram rt acc program n = Ok (acc', n') ->
  Forall enumPost (fst acc) -> Forall enumPost (fst acc').
Proof.
  unfold absorbProgram, enumProgram. intros Hp H Hacc.
  destruct (isObjectLike program);
    [| apply ret_Ok in H as [-> _]; exact Hacc].
  assert (Hall : Forall enumPost
                   match getProp program "tasks_completed" with
                   | JArray ts => (fst acc ++ ts)%list
                   | _ => fst acc
                   end).
  { destruct (getProp program "tasks_completed"); try exact Hacc.
    apply Forall_app. split; [exact Hacc | exact Hp]. }
  inv_bind H x n1 Hx.
  destruct (truthy (getProp program "program_id"));
    [| apply ret_Ok in H as [-> _]; exact Hall].
  destruct (getProp program "program_id") as [| | | | s | | |];
    try discriminate.
  match type of H with
  | (if ?c then _ else _) _ = _ => destruct c
  end; apply ret_Ok in H as [-> _]; exact Hall.
Qed.

Lemma absorb_all_enum (rt : Runtime) (l : list JsValue) :
  Forall enumProgram l ->
  forall (acc acc' : list JsValue * list SalesAttribution) (n n' : nat),
    foldM (absorbProgram rt) l acc n = Ok (acc', n') ->
    Forall enumPost (fst acc) -> Forall enumPost (fst acc').
Proof.
  induction 1 as [| p l Hp _ IH]; intros acc acc' n n' H Hacc; simpl in H.
  - apply ret_Ok in H as [-> _]. exact Hacc.
  - inv_bind H a1 n1 H1. eapply IH; [exact H |].
    eapply absorbProgram_enum; eassumption.
Qed.

Lemma members_truthy (e : string) :
  In e socialPlatforms -> truthy (JString e) = true.
Proof.
  unfold socialPlatforms. simpl.
  intros H. repeat (destruct H as [<- | H]; [reflexivity |]). destruct H.
Qed.

Lemma transformPost_platform (rt : Runtime) (post : JsValue) (n n' : nat)
      (p : SocialPost) :
  enumPost post ->
  transformPost rt post n = Ok (p, n') -> storedPlatform p.
Proof.
  unfold transformPost, enumPost. intros He H.
  inv_bind H tid n1 H1. inv_bind H xl n2 H2. inv_bind H xc n3 H3.
  inv_bind H xs n4 H4. inv_bind H xr n5 H5. inv_bind H u n6 H6.
  apply ret_Ok in H as [-> _]. unfold storedPlatform. cbn [post_platform].
  destruct (getProp post "platform") as [| | | | e | | |];
    try contradiction;
    try (exists "other"%string; split; [reflexivity | simpl; tauto]).
  cbn [platformValue] in He. rewrite (members_truthy e He). eauto.
Qed.

(** X24. Every post of an entity made from a validated record is stored under
    a platform of the enumeration: the validator maps an unknown platform
    to ["other"], and the transformer a missing one. *)
Theorem validated_posts_have_platform_of_enumeration :
  forall (rt : Runtime) (input d : JsValue) (n n' : nat) (u : User),
    data (validateUser rt input) = Some d ->
    transformUser rt d n = Ok (u, n') ->
    Forall storedPlatform (posts u).
Proof.
  intros rt input d n n' u Hd H.
  assert (He : enumUser d).
  { unfold validateUser in Hd.
    destruct (flexibleUserSchema rt input) as [raw |] eqn:E;
      [| discriminate].
    injection Hd as <-. exact (flexibleUserSchema_enum rt input raw E). }
  unfold transformUser in H.
  inv_bind H rawUserId n1 H1. inv_bind H uid n2 H2.
  inv_bind H hs n3 H3. inv_bind H absorbed n4 H4.
  inv_bind H ps n5 H5. inv_bind H progs n6 H6.
  apply ret_Ok in H as [-> _]. cbn [posts].
  assert (Ha : Forall enumPost (fst absorbed)).
  { unfold enumUser in He.
    destruct (getProp d "advocacy_programs");
      try (apply ret_Ok in H4 as [-> _]; constructor).
    exact (absorb_all_enum rt l He _ _ _ _ H4 (Forall_nil _)). }
  unfold transformSocialPosts in H5.
  inv_bind H5 qs m Hm. apply ret_Ok in H5 as [-> _].
  apply Forall_forall. intros p Hp. apply filter_In in Hp as [Hp _].
  apply (mapM_Forall2 (transformPost rt)
           (fun post p => enumPost post -> storedPlatform p)) in Hm.
  - destruct (Forall2_In_r _ _ _ Hm p Hp) as (post & Hpost & Himp).
    apply Himp. apply filter_In in Hpost as [Hpost _].
    rewrite Forall_forall in Ha. now apply Ha.
  - intros post k q k' Hq Hen. exact (transformPost_platform rt post k k' q Hen Hq).
Qed.

(* ================================================================== *)
(** * Closed examples of the further properties *)

Lemma transformUser_sales_positive_witness :
  transformUser sampleRuntime rawU1 0%nat = Ok (entityU1, 0%nat)
  /\ Forall saleRecordable (salesAttributions entityU1).
Proof.
  assert (H : transformUser sampleRuntime rawU1 0%nat = Ok (entityU1, 0%nat))
    by reflexivity.
  split; [exact H |].
  exact (transformUser_sales_positive sampleRuntime rawU1 0%nat 0%nat
                                      entityU1 H).
Defined.

Lemma transformUser_userId_witness :
  asciiText (getProp rawU1 "user_id")
  /\ transformUser sampleRuntime rawU1 0%nat = Ok (entityU1, 0%nat)
  /\ userId entityU1
     = givenOrSynthetic sampleRuntime "user" (getProp rawU1 "user_id") 0%nat.
Proof.
  assert (H1 : asciiText (getProp rawU1 "user_id")) by reflexivity.
  assert (H2 : transformUser sampleRuntime rawU1 0%nat
               = Ok (entityU1, 0%nat)) by reflexivity.
  split; [exact H1 |]. split; [exact H2 |].
  exact (transformUser_userId sampleRuntime rawU1 0%nat 0%nat entityU1
                              H1 H2).
Defined.

Lemma transformUser_handles_normal_witness :
  exists (u : User) (n' : nat),
    transformUser sampleRuntime rawHandles 0%nat = Ok (u, n')
    /\ Forall normalHandle (socialHandles u)
    /\ NoDup (map platform (socialHandles u)).
Proof.
  destruct (transformUser sampleRuntime rawHandles 0%nat) as [[u n'] | e]
    eqn:E.
  - exists u, n'. split; [reflexivity |].
    exact (transformUser_handles_normal sampleRuntime rawHandles 0%nat n' u E).
  - vm_compute in E. discriminate.
Defined.

Lemma validated_platform_in_enumeration_witness :
  exists out : JsValue,
    flexibleSocialPostSchema sampleRuntime rawMessyPost = Some out
    /\ platformValue (getProp out "platform")
    /\ getProp rawMessyPost "platform" = JString "Instagram"
    /\ asciiOnly "Instagram" = true
    /\ getProp out "platform" = JString (normalizedPlatform "Instagram").
Proof.
  destruct (flexibleSocialPostSchema sampleRuntime rawMessyPost) as [out |]
    eqn:E.
  - exists out. split; [reflexivity |].
    destruct (validated_platform_in_enumeration sampleRuntime rawMessyPost
                                                out E) as [Hv Hs].
    split; [exact Hv |]. split; [reflexivity |]. split; [reflexivity |].
    exact (Hs "Instagram"%string eq_refl eq_refl).
  - vm_compute in E. discriminate.
Defined.

Lemma validateUser_accepts_only_shaped_witness :
  success (validateUser sampleRuntime rawMessy) = true
  /\ isObject rawMessy
  /\ idLike (getProp rawMessy "user_id")
  /\ strOrNullish (getProp rawMessy "name")
  /\ strOrNullish (getProp rawMessy "email")
  /\ strOrNullish (getProp rawMessy "instagram_handle")
  /\ strOrNullish (getProp rawMessy "tiktok_handle")
  /\ arrayLike (getProp rawMessy "advocacy_programs").
Proof.
  assert (H : success (validateUser sampleRuntime rawMessy) = true)
    by reflexivity.
  split; [exact H |].
  exact (validateUser_accepts_only_shaped sampleRuntime rawMessy H).
Defined.

Lemma run_statistics_account_for_every_record_witness :
  exists st : RunState nat,
    streamAndFlush sampleRuntime sampleLoad (Num 2) 0%nat sampleExtracted
    = Some st
    /\ totalFiles (statistics st) = List.length sampleExtracted
    /\ validationErrors (statistics st)
       = List.length (filter (fun x => negb (accepted sampleRuntime x))
                             sampleExtracted)
    /\ processedFiles (statistics st)
       = List.length (filter (accepted sampleRuntime) sampleExtracted)
    /\ cleanRecords (statistics st)
       = List.length (filter (clean sampleRuntime) sampleExtracted)
    /\ (cleanRecords (statistics st) + messyRecords (statistics st))%nat
       = processedFiles (statistics st)
    /\ (processedFiles (statistics st) + validationErrors (statistics st))%nat
       = totalFiles (statistics st).
Proof.
  destruct (streamAndFlush sampleRuntime sampleLoad (Num 2) 0%nat
                           sampleExtracted) as [st |] eqn:E.
  - exists st. split; [reflexivity |].
    exact (run_statistics_account_for_every_record
             sampleRuntime nat sampleLoad (Num 2) 0%nat sampleExtracted st E).
  - vm_compute in E. discriminate.
Defined.

Lemma run_loads_each_identifier_once_witness :
  exists st : RunState nat,
    streamAndFlush sampleRuntime sampleLoad (Num 2) 0%nat sampleExtracted
    = Some st
    /\ NoDup (loadedIds nat st)
    /\ (forall i, In i (processedUserIds st) <-> In i (loadedIds nat st))
    /\ Forall (fun call => call <> []) (loaderCalls st)
    /\ Forall (Forall totals_consistent) (loaderCalls st).
Proof.
  destruct (streamAndFlush sampleRuntime sampleLoad (Num 2) 0%nat
                           sampleExtracted) as [st |] eqn:E.
  - exists st. split; [reflexivity |].
    exact (run_loads_each_identifier_once
             sampleRuntime nat sampleLoad (Num 2) 0%nat sampleExtracted st E).
  - vm_compute in E. discriminate.
Defined.

Lemma flush_processes_every_identifier_witness :
  exists st' : RunState nat,
    flushBatch sampleLoad true sampleBuffered = Some st'
    /\ (forall u, In u (currentBatch sampleBuffered) ->
                  In (userId u) (processedUserIds st'))
    /\ (forall i, In i (processedUserIds sampleBuffered) ->
                  In i (processedUserIds st'))
    /\ (true = true -> currentBatch st' = []).
Proof.
  destruct (flushBatch sampleLoad true sampleBuffered) as [st' |] eqn:E.
  - exists st'. split; [reflexivity |].
    exact (flush_processes_every_identifier nat sampleLoad true
                                            sampleBuffered st' E).
  - vm_compute in E. discriminate.
Defined.

Lemma buffer_stays_below_batch_size_witness :
  (exists st : RunState nat,
      processRecords sampleRuntime (sampleLoader (Num (5 # 2))) (Num (5 # 2))
                     (initialRun 0%nat) sampleExtracted = Some st
      /\ (0 < 5 # 2 ->
          inject_Z (Z.of_nat (List.length (currentBatch st))) < 5 # 2))
  /\ (exists st : RunState nat,
        processRecords sampleRuntime (sampleLoader NaN) NaN (initialRun 0%nat)
                       sampleExtracted = Some st
        /\ loaderCalls st = []).
Proof.
  split.
  - destruct (processRecords sampleRuntime (sampleLoader (Num (5 # 2))) (Num (5 # 2))
                             (initialRun 0%nat) sampleExtracted)
      as [st |] eqn:E.
    + exists st. split; [reflexivity |].
      exact (buffer_stays_below_batch_size
               sampleRuntime nat (sampleLoader (Num (5 # 2))) (Num (5 # 2)) 0%nat
               sampleExtracted st E).
    + vm_compute in E. discriminate.
  - destruct (processRecords sampleRuntime (sampleLoader NaN) NaN
                             (initialRun 0%nat) sampleExtracted)
      as [st |] eqn:E.
    + exists st. split; [reflexivity |].
      exact (buffer_stays_below_batch_size
               sampleRuntime nat (sampleLoader NaN) NaN 0%nat sampleExtracted st E).
    + vm_compute in E. discriminate.
Defined.

Lemma loadUserBatch_writes_chunks_witness :
  (1 <= 2)%nat
  /\ (List.length [userA; userB; userC] < 4)%nat
  /\ loadUserBatch sampleBulkWrite sampleInsertMany 4 [userA; userB; userC]
                   {| opt_batchSize := Some (wholeNumber 2);
                      opt_upsert := Some true |} 0%nat
     = Some (fold_left (loadChunk sampleBulkWrite sampleInsertMany true)
                       (chunksOf User 2 [userA; userB; userC])
                       (emptyLoadResult, 0%nat))
  /\ List.concat (chunksOf User 2 [userA; userB; userC])
     = [userA; userB; userC]
  /\ Forall (fun c => (1 <= List.length c <= 2)%nat)
            (chunksOf User 2 [userA; userB; userC]).
Proof.
  assert (H1 : (1 <= 2)%nat) by lia.
  assert (H2 : (List.length [userA; userB; userC] < 4)%nat) by (simpl; lia).
  split; [exact H1 |]. split; [exact H2 |].
  exact (loadUserBatch_writes_chunks nat sampleBulkWrite sampleInsertMany
           2 4 [userA; userB; userC] true 0%nat H1 H2).
Defined.

Lemma loadUserBatch_failures_are_bounded_witness :
  (1 <= 2)%nat
  /\ (List.length [userA; userB; userC] < 4)%nat
  /\ exists (result : LoadResult) (db' : nat),
       loadUserBatch sampleBulkWrite sampleInsertMany 4 [userA; userB; userC]
                     {| opt_batchSize := Some (wholeNumber 2);
                        opt_upsert := Some false |} 0%nat
       = Some (result, db')
       /\ (failed result <= List.length [userA; userB; userC])%nat
       /\ (plainRejections nat sampleBulkWrite sampleInsertMany ->
           List.length (errors result) = failed result
           /\ incl (map err_userId (errors result))
                   (map userId [userA; userB; userC])).
Proof.
  assert (H1 : (1 <= 2)%nat) by lia.
  assert (H2 : (List.length [userA; userB; userC] < 4)%nat) by (simpl; lia).
  split; [exact H1 |]. split; [exact H2 |].
  exact (loadUserBatch_failures_are_bounded nat sampleBulkWrite
           sampleInsertMany 2 4 [userA; userB; userC] false 0%nat H1 H2).
Defined.

Lemma loadUserBatch_diverges_without_positive_batch_size_witness :
  [userA] <> []
  /\ - (1 # 2) <= 0
  /\ loadUserBatch sampleBulkWrite sampleInsertMany 1000 [userA]
                   {| opt_batchSize := Some (Num (- (1 # 2)));
                      opt_upsert := None |} 0%nat
     = None.
Proof.
  assert (H1 : [userA] <> []) by discriminate.
  assert (H2 : - (1 # 2) <= 0) by lra.
  split; [exact H1 |]. split; [exact H2 |].
  exact (loadUserBatch_diverges_without_positive_batch_size
           nat sampleBulkWrite sampleInsertMany [userA] (- (1 # 2)) None
           0%nat 1000 H1 H2).
Defined.

Lemma run_writes_each_batch_once_witness :
  (1 <= 2)%nat
  /\ (2 < 3)%nat
  /\ exists st : RunState nat,
       streamAndFlush sampleRuntime
                      (pipelineLoader nat sampleBulkWrite sampleInsertMany 3
                                      (wholeNumber 2))
                      (wholeNumber 2) 0%nat sampleExtracted
       = Some st
       /\ Forall (fun call => (1 <= List.length call <= 2)%nat)
                 (loaderCalls st)
       /\ database st
          = writtenByCalls nat sampleBulkWrite 0%nat (loaderCalls st).
Proof.
  assert (H1 : (1 <= 2)%nat) by lia.
  assert (H2 : (2 < 3)%nat) by lia.
  split; [exact H1 |]. split; [exact H2 |].
  exact (run_writes_each_batch_once sampleRuntime nat sampleBulkWrite
           sampleInsertMany 2 3 0%nat sampleExtracted H1 H2).
Defined.

Lemma extractFiles_yields_extractable_witness :
  access sampleFs (dataDir sampleOptions) = true
  /\ exists entries : list Dirent,
       readdir sampleFs (dataDir sampleOptions) = Ok entries
       /\ exists out,
            extractAllFiles sampleFs sampleOptions = Ok out
            /\ map filePath out
               = filter (extractable sampleFs)
                        (capFiles (maxFiles sampleOptions)
                                  (listed sampleFs (dataDir sampleOptions)
                                          (patternOf sampleOptions) entries))
            /\ Forall (fun x => extractFile sampleFs (filePath x) = Some x)
                      out.
Proof.
  assert (H1 : access sampleFs (dataDir sampleOptions) = true)
    by reflexivity.
  split; [exact H1 |].
  eexists. split; [reflexivity |].
  exact (extractFiles_yields_extractable sampleFs sampleOptions _ H1
                                         eq_refl).
Defined.

Lemma validated_posts_have_platform_of_enumeration_witness :
  exists (d : JsValue) (u : User) (n' : nat),
    data (validateUser sampleRuntime rawU1) = Some d
    /\ transformUser sampleRuntime d 0%nat = Ok (u, n')
    /\ Forall storedPlatform (posts u).
Proof.
  destruct (data (validateUser sampleRuntime rawU1)) as [d |] eqn:Ed;
    [| vm_compute in Ed; discriminate].
  destruct (transformUser sampleRuntime d 0%nat) as [[u n'] | e] eqn:Eu.
  - exists d, u, n'. split; [reflexivity |]. split; [exact Eu |].
    exact (validated_posts_have_platform_of_enumeration
             sampleRuntime rawU1 d 0%nat n' u Ed Eu).
  - vm_compute in Ed. injection Ed as <-. vm_compute in Eu. discriminate.
Defined.

Lemma run_never_ends_without_positive_batch_size_witness :
  0 <= 0
  /\ existsb (accepted sampleRuntime) sampleExtracted = true
  /\ streamAndFlush sampleRuntime
                    (pipelineLoader nat sampleBulkWrite sampleInsertMany
                                    1000 (Num 0))
                    (Num 0) 0%nat sampleExtracted
     = None.
Proof.
  assert (H1 : 0 <= 0) by lra.
  assert (H2 : existsb (accepted sampleRuntime) sampleExtracted = true)
    by reflexivity.
  split; [exact H1 |]. split; [exact H2 |].
  exact (run_never_ends_without_positive_batch_size
           sampleRuntime nat sampleBulkWrite sampleInsertMany 1000 0 0%nat
           sampleExtracted H1 H2).
Defined.

Lemma merged_sales_total_witness :
  wholeAmounts (salesAttributions userA ++ salesAttributions userB)
  /\ sumAmount (deduplicateSalesAttributions
                  (salesAttributions userA ++ salesAttributions userB))
     == sumAmount (salesAttributions userA ++ salesAttributions userB)
  /\ totalSales (recalculateTotals (mergeUsers userA userB))
     == sumAmount (salesAttributions userA)
        + sumAmount (salesAttributions userB).
Proof.
  assert (H : wholeAmounts (salesAttributions userA
                            ++ salesAttributions userB)).
  { exists [50; 25; 10]%Z. split.
    - repeat constructor.
    - vm_compute. discriminate. }
  split; [exact H |].
  destruct (merged_sales_total _ H) as [H1 H2].
  split; [exact H1 | exact (H2 userA userB eq_refl)].
Defined.
